(** * NGPC layered 2bpp export (Piskel [MiscExportController.js])

    A shallow embedding of the exporter's planning pass
    ([buildLayeredPlan_]), palette construction and interning
    ([buildTilePaletteRgb444_], [rgbToRgb444_], [findOrAddPalette_]), tile
    bit packing ([encodeNgpcTile2bppLayered_]) and of [onDownloadCFileClick_]:
    the limits it reads from the page, the tables it builds and the C text
    it prints from them ([hex8_], [hex16_]); followed by the properties of
    the export that the specification states, and by further properties of
    the code. *)

From Stdlib Require Import ZArith NArith Lia.
From Stdlib Require Import Strings.String Strings.Ascii Numbers.DecimalString.
From Stdlib Require Numbers.HexadecimalString Numbers.DecimalN.
From stdpp Require Import gmap strings list sorting.

(** ** The JavaScript built-ins the exporter relies on *)

Module JS.

(** A JavaScript number that is an integer or [NaN] ([None]). *)
Definition num := option Z.

(** [ToString] of a non-negative integer: its decimal digits. *)
Definition dec (n : N) : string := NilEmpty.string_of_uint (N.to_uint n).

(** [ToString] of the value read from a typed array: a byte, or [undefined]
    ([None]) when the index is outside the array. *)
Definition show (v : option N) : string :=
  match v with
  | Some n => dec n
  | None => "undefined"
  end.

(** [s.split(',')]. *)
Fixpoint split_comma (s : string) : list string :=
  match s with
  | EmptyString => [EmptyString]
  | String c s' =>
      if Ascii.eqb c ","%char then EmptyString :: split_comma s'
      else match split_comma s' with
           | p :: ps => String c p :: ps
           | [] => [String c EmptyString]
           end
  end.

Definition is_space (c : ascii) : bool :=
  let n := N_of_ascii c in
  ((9 <=? n) && (n <=? 13) || (n =? 32))%N.

Fixpoint skip_space (s : string) : string :=
  match s with
  | String c s' => if is_space c then skip_space s' else s
  | EmptyString => s
  end.

Definition digit_of (c : ascii) : option N :=
  let n := N_of_ascii c in
  if ((48 <=? n) && (n <=? 57))%N then Some (n - 48)%N else None.

(** The value of the longest prefix of decimal digits, [None] when the
    string does not start with a digit. *)
Fixpoint digits (s : string) (acc : option N) : option N :=
  match s with
  | String c s' =>
      match digit_of c with
      | Some d => digits s' (Some (10 * default 0 acc + d)%N)
      | None => acc
      end
  | EmptyString => acc
  end.

(** [parseInt(s, 10)]: leading white space, an optional sign, then the
    longest run of digits; [NaN] when there is no digit.  (Only the ASCII
    white space characters are modelled, and the value is the integer the
    digits write, which a JavaScript number holds exactly up to 53 bits;
    the strings the exporter parses are made of the digits of bytes, commas
    and the word [undefined].) *)
Definition parseInt (s : string) : num :=
  let s := skip_space s in
  let '(neg, s) :=
    match s with
    | String "-"%char s' => (true, s')
    | String "+"%char s' => (false, s')
    | _ => (false, s)
    end in
  match digits s None with
  | Some n => Some (if neg then - Z.of_N n else Z.of_N n)%Z
  | None => None
  end.

(** [parseInt(parts[i], 10)]; a missing element is [undefined], which
    [parseInt] reads as the string "undefined". *)
Definition parseIntAt (parts : list string) (i : nat) : num :=
  parseInt (default "undefined" (parts !! i)).

(** [a - b] on numbers. *)
Definition sub (a b : num) : num :=
  match a, b with
  | Some x, Some y => Some (x - y)%Z
  | _, _ => None
  end.

(** [v !== 0]. *)
Definition ne_zero (v : num) : bool :=
  match v with
  | Some z => negb (z =? 0)%Z
  | None => true
  end.

(** [ToInt32], applied by the operators [>>], [&], [<<] and [|]. *)
Definition toInt32 (v : num) : Z :=
  match v with
  | Some z => ((z + 2 ^ 31) mod 2 ^ 32 - 2 ^ 31)%Z
  | None => 0%Z
  end.

(** [Array.prototype.sort(cmp)], as a stable insertion sort: an element
    moves behind another one only when [cmp] says it is greater; a [NaN]
    from the comparator counts as 0. *)
Definition greater {A} (cmp : A → A → num) (x y : A) : bool :=
  match cmp x y with
  | Some v => (0 <? v)%Z
  | None => false
  end.

Fixpoint sort_insert {A} (cmp : A → A → num) (x : A) (l : list A) : list A :=
  match l with
  | [] => [x]
  | y :: l' => if greater cmp x y then y :: sort_insert cmp x l' else x :: l
  end.

Definition sort {A} (cmp : A → A → num) (l : list A) : list A :=
  foldr (sort_insert cmp) [] l.

(** [Math.ceil(n / 3)] for a length [n]. *)
Definition ceil_div3 (n : nat) : nat := (n + 2) / 3.

(** The line feed of the alert texts. *)
Definition nl : string := String (ascii_of_nat 10) EmptyString.

(** A [for (var i = 0; i < n; i++)] loop whose body may leave the function
    ([inl]): the state is threaded through the iterations until the first
    one that leaves. *)
Fixpoint for_each {E S} (body : nat → S → E + S) (xs : list nat) (s : S) : E + S :=
  match xs with
  | [] => inr s
  | i :: xs' =>
      match body i s with
      | inl e => inl e
      | inr s' => for_each body xs' s'
      end
  end.

Definition for_upto {E S} (n : nat) (body : nat → S → E + S) (s : S) : E + S :=
  for_each body (seq 0 n) s.

(** [n.toString(16)] for a non-negative integer [n]: its hexadecimal
    digits, in lower case. *)
Definition hex (n : N) : string :=
  HexadecimalString.NilEmpty.string_of_uint (N.to_hex_uint n).

(** [s.slice(-k)]: the last [k] characters of [s], all of [s] when it has
    fewer. *)
Definition slice_last (k : nat) (s : string) : string :=
  substring (String.length s - k) k s.

(** [v & mask] for a non-negative [mask]: a non-negative integer. *)
Definition and_mask (v : num) (mask : Z) : N := Z.to_N (Z.land (toInt32 v) mask).

(** The double quote. *)
Definition dq : string := String (ascii_of_nat 34) EmptyString.

End JS.

(** ** Colour keys and RGB444 *)

(** [rgbaKey_]: the key "r,g,b,a" of a pixel read from the image data. *)
Definition rgbaKey_ (r g b a : option N) : string :=
  JS.show r +:+ "," +:+ JS.show g +:+ "," +:+ JS.show b +:+ "," +:+ JS.show a.

(** [rgbaKeySort_]: compare the four numeric components in turn. *)
Fixpoint rgbaKeySort_loop (pa pb : list string) (i n : nat) : JS.num :=
  match n with
  | O => Some 0%Z
  | S n' =>
      let da := JS.sub (JS.parseIntAt pa i) (JS.parseIntAt pb i) in
      if JS.ne_zero da then da else rgbaKeySort_loop pa pb (S i) n'
  end.

Definition rgbaKeySort_ (ka kb : string) : JS.num :=
  rgbaKeySort_loop (JS.split_comma ka) (JS.split_comma kb) 0 4.

(** [rgbToRgb444_]: 0x0BGR from the top four bits of each channel. *)
Definition rgbToRgb444_ (r g b : JS.num) : Z :=
  let r4 := Z.land (Z.shiftr (JS.toInt32 r) 4) 15 in
  let g4 := Z.land (Z.shiftr (JS.toInt32 g) 4) 15 in
  let b4 := Z.land (Z.shiftr (JS.toInt32 b) 4) 15 in
  Z.lor (Z.lor (Z.shiftl b4 8) (Z.shiftl g4 4)) r4.

(** ** The image source *)

(** The part of [piskelController] the exporter uses.  [frameData fi] is
    [renderFrameAt(fi, true).getContext('2d').getImageData(0, 0, width,
    height).data]: the RGBA bytes of frame [fi], row by row. *)
Record PiskelController := {
  getWidth : nat;
  getHeight : nat;
  getFrameCount : nat;
  frameData : nat → list N
}.

(** ** Pass 1: the grouping plan *)

(** The body of the two pixel loops of [buildLayeredPlan_]: [set] is the
    object used as a set of keys, [list] the array of keys in order of first
    appearance.  A key the object does not hold reads as [undefined]: a key
    has commas, so it names no property inherited from [Object.prototype]. *)
Definition collectPixel (pix : list N) (width tx ty y x : nat)
    (st : gmap string bool * list string) : gmap string bool * list string :=
  let ix := ((ty * 8 + y) * width + (tx * 8 + x)) * 4 in
  let a := pix !! (ix + 3) in
  if bool_decide (a = Some 0%N) then st
  else
    let key := rgbaKey_ (pix !! ix) (pix !! (ix + 1)) (pix !! (ix + 2)) a in
    if negb (default false (st.1 !! key))
    then (<[key := true]> st.1, st.2 ++ [key])
    else st.

Definition collectTile (pix : list N) (width tx ty : nat) : gmap string bool * list string :=
  foldl (λ st y, foldl (λ st x, collectPixel pix width tx ty y x st) st (seq 0 8))
        (∅, []) (seq 0 8).

(** [list] after [list.sort(this.rgbaKeySort_)]. *)
Definition tileColorList (pix : list N) (width tx ty : nat) : list string :=
  JS.sort rgbaKeySort_ (collectTile pix width tx ty).2.

(** [groups[l][fi][t] = v]. *)
Definition setGroup (l fi t : nat) (v : list string)
    (groups : list (list (list (list string)))) : list (list (list (list string))) :=
  alter (alter (<[t := v]>) fi) l groups.

(** [groups[l][fi][t]]; [None] when one of the three reads is off the end
    (where JavaScript throws a [TypeError] or hands on [undefined]). *)
Definition getGroup (groups : list (list (list (list string)))) (l fi t : nat)
    : option (list string) :=
  match groups !! l with
  | Some frames =>
      match frames !! fi with
      | Some tiles => tiles !! t
      | None => None
      end
  | None => None
  end.

(** The text of the alert for a tile with too many colours. *)
Definition layerOverflowText (tx ty fi2 colors maxLayers : nat) : string :=
  "Tile at (tx=" +:+ JS.dec (N.of_nat tx) +:+ ", ty=" +:+ JS.dec (N.of_nat ty) +:+
  ") in frame " +:+ JS.dec (N.of_nat fi2) +:+ " uses " +:+ JS.dec (N.of_nat colors) +:+
  " opaque colors." +:+ JS.nl +:+
  "With maxLayers=" +:+ JS.dec (N.of_nat maxLayers) +:+
  ", max opaque colors per tile is " +:+ JS.dec (N.of_nat (maxLayers * 3)) +:+ "." +:+ JS.nl +:+
  "Reduce colors or increase MAX_LAYERS in exporter.".

(** The body of the tile loop of [buildLayeredPlan_]; the state is
    [(groups, neededLayers)]. *)
Definition planTile (pix : list N) (width tilesX maxLayers fi2 ty tx : nat)
    (st : list (list (list (list string))) * nat)
    : string + (list (list (list (list string))) * nat) :=
  let tileId := ty * tilesX + tx in
  let list := tileColorList pix width tx ty in
  let chunks := JS.ceil_div3 (length list) in
  if bool_decide (maxLayers < chunks) then
    inl (layerOverflowText tx ty fi2 (length list) maxLayers)
  else
    let neededLayers := if bool_decide (st.2 < chunks) then chunks else st.2 in
    let groups := foldl (λ g l, setGroup l fi2 tileId [] g) st.1 (seq 0 maxLayers) in
    let groups :=
      foldl (λ g c, setGroup c fi2 tileId (take 3 (drop (c * 3) list)) g)
            groups (seq 0 chunks) in
    inr (groups, neededLayers).

(** What [buildLayeredPlan_] returns: [{ok: false, error}] or
    [{ok: true, layerCount, groups}]. *)
Inductive Plan :=
  | PlanFailed (error : string)
  | PlanOk (layerCount : nat) (groups : list (list (list (list string)))).

(** [buildLayeredPlan_].  [groups.length = neededLayers] cuts the array of
    layers; it could only lengthen it for [maxLayers = 0], with a hole,
    rendered here as a layer without frames: reading a group of that layer
    fails as reading from the hole does. *)
Definition buildLayeredPlan_ (pc : PiskelController)
    (width height frameCount tilesX tilesY maxLayers : nat) : Plan :=
  let tilesPerFrame := tilesX * tilesY in
  let groups := replicate maxLayers (replicate frameCount (replicate tilesPerFrame [])) in
  let neededLayers := 1 in
  match
    JS.for_upto frameCount (λ fi2 st,
      let pix := frameData pc fi2 in
      JS.for_upto tilesY (λ ty st,
        JS.for_upto tilesX (λ tx st,
          planTile pix width tilesX maxLayers fi2 ty tx st) st) st)
      (groups, neededLayers)
  with
  | inl error => PlanFailed error
  | inr (groups, neededLayers) => PlanOk neededLayers (resize neededLayers [] groups)
  end.

(** ** Palettes *)

(** [buildTilePaletteRgb444_]: [i < groupKeys.length] is the test that
    [groupKeys[i]] exists. *)
Definition buildTilePaletteRgb444_ (groupKeys : list string) : list Z :=
  foldl (λ pal i,
           match groupKeys !! i with
           | Some key =>
               let parts := JS.split_comma key in
               let r := JS.parseIntAt parts 0 in
               let g := JS.parseIntAt parts 1 in
               let b := JS.parseIntAt parts 2 in
               <[i + 1 := rgbToRgb444_ r g b]> pal
           | None => pal
           end)
        [0; 0; 0; 0]%Z (seq 0 3).

(** [p[0] === pal4[0] && p[1] === pal4[1] && p[2] === pal4[2] && p[3] === pal4[3]]. *)
Definition samePalette (p pal4 : list Z) : bool :=
  bool_decide (p !! 0 = pal4 !! 0) && bool_decide (p !! 1 = pal4 !! 1) &&
  bool_decide (p !! 2 = pal4 !! 2) && bool_decide (p !! 3 = pal4 !! 3).

(** The linear search of [findOrAddPalette_], from index [i] on. *)
Fixpoint findPalette (bank : list (list Z)) (pal4 : list Z) (i : nat) : option nat :=
  match bank with
  | [] => None
  | p :: bank' => if samePalette p pal4 then Some i else findPalette bank' pal4 (S i)
  end.

(** [findOrAddPalette_]: the bank after the call and the value returned. *)
Definition findOrAddPalette_ (bank : list (list Z)) (pal4 : list Z) (maxCount : nat)
    : list (list Z) * Z :=
  match findPalette bank pal4 0 with
  | Some i => (bank, Z.of_nat i)
  | None =>
      if bool_decide (maxCount ≤ length bank) then (bank, (-1)%Z)
      else (bank ++ [pal4], (Z.of_nat (length (bank ++ [pal4])) - 1)%Z)
  end.

(** ** Tile encoding *)

(** The object [map] of [encodeNgpcTile2bppLayered_], filled from index [i]. *)
Fixpoint buildMap (groupKeys : list string) (i : nat) (map : gmap string Z) : gmap string Z :=
  match groupKeys with
  | [] => map
  | key :: keys => buildMap keys (S i) (<[key := Z.land (Z.of_nat i + 1) 3]> map)
  end.

(** The colour index [ci] of the pixel whose bytes start at [idx]. *)
Definition pixelIndex (map : gmap string Z) (pix : list N) (idx : nat) : Z :=
  let r := pix !! idx in
  let g := pix !! (idx + 1) in
  let b := pix !! (idx + 2) in
  let a := pix !! (idx + 3) in
  if bool_decide (a ≠ Some 0%N) then
    let key := rgbaKey_ r g b a in
    match map !! key with
    | Some v => if (v =? 0)%Z then 0%Z else v
    | None => 0%Z
    end
  else 0%Z.

(** [byteVal] after the loop over [k], for row [y] and block [block]. *)
Definition packBlock (map : gmap string Z) (pix : list N) (imgW x0 y0 y block : nat) : Z :=
  let startX := if bool_decide (block = 0) then 7 else 3 in
  foldl (λ byteVal k,
           let x := x0 + (startX - k) in
           let idx := ((y0 + y) * imgW + x) * 4 in
           let ci := pixelIndex map pix idx in
           Z.lor byteVal (Z.shiftl (Z.land ci 3) (Z.of_nat k * 2)))
        0%Z (seq 0 4).

(** [encodeNgpcTile2bppLayered_]: [out[outPos++] = v] writes the slots of
    [out] in ascending order, so [out] is built here by appending. *)
Definition encodeNgpcTile2bppLayered_ (pix : list N) (imgW x0 y0 : nat)
    (groupKeys : list string) : list Z :=
  let map := buildMap groupKeys 0 ∅ in
  foldl (λ out y,
           foldl (λ out block, out ++ [Z.land (packBlock map pix imgW x0 y0 y block) 255])
                 out (seq 0 2))
        [] (seq 0 8).

(** ** Pass 2: palette banks and tiles *)

(** How [onDownloadCFileClick_] ends without an export: after
    [window.alert(msg)], or with an exception. *)
Inductive Failure :=
  | Alert (msg : string)
  | TypeError.

(** The tables [onDownloadCFileClick_] then prints as C source. *)
Record Tables := {
  layerCount : nat;
  perLayerPalettes : list (list (list Z));
  perLayerPalIdMap : list (list (list Z));
  perLayerTiles : list (list (list (list Z)))
}.

Definition dimensionsText (width height : nat) : string :=
  "NGPC export requires WIDTH and HEIGHT to be multiples of 8." +:+ JS.nl +:+
  "Current: " +:+ JS.dec (N.of_nat width) +:+ "x" +:+ JS.dec (N.of_nat height).

Definition paletteOverflowText (l maxPals : nat) : string :=
  "Too many distinct palettes in layer " +:+ JS.dec (N.of_nat l) +:+
  " (>" +:+ JS.dec (N.of_nat maxPals) +:+ ")." +:+ JS.nl +:+
  "Tip: reuse colors/palettes more, or export smaller assets.".

(** The body of the tile loop of pass 2.  The state is the bank of layer
    [l] and the rows [perLayerPalIdMap[l][fi]] and [perLayerTiles[l][fi]]:
    their slot [tileId] is assigned in ascending order of [tileId], so the
    rows are built by appending. *)
Definition exportTile (groups : list (list (list (list string)))) (maxPals : nat)
    (pix : list N) (width tilesX l fi ty tx : nat)
    (st : list (list Z) * list Z * list (list Z))
    : Failure + (list (list Z) * list Z * list (list Z)) :=
  let '(bank, palIds, tiles) := st in
  let tileId := ty * tilesX + tx in
  match getGroup groups l fi tileId with
  | None => inl TypeError
  | Some group =>
      let palRgb444 := buildTilePaletteRgb444_ group in
      let '(bank, palId) := findOrAddPalette_ bank palRgb444 maxPals in
      if (palId <? 0)%Z then inl (Alert (paletteOverflowText l maxPals))
      else
        let tileBytes := encodeNgpcTile2bppLayered_ pix width (tx * 8) (ty * 8) group in
        inr (bank, palIds ++ [palId], tiles ++ [tileBytes])
  end.

(** The body of the frame loop: a fresh row per frame, the bank shared. *)
Definition exportFrame (pc : PiskelController) (groups : list (list (list (list string))))
    (maxPals width tilesX tilesY l fi : nat)
    (st : list (list Z) * list (list Z) * list (list (list Z)))
    : Failure + (list (list Z) * list (list Z) * list (list (list Z))) :=
  let '(bank, palIdMap, tiles) := st in
  let pix := frameData pc fi in
  match
    JS.for_upto tilesY (λ ty st,
      JS.for_upto tilesX (λ tx st,
        exportTile groups maxPals pix width tilesX l fi ty tx st) st)
      (bank, [], [])
  with
  | inl e => inl e
  | inr (bank, palIds, frameTiles) => inr (bank, palIdMap ++ [palIds], tiles ++ [frameTiles])
  end.

(** The body of the layer loop: a fresh bank and fresh tables per layer. *)
Definition exportLayer (pc : PiskelController) (groups : list (list (list (list string))))
    (maxPals width frameCount tilesX tilesY l : nat)
    (st : list (list (list Z)) * list (list (list Z)) * list (list (list (list Z))))
    : Failure + (list (list (list Z)) * list (list (list Z)) * list (list (list (list Z)))) :=
  let '(palettes, palIdMaps, tiles) := st in
  match
    JS.for_upto frameCount (exportFrame pc groups maxPals width tilesX tilesY l) ([], [], [])
  with
  | inl e => inl e
  | inr (bank, palIdMap, layerTiles) =>
      inr (palettes ++ [bank], palIdMaps ++ [palIdMap], tiles ++ [layerTiles])
  end.

(** The three controls of the page [onDownloadCFileClick_] reads its limits
    from: the value of each element, [None] when the element is missing. *)
Record Page := {
  profileValue : option string;
  maxLayersValue : option string;
  maxPalsValue : option string
}.

(** [var v = parseInt(el.value, 10); if (!isNaN(v)) { if (v < lo) v = lo;
    if (v > hi) v = hi; LIMIT = v; }] *)
Definition readLimit (el : option string) (lo hi limit : Z) : Z :=
  match el with
  | Some value =>
      match JS.parseInt value with
      | Some v =>
          let v := if (v <? lo)%Z then lo else v in
          if (hi <? v)%Z then hi else v
      | None => limit
      end
  | None => limit
  end.

(** [MAX_LAYERS] and [MAX_PALS_PER_LAYER] as the head of
    [onDownloadCFileClick_] sets them. *)
Definition readLimits (page : Page) : Z * Z :=
  let bg := bool_decide (profileValue page = Some "bg") in
  let MAX_LAYERS := if bg then 6%Z else 3%Z in
  let MAX_PALS_PER_LAYER := if bg then 32%Z else 16%Z in
  (readLimit (maxLayersValue page) 1 8 MAX_LAYERS,
   readLimit (maxPalsValue page) 1 64 MAX_PALS_PER_LAYER).

(** [onDownloadCFileClick_], from the dimension check to the tables, for the
    limits [MAX_LAYERS] and [MAX_PALS_PER_LAYER] read from the page. *)
Definition onDownloadCFileClick_ (pc : PiskelController) (MAX_LAYERS MAX_PALS_PER_LAYER : nat)
    : Failure + Tables :=
  let width := getWidth pc in
  let height := getHeight pc in
  let frameCount := getFrameCount pc in
  if bool_decide (width mod 8 ≠ 0 ∨ height mod 8 ≠ 0) then
    inl (Alert (dimensionsText width height))
  else
    let tilesX := width / 8 in
    let tilesY := height / 8 in
    match buildLayeredPlan_ pc width height frameCount tilesX tilesY MAX_LAYERS with
    | PlanFailed error => inl (Alert error)
    | PlanOk layerCount groups =>
        match
          JS.for_upto layerCount
            (exportLayer pc groups MAX_PALS_PER_LAYER width frameCount tilesX tilesY)
            ([], [], [])
        with
        | inl e => inl e
        | inr (palettes, palIdMaps, tiles) =>
            inr {| layerCount := layerCount;
                   perLayerPalettes := palettes;
                   perLayerPalIdMap := palIdMaps;
                   perLayerTiles := tiles |}
        end
    end.

(** ** The profile control

    The handler [init] registers for the [change] event of the profile
    control, when the three controls are on the page: it writes the limits
    of the chosen profile into the two other controls, whose value then
    reads back as the decimal text of the number assigned. *)
Definition onProfileChange (page : Page) : Page :=
  match profileValue page, maxLayersValue page, maxPalsValue page with
  | Some profile, Some _, Some _ =>
      if bool_decide (profile = "bg") then
        {| profileValue := Some profile;
           maxLayersValue := Some (JS.dec 6); maxPalsValue := Some (JS.dec 32) |}
      else
        {| profileValue := Some profile;
           maxLayersValue := Some (JS.dec 3); maxPalsValue := Some (JS.dec 16) |}
  | _, _, _ => page
  end.

(** [onDownloadCFileClick_] up to the tables, with the limits it reads from
    the page. *)
Definition exportWith (page : Page) (pc : PiskelController) : Failure + Tables :=
  let '(MAX_LAYERS, MAX_PALS_PER_LAYER) := readLimits page in
  onDownloadCFileClick_ pc (Z.to_nat MAX_LAYERS) (Z.to_nat MAX_PALS_PER_LAYER).

(** ** The C source *)

(** [hex8_] and [hex16_]. *)
Definition hex8_ (v : JS.num) : string :=
  let s := JS.hex (JS.and_mask v 255) in
  "0x" +:+ JS.slice_last 2 ("00" +:+ s).

Definition hex16_ (v : JS.num) : string :=
  let s := JS.hex (JS.and_mask v 65535) in
  "0x" +:+ JS.slice_last 4 ("0000" +:+ s).

(** The three strings made from the name of the piskel: [nameRaw], and
    [cName.toUpperCase()] and [cName.toLowerCase()] for
    [cName = nameRaw.replace(/\s+/g, '_')]. *)
Record Names := {
  nameRaw : string;
  upperName : string;
  lowerName : string
}.

Definition fileName (names : Names) : string := nameRaw names +:+ "_ngpc_layers.c".

(** The sizes the text is printed for. *)
Record Sizes := {
  MAX_LAYERS : nat;
  MAX_PALS_PER_LAYER : nat;
  width : nat;
  height : nat;
  frameCount : nat;
  tilesX : nat;
  tilesY : nat
}.

Definition tilesPerFrame (sz : Sizes) : nat := tilesX sz * tilesY sz.

Definition bytesPerTile : nat := 16.

(** A number appended to a string: its decimal digits. *)
Definition num (n : nat) : string := JS.dec (N.of_nat n).

(** The head of the text: the comment and the [#define] lines. *)
Definition outHead (names : Names) (sz : Sizes) (layerCount : nat) : string :=
  "#include <stdint.h>" +:+ JS.nl +:+ JS.nl +:+
  "/* NGPC layered 2bpp export from Piskel: " +:+ JS.dq +:+ nameRaw names +:+ JS.dq +:+
    " */" +:+ JS.nl +:+
  "/*" +:+ JS.nl +:+
  "  - Image is split per 8x8 tile into up to " +:+ num (MAX_LAYERS sz) +:+ " layers." +:+ JS.nl +:+
  "  - Each layer uses 2bpp (4 codes): 0=transparent, 1..3=opaque colors." +:+ JS.nl +:+
  "  - Reassemble by drawing all layers in order (0..LAYER_COUNT-1) at same tile positions."
    +:+ JS.nl +:+
  "  - Palettes are RGB444 packed in uint16_t: 0x0BGR." +:+ JS.nl +:+
  "*/" +:+ JS.nl +:+ JS.nl +:+
  "#define " +:+ upperName names +:+ "_FRAME_COUNT " +:+ num (frameCount sz) +:+ JS.nl +:+
  "#define " +:+ upperName names +:+ "_WIDTH " +:+ num (width sz) +:+ JS.nl +:+
  "#define " +:+ upperName names +:+ "_HEIGHT " +:+ num (height sz) +:+ JS.nl +:+
  "#define " +:+ upperName names +:+ "_TILES_X " +:+ num (tilesX sz) +:+ JS.nl +:+
  "#define " +:+ upperName names +:+ "_TILES_Y " +:+ num (tilesY sz) +:+ JS.nl +:+
  "#define " +:+ upperName names +:+ "_TILES_PER_FRAME " +:+ num (tilesPerFrame sz) +:+ JS.nl +:+
  "#define " +:+ upperName names +:+ "_BYTES_PER_TILE " +:+ num bytesPerTile +:+ JS.nl +:+
  "#define " +:+ upperName names +:+ "_LAYER_COUNT " +:+ num layerCount +:+ JS.nl +:+ JS.nl.

(** The palette counts.  The declaration, then the loop over [l2]:
    [perLayerPalettes[l2].length] throws when the layer is missing. *)
Definition palCountDecl (names : Names) (layerCount : nat) : string :=
  "static const uint8_t " +:+ lowerName names +:+ "_pal_count[" +:+ num layerCount +:+ "] = {"
    +:+ JS.nl +:+ "  ".

Definition palCountRows (perLayerPalettes : list (list (list Z))) (layerCount : nat)
    (out : string) : Failure + string :=
  JS.for_upto layerCount (λ l2 out,
    match perLayerPalettes !! l2 with
    | None => inl TypeError
    | Some bank =>
        let out := out +:+ JS.dec (JS.and_mask (Some (Z.of_nat (length bank))) 255) in
        inr (out +:+ (if bool_decide (l2 ≠ layerCount - 1) then ", " else JS.nl))
    end) out.

(** The palettes.  [p < perLayerPalettes[l3].length] is the test that
    [perLayerPalettes[l3][p]] exists. *)
Definition palettesDecl (names : Names) (sz : Sizes) (layerCount : nat) : string :=
  "static const uint16_t " +:+ lowerName names +:+ "_pal_rgb444[" +:+ num layerCount +:+ "][" +:+
    num (MAX_PALS_PER_LAYER sz) +:+ "][4] = {" +:+ JS.nl.

Definition paletteRow (bank : list (list Z)) (maxPals p : nat) : string :=
  let pal :=
    match bank !! p with
    | Some pal => pal
    | None => [0; 0; 0; 0]%Z
    end in
  "    { " +:+ hex16_ (pal !! 0) +:+ ", " +:+ hex16_ (pal !! 1) +:+ ", " +:+
    hex16_ (pal !! 2) +:+ ", " +:+ hex16_ (pal !! 3) +:+ " }" +:+
  (if bool_decide (p ≠ maxPals - 1) then "," else "") +:+
  JS.nl.

Definition palettesRows (perLayerPalettes : list (list (list Z))) (maxPals layerCount : nat)
    (out : string) : Failure + string :=
  JS.for_upto layerCount (λ l3 out,
    let out := out +:+ "  {" +:+ JS.nl in
    match
      JS.for_upto maxPals (λ p out,
        match perLayerPalettes !! l3 with
        | None => inl TypeError
        | Some bank => inr (out +:+ paletteRow bank maxPals p)
        end) out
    with
    | inl e => inl e
    | inr out =>
        inr (out +:+ (if bool_decide (l3 ≠ layerCount - 1) then "  }," +:+ JS.nl
                      else "  }" +:+ JS.nl))
    end) out.

(** The palette ids.  Reading [perLayerPalIdMap[l4][fi2][t]] throws when the
    layer or the frame is missing; a missing id is [undefined], and
    [undefined & 0xFF] is 0. *)
Definition tilePalDecl (names : Names) (sz : Sizes) (layerCount : nat) : string :=
  "static const uint8_t " +:+ lowerName names +:+ "_tile_pal[" +:+ num layerCount +:+ "][" +:+
    num (frameCount sz) +:+ "][" +:+ num (tilesPerFrame sz) +:+ "] = {" +:+ JS.nl.

Definition tilePalRows (perLayerPalIdMap : list (list (list Z))) (sz : Sizes) (layerCount : nat)
    (out : string) : Failure + string :=
  JS.for_upto layerCount (λ l4 out,
    let out := out +:+ "  {" +:+ JS.nl in
    match
      JS.for_upto (frameCount sz) (λ fi2 out,
        let out := out +:+ "    { " in
        match
          JS.for_upto (tilesPerFrame sz) (λ t out,
            match perLayerPalIdMap !! l4 with
            | None => inl TypeError
            | Some palIdMap =>
                match palIdMap !! fi2 with
                | None => inl TypeError
                | Some ids =>
                    let out := out +:+ JS.dec (JS.and_mask (ids !! t) 255) in
                    inr (out +:+ (if bool_decide (t ≠ tilesPerFrame sz - 1) then ", " else " "))
                end
            end) out
        with
        | inl e => inl e
        | inr out =>
            let out := out +:+ "}" in
            inr (out +:+ (if bool_decide (fi2 ≠ frameCount sz - 1) then "," +:+ JS.nl else JS.nl))
        end) out
    with
    | inl e => inl e
    | inr out =>
        inr (out +:+ (if bool_decide (l4 ≠ layerCount - 1) then "  }," +:+ JS.nl
                      else "  }" +:+ JS.nl))
    end) out.

(** The tile records.  Reading [tb = perLayerTiles[l5][fi3][t2]] throws when
    the layer or the frame is missing, and [tb[b]] throws when the record
    is; a missing byte is [undefined], printed as [0x00]. *)
Definition tilesDecl (names : Names) (sz : Sizes) (layerCount : nat) : string :=
  "static const uint8_t " +:+ lowerName names +:+ "_tiles[" +:+ num layerCount +:+ "][" +:+
    num (frameCount sz) +:+ "][" +:+ num (tilesPerFrame sz) +:+ "][" +:+ num bytesPerTile +:+
    "] = {" +:+ JS.nl.

Definition tilesRows (perLayerTiles : list (list (list (list Z)))) (sz : Sizes)
    (layerCount : nat) (out : string) : Failure + string :=
  JS.for_upto layerCount (λ l5 out,
    let out := out +:+ "  {" +:+ JS.nl in
    match
      JS.for_upto (frameCount sz) (λ fi3 out,
        let out := out +:+ "    {" +:+ JS.nl in
        match
          JS.for_upto (tilesPerFrame sz) (λ t2 out,
            match perLayerTiles !! l5 with
            | None => inl TypeError
            | Some layerTiles =>
                match layerTiles !! fi3 with
                | None => inl TypeError
                | Some frameTiles =>
                    let out := out +:+ "      { " in
                    match
                      JS.for_upto bytesPerTile (λ b out,
                        match frameTiles !! t2 with
                        | None => inl TypeError
                        | Some tb =>
                            let out := out +:+ hex8_ (tb !! b) in
                            inr (out +:+ (if bool_decide (b ≠ bytesPerTile - 1) then ", "
                                          else " "))
                        end) out
                    with
                    | inl e => inl e
                    | inr out =>
                        let out := out +:+ "}" in
                        inr (out +:+ (if bool_decide (t2 ≠ tilesPerFrame sz - 1)
                                      then "," +:+ JS.nl else JS.nl))
                    end
                end
            end) out
        with
        | inl e => inl e
        | inr out =>
            inr (out +:+ (if bool_decide (fi3 ≠ frameCount sz - 1) then "    }," +:+ JS.nl
                          else "    }" +:+ JS.nl))
        end) out
    with
    | inl e => inl e
    | inr out =>
        inr (out +:+ (if bool_decide (l5 ≠ layerCount - 1) then "  }," +:+ JS.nl
                      else "  }" +:+ JS.nl))
    end) out.

(** The tile positions, in pixels. *)
Definition tilePosDecl (names : Names) (sz : Sizes) : string :=
  "static const int8_t " +:+ lowerName names +:+ "_tile_pos[" +:+ num (tilesPerFrame sz) +:+
    "][2] = {" +:+ JS.nl.

Definition tilePosRows (sz : Sizes) (out : string) : string :=
  foldl (λ out ty2,
           foldl (λ out tx2,
                    let id := ty2 * tilesX sz + tx2 in
                    let out := out +:+ "  { " +:+ num (tx2 * 8) +:+ ", " +:+ num (ty2 * 8) +:+ " }" in
                    out +:+ (if bool_decide (id ≠ tilesPerFrame sz - 1) then "," +:+ JS.nl
                             else JS.nl))
                 out (seq 0 (tilesX sz)))
        out (seq 0 (tilesY sz)).

(** The text [out] that [onDownloadCFileClick_] prints from the tables. *)
Definition out (names : Names) (sz : Sizes) (T : Tables) : Failure + string :=
  let out := outHead names sz (layerCount T) in
  let out := out +:+ palCountDecl names (layerCount T) in
  match palCountRows (perLayerPalettes T) (layerCount T) out with
  | inl e => inl e
  | inr out =>
  let out := out +:+ "};" +:+ JS.nl +:+ JS.nl in
  let out := out +:+ palettesDecl names sz (layerCount T) in
  match palettesRows (perLayerPalettes T) (MAX_PALS_PER_LAYER sz) (layerCount T) out with
  | inl e => inl e
  | inr out =>
  let out := out +:+ "};" +:+ JS.nl +:+ JS.nl in
  let out := out +:+ tilePalDecl names sz (layerCount T) in
  match tilePalRows (perLayerPalIdMap T) sz (layerCount T) out with
  | inl e => inl e
  | inr out =>
  let out := out +:+ "};" +:+ JS.nl +:+ JS.nl in
  let out := out +:+ tilesDecl names sz (layerCount T) in
  match tilesRows (perLayerTiles T) sz (layerCount T) out with
  | inl e => inl e
  | inr out =>
  let out := out +:+ "};" +:+ JS.nl +:+ JS.nl in
  let out := out +:+ tilePosDecl names sz in
  let out := tilePosRows sz out in
  inr (out +:+ "};" +:+ JS.nl)
  end end end end.

(** The sizes [onDownloadCFileClick_] prints for the image of [pc]. *)
Definition sizesOf (pc : PiskelController) (MAX_LAYERS MAX_PALS_PER_LAYER : nat) : Sizes :=
  {| MAX_LAYERS := MAX_LAYERS;
     MAX_PALS_PER_LAYER := MAX_PALS_PER_LAYER;
     width := getWidth pc;
     height := getHeight pc;
     frameCount := getFrameCount pc;
     tilesX := getWidth pc / 8;
     tilesY := getHeight pc / 8 |}.

(** The whole of [onDownloadCFileClick_]: the name and the text of the file
    handed to the download. *)
Definition downloadAsFile (names : Names) (pc : PiskelController)
    (MAX_LAYERS MAX_PALS_PER_LAYER : nat) : Failure + (string * string) :=
  match onDownloadCFileClick_ pc MAX_LAYERS MAX_PALS_PER_LAYER with
  | inl e => inl e
  | inr T =>
      match out names (sizesOf pc MAX_LAYERS MAX_PALS_PER_LAYER) T with
      | inl e => inl e
      | inr text => inr (fileName names, text)
      end
  end.

(** ** Vocabulary of the specification *)

(** A colour is the tuple (R, G, B, A) of a pixel. *)
Record Color := RGBA { red : N; green : N; blue : N; alpha : N }.

Definition byteColor (c : Color) : Prop :=
  (red c < 256 ∧ green c < 256 ∧ blue c < 256 ∧ alpha c < 256)%N.

(** The key under which the exporter files a colour. *)
Definition colorKey (c : Color) : string :=
  rgbaKey_ (Some (red c)) (Some (green c)) (Some (blue c)) (Some (alpha c)).

(** The RGB444 packing of the specification:
    [(b>>4 & 0xF) << 8 | (g>>4 & 0xF) << 4 | (r>>4 & 0xF)]. *)
Definition nibble (v : N) : Z := Z.land (Z.shiftr (Z.of_N v) 4) 15.

Definition quantize (c : Color) : Z :=
  Z.lor (Z.lor (Z.shiftl (nibble (blue c)) 8) (Z.shiftl (nibble (green c)) 4))
        (nibble (red c)).

(** The image data of a frame of [width] x [height] pixels: four bytes per
    pixel. *)
Definition wfFrame (width height : nat) (pix : list N) : Prop :=
  length pix = width * height * 4 ∧ Forall (λ v, (v < 256)%N) pix.

(** The pixel at column [px] and row [py]. *)
Definition pixelAt (pix : list N) (width px py : nat) : Color :=
  let i := (py * width + px) * 4 in
  RGBA (pix !!! i) (pix !!! (i + 1)) (pix !!! (i + 2)) (pix !!! (i + 3)).

(** The 64 pixels of tile [(tx, ty)], row by row. *)
Definition tilePixels (pix : list N) (width tx ty : nat) : list Color :=
  y ← seq 0 8; x ← seq 0 8; [pixelAt pix width (tx * 8 + x) (ty * 8 + y)].

Definition opaque (c : Color) : Prop := alpha c ≠ 0%N.

#[global] Instance Color_eq_dec : EqDecision Color.
Proof. solve_decision. Defined.

#[global] Instance opaque_dec (c : Color) : Decision (opaque c).
Proof. unfold opaque. apply _. Defined.

(** The distinct opaque colours of a tile, and their number. *)
Definition opaqueColors (pix : list N) (width tx ty : nat) : list Color :=
  remove_dups (filter opaque (tilePixels pix width tx ty)).

Definition colorCount (pix : list N) (width tx ty : nat) : nat :=
  length (opaqueColors pix width tx ty).

(** The key the pixel loops file for the pixel at offset [p = (y, x)] of a
    tile, when they file one. *)
Definition opaqueKeyAt (pix : list N) (width tx ty : nat) (p : nat * nat) (k : string) : Prop :=
  let ix := ((ty * 8 + p.1) * width + (tx * 8 + p.2)) * 4 in
  pix !! (ix + 3) ≠ Some 0%N ∧
  k = rgbaKey_ (pix !! ix) (pix !! (ix + 1)) (pix !! (ix + 2)) (pix !! (ix + 3)).

(** The state of the pixel loops once the pixels [visited] are done. *)
Definition collected (pix : list N) (width tx ty : nat) (visited : list (nat * nat))
    (st : gmap string bool * list string) : Prop :=
  NoDup st.2 ∧
  (∀ k, default false (st.1 !! k) = true ↔ k ∈ st.2) ∧
  (∀ k, k ∈ st.2 ↔ ∃ p, p ∈ visited ∧ opaqueKeyAt pix width tx ty p k).

(** [list[3c : 3c+3]]. *)
Definition slice3 (keys : list string) (c : nat) : list string := take 3 (drop (c * 3) keys).

(** [chunks] for tile [(tx, ty)] of frame [fi]. *)
Definition tileChunks (pc : PiskelController) (width fi ty tx : nat) : nat :=
  JS.ceil_div3 (length (tileColorList (frameData pc fi) width tx ty)).

(** The array [groups] has [L] layers of [F] frames of [T] tiles. *)
Definition shaped (L F T : nat) (groups : list (list (list (list string)))) : Prop :=
  length groups = L ∧
  Forall (λ frames, length frames = F ∧ Forall (λ tiles : list (list string), length tiles = T) frames)
         groups.

(** Tile [(tx', ty')] of frame [fi'] comes before tile [(tx, ty)] of frame
    [fi] in the order of the loops. *)
Definition tileBefore (tilesX tilesY fi ty tx fi' ty' tx' : nat) : Prop :=
  ty' < tilesY ∧ tx' < tilesX ∧
  (fi' < fi ∨ fi' = fi ∧ (ty' < ty ∨ ty' = ty ∧ tx' < tx)).

(** The state of the planning loops on reaching tile [(tx, ty)] of frame
    [fi]. *)
Definition planned (pc : PiskelController) (width tilesX tilesY maxLayers frameCount : nat)
    (fi ty tx : nat) (st : list (list (list (list string))) * nat) : Prop :=
  shaped maxLayers frameCount (tilesX * tilesY) st.1 ∧
  1 ≤ st.2 ∧
  (st.2 = 1 ∨ ∃ fi' ty' tx', tileBefore tilesX tilesY fi ty tx fi' ty' tx' ∧
                             st.2 = tileChunks pc width fi' ty' tx') ∧
  (∀ fi' ty' tx', tileBefore tilesX tilesY fi ty tx fi' ty' tx' →
     tileChunks pc width fi' ty' tx' ≤ maxLayers ∧
     tileChunks pc width fi' ty' tx' ≤ st.2 ∧
     ∀ l, l < maxLayers →
       getGroup st.1 l fi' (ty' * tilesX + tx')
       = Some (slice3 (tileColorList (frameData pc fi') width tx' ty') l)).

(** The planning loops leave with the text [e]: at a tile they reached. *)
Definition planLeaves (pc : PiskelController) (width tilesX tilesY maxLayers frameCount : nat)
    (e : string) : Prop :=
  ∃ fi ty tx st, fi < frameCount ∧ ty < tilesY ∧ tx < tilesX ∧
    planned pc width tilesX tilesY maxLayers frameCount fi ty tx st ∧
    planTile (frameData pc fi) width tilesX maxLayers fi ty tx st = inl e.

(** The arguments [buildLayeredPlan_] is called with: the image is cut into
    [tilesX] by [tilesY] tiles and every frame has its image data. *)
Definition planArgs (pc : PiskelController) (width height frameCount tilesX tilesY : nat) : Prop :=
  width = tilesX * 8 ∧ height = tilesY * 8 ∧
  ∀ fi, fi < frameCount → wfFrame width height (frameData pc fi).

(** The frames of [pc] have the image data of their size. *)
Definition wfPiskel (pc : PiskelController) : Prop :=
  ∀ fi, fi < getFrameCount pc → wfFrame (getWidth pc) (getHeight pc) (frameData pc fi).

(** All the tiles of all the frames, and the largest [ceil(n/3)] over them,
    [n] being the number of distinct opaque colours of the tile. *)
Definition allTiles (frameCount tilesY tilesX : nat) : list (nat * nat * nat) :=
  fi ← seq 0 frameCount; ty ← seq 0 tilesY; tx ← seq 0 tilesX; [(fi, ty, tx)].

Definition maxLayersNeeded (pc : PiskelController) (width frameCount tilesX tilesY : nat) : nat :=
  max_list ((λ t : nat * nat * nat,
               JS.ceil_div3 (colorCount (frameData pc t.1.1) width t.2 t.1.2))
            <$> allTiles frameCount tilesY tilesX).

(** An image the exporter accepts: both sides are multiples of 8 and every
    frame has its image data. *)
Definition validImage (pc : PiskelController) : Prop :=
  getWidth pc mod 8 = 0 ∧ getHeight pc mod 8 = 0 ∧ wfPiskel pc.

(** The call of pass 1 in [onDownloadCFileClick_]. *)
Definition planOf (pc : PiskelController) (MAX_LAYERS : nat) : Plan :=
  buildLayeredPlan_ pc (getWidth pc) (getHeight pc) (getFrameCount pc)
                    (getWidth pc / 8) (getHeight pc / 8) MAX_LAYERS.

(** The groups of tile [t] of frame [fi], layer by layer. *)
Definition tileGroups (groups : list (list (list (list string)))) (n fi t : nat)
    : list (list string) :=
  (λ l, default [] (getGroup groups l fi t)) <$> seq 0 n.

(** Sample images of one 8x8 frame: its first pixels are given, the rest is
    transparent. *)
Definition frameOf (pixels : list (list N)) : list N :=
  take 256 (concat pixels ++ replicate 256 0%N).

Definition imageOf (pixels : list (list N)) : PiskelController :=
  {| getWidth := 8; getHeight := 8; getFrameCount := 1; frameData := λ _, frameOf pixels |}.

Definition blankImage : PiskelController := imageOf [].

(** Ten colours in one tile. *)
Definition tenColorImage : PiskelController :=
  imageOf ((λ i, [N.of_nat i; 0; 16; 255]%N) <$> seq 0 10).

(** What the exporter makes of the blank image and of the ten colours (with
    four layers allowed). *)
Definition blankTables : Tables :=
  {| layerCount := 1;
     perLayerPalettes := [[[0; 0; 0; 0]]]%Z;
     perLayerPalIdMap := [[[0]]]%Z;
     perLayerTiles := [[[replicate 16 0%Z]]] |}.

Definition tenColorGroups : list (list (list (list string))) :=
  Eval vm_compute in
    match planOf tenColorImage 4 with
    | PlanOk _ groups => groups
    | PlanFailed _ => []
    end.

(** The documented layout of a tile record: the byte that holds the pixel at
    column [x] of row [y], the position of its two bits in that byte, and
    the index read back from there. *)
Definition byteOf (x y : nat) : nat := y * 2 + (if bool_decide (4 ≤ x) then 0 else 1).

Definition shiftOf (x : nat) : Z := Z.of_nat (2 * ((if bool_decide (4 ≤ x) then 7 else 3) - x)).

Definition tilePixelIndex (tile : list Z) (x y : nat) : Z :=
  Z.land (Z.shiftr (tile !!! byteOf x y) (shiftOf x)) 3.

(** The index the encoder gives the pixel at column [x0 + x] of row
    [y0 + y] for the group [groupKeys]. *)
Definition layerIndex (pix : list N) (imgW x0 y0 : nat) (groupKeys : list string) (x y : nat) : Z :=
  pixelIndex (buildMap groupKeys 0 ∅) pix (((y0 + y) * imgW + (x0 + x)) * 4).

(** The palette entry [buildTilePaletteRgb444_] computes from a key. *)
Definition keyRgb444 (key : string) : Z :=
  let parts := JS.split_comma key in
  rgbToRgb444_ (JS.parseIntAt parts 0) (JS.parseIntAt parts 1) (JS.parseIntAt parts 2).

(** Three nibbles packed as 0x0BGR. *)
Definition packNibbles (b4 g4 r4 : Z) : Z := Z.lor (Z.lor (Z.shiftl b4 8) (Z.shiftl g4 4)) r4.

(** ** Invariants of pass 2 *)

(** A bank within its capacity, made of 4-slot palettes. *)
Definition bankOk (maxPals : nat) (bank : list (list Z)) : Prop :=
  length bank ≤ maxPals ∧ Forall (λ p : list Z, length p = 4) bank.

(** Tile [(tx, ty)] of frame [fi] has been encoded for layer [l]: its
    palette id points to the palette of its group in the bank and its 16
    bytes are in the row of tiles. *)
Definition cellOk (pc : PiskelController) (groups : list (list (list (list string))))
    (width tilesX l fi : nat) (bank : list (list Z)) (ids : list Z) (tiles : list (list Z))
    (ty tx : nat) : Prop :=
  ∃ group id,
    getGroup groups l fi (ty * tilesX + tx) = Some group ∧
    ids !! (ty * tilesX + tx) = Some (Z.of_nat id) ∧
    bank !! id = Some (buildTilePaletteRgb444_ group) ∧
    tiles !! (ty * tilesX + tx)
    = Some (encodeNgpcTile2bppLayered_ (frameData pc fi) width (tx * 8) (ty * 8) group).

(** The state of the tile loops of frame [fi] on reaching tile [(tx, ty)],
    [bank0] being the bank at the start of the frame. *)
Definition tileInv (pc : PiskelController) (groups : list (list (list (list string))))
    (maxPals width tilesX l fi : nat) (bank0 : list (list Z)) (ty tx : nat)
    (st : list (list Z) * list Z * list (list Z)) : Prop :=
  bankOk maxPals st.1.1 ∧ bank0 `prefix_of` st.1.1 ∧
  length st.1.2 = ty * tilesX + tx ∧ length st.2 = ty * tilesX + tx ∧
  ∀ ty' tx', tx' < tilesX → ty' * tilesX + tx' < ty * tilesX + tx →
    cellOk pc groups width tilesX l fi st.1.1 st.1.2 st.2 ty' tx'.

(** The state of the frame loop of layer [l] on reaching frame [fi]. *)
Definition frameInv (pc : PiskelController) (groups : list (list (list (list string))))
    (maxPals width tilesX tilesY l fi : nat)
    (st : list (list Z) * list (list Z) * list (list (list Z))) : Prop :=
  bankOk maxPals st.1.1 ∧ length st.1.2 = fi ∧ length st.2 = fi ∧
  ∀ fi' ty tx, fi' < fi → ty < tilesY → tx < tilesX →
    ∃ ids frameTiles,
      st.1.2 !! fi' = Some ids ∧ st.2 !! fi' = Some frameTiles ∧
      cellOk pc groups width tilesX l fi' st.1.1 ids frameTiles ty tx.

(** The state of the layer loop on reaching layer [l]. *)
Definition layerInv (pc : PiskelController) (groups : list (list (list (list string))))
    (maxPals width frameCount tilesX tilesY l : nat)
    (st : list (list (list Z)) * list (list (list Z)) * list (list (list (list Z)))) : Prop :=
  length st.1.1 = l ∧ length st.1.2 = l ∧ length st.2 = l ∧
  ∀ l' fi ty tx, l' < l → fi < frameCount → ty < tilesY → tx < tilesX →
    ∃ bank palIdMap layerTiles ids frameTiles,
      st.1.1 !! l' = Some bank ∧ bankOk maxPals bank ∧
      st.1.2 !! l' = Some palIdMap ∧ st.2 !! l' = Some layerTiles ∧
      palIdMap !! fi = Some ids ∧ layerTiles !! fi = Some frameTiles ∧
      cellOk pc groups width tilesX l' fi bank ids frameTiles ty tx.

(** The lookup of tile [(tx, ty)] of frame [fi] in layer [l] found the bank
    full and its palette missing. *)
Definition paletteOverflowAt (groups : list (list (list (list string))))
    (maxPals tilesX l fi ty tx : nat) (e : Failure) : Prop :=
  ∃ bank group,
    getGroup groups l fi (ty * tilesX + tx) = Some group ∧
    length bank = maxPals ∧
    findPalette bank (buildTilePaletteRgb444_ group) 0 = None ∧
    findOrAddPalette_ bank (buildTilePaletteRgb444_ group) maxPals = (bank, (-1)%Z) ∧
    e = Alert (paletteOverflowText l maxPals).

(** How pass 2 can leave: at some tile, the group is missing or the bank of
    the layer overflows. *)
Definition pass2Leaves (groups : list (list (list (list string))))
    (maxPals frameCount tilesX tilesY n : nat) (e : Failure) : Prop :=
  ∃ l fi ty tx, l < n ∧ fi < frameCount ∧ ty < tilesY ∧ tx < tilesX ∧
    (getGroup groups l fi (ty * tilesX + tx) = None ∧ e = TypeError ∨
     paletteOverflowAt groups maxPals tilesX l fi ty tx e).

(** ** Reading the tables *)

(** [tile_pal[l][fi][t]], [tiles[l][fi][t]] and [pal_rgb444[l][id]] of the
    output (a slot that does not exist reads as 0 or as an empty row). *)
Definition paletteIdAt (T : Tables) (l fi t : nat) : Z :=
  ((perLayerPalIdMap T !!! l) !!! fi) !!! t.

Definition tileAt (T : Tables) (l fi t : nat) : list Z :=
  ((perLayerTiles T !!! l) !!! fi) !!! t.

Definition paletteAt (T : Tables) (l : nat) (id : Z) : list Z :=
  (perLayerPalettes T !!! l) !!! Z.to_nat id.

(** Drawing layer [l] over what the layers below left at pixel [(px, py)] of
    frame [fi]: index 0 is transparent, another index shows its palette
    entry. *)
Definition drawLayer (T : Tables) (tilesX fi px py : nat) (below : option Z) (l : nat)
    : option Z :=
  let t := py / 8 * tilesX + px / 8 in
  let i := tilePixelIndex (tileAt T l fi t) (px mod 8) (py mod 8) in
  if (i =? 0)%Z then below
  else Some (paletteAt T l (paletteIdAt T l fi t) !!! Z.to_nat i).

(** Compositing the layers, layer 0 first; [None] is transparent. *)
Definition composite (T : Tables) (tilesX fi px py : nat) : option Z :=
  foldl (drawLayer T tilesX fi px py) None (seq 0 (layerCount T)).

(** The key of the pixel whose bytes start at [idx], none for a transparent
    pixel. *)
Definition keyAt (pix : list N) (idx : nat) : option string :=
  if bool_decide (pix !! (idx + 3) = Some 0%N) then None
  else Some (rgbaKey_ (pix !! idx) (pix !! (idx + 1)) (pix !! (idx + 2)) (pix !! (idx + 3))).

(** The layout in which the bit position of a pixel in its byte would grow
    with its column: some assignment [pos] of bit positions to the columns,
    increasing within each block of four columns, at which every tile record
    holds the indices of its pixels. *)
Definition increasingColumnLayout : Prop :=
  ∃ pos : nat → Z,
    (∀ x, x < 8 → (0 ≤ pos x < 8)%Z) ∧
    (∀ x1 x2, x1 < x2 → x2 < 8 → x1 / 4 = x2 / 4 → (pos x1 < pos x2)%Z) ∧
    ∀ pix imgW x0 y0 groupKeys x y, x < 8 → y < 8 →
      Z.land (Z.shiftr (encodeNgpcTile2bppLayered_ pix imgW x0 y0 groupKeys !!! byteOf x y)
                       (pos x)) 3
      = layerIndex pix imgW x0 y0 groupKeys x y.

(** One opaque pixel in the top right corner of the tile. *)
Definition cornerImage : PiskelController :=
  imageOf (replicate 7 [0; 0; 0; 0]%N ++ [[255; 0; 16; 255]%N]).

(** The top row of the bit-packing scenario: colour A in columns 4 to 7,
    then one pixel of B and one of C in the second row. *)
Definition stripeImage : PiskelController :=
  imageOf (replicate 4 [0; 0; 0; 0]%N ++ replicate 4 [255; 0; 16; 255]%N
           ++ [[1; 2; 3; 255]%N; [4; 5; 6; 255]%N]).

Definition tenColorTables : Tables :=
  Eval vm_compute in
    match onDownloadCFileClick_ tenColorImage 4 16 with
    | inr T => T
    | inl _ => blankTables
    end.

(** Two tiles of different colours, side by side. *)
Definition twoTileImage : PiskelController :=
  {| getWidth := 16; getHeight := 8; getFrameCount := 1;
     frameData := λ _, take 512 ([255; 0; 0; 255]%N ++ replicate 28 0%N
                                 ++ [0; 255; 0; 255]%N ++ replicate 512 0%N) |}.

(** Three colours with the same top nibbles in one tile. *)
Definition twinImage : PiskelController :=
  imageOf [[16; 0; 0; 255]%N; [17; 0; 0; 255]%N; [16; 0; 0; 254]%N].

Definition twinTables : Tables :=
  Eval vm_compute in
    match onDownloadCFileClick_ twinImage 3 16 with
    | inr T => T
    | inl _ => blankTables
    end.

(** Four colours in one tile; the first and the last have the same top
    nibbles and fall into different layers. *)
Definition splitTwinImage : PiskelController :=
  imageOf [[16; 0; 0; 255]%N; [16; 100; 0; 255]%N; [16; 200; 0; 255]%N; [17; 0; 0; 255]%N].

Definition splitTwinTables : Tables :=
  Eval vm_compute in
    match onDownloadCFileClick_ splitTwinImage 3 16 with
    | inr T => T
    | inl _ => blankTables
    end.

(** The order of the colour keys: lexicographic on (R, G, B, A), as
    numbers. *)
Definition colorLe (c1 c2 : Color) : Prop :=
  (red c1 < red c2 ∨ red c1 = red c2 ∧
   (green c1 < green c2 ∨ green c1 = green c2 ∧
    (blue c1 < blue c2 ∨ blue c1 = blue c2 ∧ alpha c1 ≤ alpha c2)))%N.

Definition keyLe (k1 k2 : string) : Prop :=
  ∃ c1 c2, byteColor c1 ∧ byteColor c2 ∧ k1 = colorKey c1 ∧ k2 = colorKey c2 ∧ colorLe c1 c2.

(** Proof-side helpers on strings. *)
Fixpoint no_comma (s : string) : bool :=
  match s with
  | EmptyString => true
  | String c s' => negb (Ascii.eqb c ","%char) && no_comma s'
  end.

Definition byte_prints_well (n : N) : bool :=
  no_comma (JS.dec n) && bool_decide (JS.parseInt (JS.dec n) = Some (Z.of_N n)).

(** Sample images are valid. *)
Ltac solve_validImage :=
  split_and!;
  [ reflexivity | reflexivity
  | intros ? _; split;
    [ reflexivity | apply (bool_decide_unpack _); vm_compute; exact I ] ].

(** ** Vocabulary of the further properties *)

(** Where [JS.parseInt] is exact: on ASCII text (the white space it skips
    is the ASCII one), and for an integer that a JavaScript number holds
    exactly, or [NaN]. *)
Fixpoint asciiText (s : string) : bool :=
  match s with
  | EmptyString => true
  | String c s' => (N_of_ascii c <? 128)%N && asciiText s'
  end.

Definition exactInt (v : JS.num) : bool :=
  match v with
  | Some z => (Z.abs z <=? 2 ^ 53)%Z
  | None => true
  end.

(** A key of ASCII text whose three first parts parse to such numbers. *)
Definition plainKey (key : string) : bool :=
  asciiText key &&
  forallb (λ i, exactInt (JS.parseIntAt (JS.split_comma key) i)) [0; 1; 2].

(** The hexadecimal digit of a value below 16, in lower case. *)
Definition hexDigit (d : N) : string := substring (N.to_nat d) 1 "0123456789abcdef".

(** ** Reading the numbers of a text

    The numbers written in a text, in order: a run of decimal digits, or
    [0x] followed by hexadecimal digits. *)
Inductive Lex :=
  | Idle
  | Dec (n : N)
  | Hex (n : N).

#[global] Instance Lex_eq_dec : EqDecision Lex.
Proof. solve_decision. Defined.

Definition hex_digit_of (c : ascii) : option N :=
  let n := N_of_ascii c in
  if ((48 <=? n) && (n <=? 57))%N then Some (n - 48)%N
  else if ((97 <=? n) && (n <=? 102))%N then Some (n - 87)%N
  else if ((65 <=? n) && (n <=? 70))%N then Some (n - 55)%N
  else None.

(** One character: [st] is the numbers read so far and the number being
    read. *)
Definition lexChar (st : list N * Lex) (c : ascii) : list N * Lex :=
  match st.2 with
  | Idle =>
      match JS.digit_of c with
      | Some d => (st.1, Dec d)
      | None => (st.1, Idle)
      end
  | Dec n =>
      match JS.digit_of c with
      | Some d => (st.1, Dec (10 * n + d))
      | None =>
          if Ascii.eqb c "x"%char && (n =? 0)%N then (st.1, Hex 0)
          else (st.1 ++ [n], Idle)
      end
  | Hex n =>
      match hex_digit_of c with
      | Some d => (st.1, Hex (16 * n + d))
      | None => (st.1 ++ [n], Idle)
      end
  end.

Fixpoint lex (s : string) (st : list N * Lex) : list N * Lex :=
  match s with
  | EmptyString => st
  | String c s' => lex s' (lexChar st c)
  end.

Definition numbers (s : string) : list N :=
  let st := lex s ([], Idle) in
  match st.2 with
  | Idle => st.1
  | Dec n | Hex n => st.1 ++ [n]
  end.

(** The first non-zero difference of the components of two colours, 0 when
    there is none. *)
Definition firstDiff (c1 c2 : Color) : Z :=
  let d (f : Color → N) := (Z.of_N (f c1) - Z.of_N (f c2))%Z in
  if negb (d red =? 0)%Z then d red
  else if negb (d green =? 0)%Z then d green
  else if negb (d blue =? 0)%Z then d blue
  else d alpha.

(** A page with its three controls. *)
Definition fullPage (page : Page) : Prop :=
  is_Some (profileValue page) ∧ is_Some (maxLayersValue page) ∧ is_Some (maxPalsValue page).

(** A tile of four colours beside a tile of one colour. *)
Definition unevenImage : PiskelController :=
  {| getWidth := 16; getHeight := 8; getFrameCount := 1;
     frameData := λ _, take 512 ([10; 0; 0; 255; 20; 0; 0; 255; 30; 0; 0; 255; 40; 0; 0; 255]%N
                                 ++ replicate 16 0%N ++ [50; 0; 0; 255]%N
                                 ++ replicate 512 0%N) |}.

Definition unevenTables : Tables :=
  Eval vm_compute in
    match onDownloadCFileClick_ unevenImage 3 16 with
    | inr T => T
    | inl _ => blankTables
    end.

(** ** The banks of pass 2 *)

(** The palette of tile [t] of frame [fi] in layer [l] of a plan. *)
Definition groupPalette (groups : list (list (list (list string)))) (l fi t : nat) : list Z :=
  buildTilePaletteRgb444_ (default [] (getGroup groups l fi t)).

(** The palettes of the tiles of layer [l], in the order of the loops, and
    the number of distinct ones. *)
Definition layerPalettes (groups : list (list (list (list string))))
    (frameCount tilesX tilesY l : nat) : list (list Z) :=
  (λ t : nat * nat * nat, groupPalette groups l t.1.1 (t.1.2 * tilesX + t.2))
    <$> allTiles frameCount tilesY tilesX.

Definition paletteCount (groups : list (list (list (list string))))
    (frameCount tilesX tilesY l : nat) : nat :=
  length (remove_dups (layerPalettes groups frameCount tilesX tilesY l)).

(** A tile record: 16 bytes. *)
Definition byteRecord (tb : list Z) : Prop :=
  length tb = 16 ∧ Forall (λ b, (0 ≤ b < 256)%Z) tb.

(** Palette ids that are indices into [bank]. *)
Definition idsOk (bank : list (list Z)) (ids : list Z) : Prop :=
  Forall (λ id, (0 ≤ id < Z.of_nat (length bank))%Z) ids.

(** The bank of layer [l] on reaching tile [(tx, ty)] of frame [fi]: the
    palettes of the tiles before it, each once. *)
Definition interned (groups : list (list (list (list string))))
    (maxPals tilesX tilesY l fi ty tx : nat) (bank : list (list Z)) : Prop :=
  NoDup bank ∧ length bank ≤ maxPals ∧
  ∀ p, p ∈ bank ↔
       ∃ fi' ty' tx', tileBefore tilesX tilesY fi ty tx fi' ty' tx' ∧
                      p = groupPalette groups l fi' (ty' * tilesX + tx').

(** The state of the tile loops of pass 2 on reaching tile [(tx, ty)] of
    frame [fi]. *)
Definition tilesDone (groups : list (list (list (list string))))
    (maxPals tilesX tilesY l fi ty tx : nat)
    (st : list (list Z) * list Z * list (list Z)) : Prop :=
  interned groups maxPals tilesX tilesY l fi ty tx st.1.1 ∧
  length st.1.2 = ty * tilesX + tx ∧ idsOk st.1.1 st.1.2 ∧
  length st.2 = ty * tilesX + tx ∧ Forall byteRecord st.2.

(** The state of the frame loop of layer [l] on reaching frame [fi]. *)
Definition framesDone (groups : list (list (list (list string))))
    (maxPals tilesX tilesY l fi : nat)
    (st : list (list Z) * list (list Z) * list (list (list Z))) : Prop :=
  interned groups maxPals tilesX tilesY l fi 0 0 st.1.1 ∧
  length st.1.2 = fi ∧
  Forall (λ ids, length ids = tilesX * tilesY ∧ idsOk st.1.1 ids) st.1.2 ∧
  length st.2 = fi ∧
  Forall (λ frameTiles, length frameTiles = tilesX * tilesY ∧ Forall byteRecord frameTiles) st.2.

(** The state of the layer loop on reaching layer [n]. *)
Definition layersDone (groups : list (list (list (list string))))
    (maxPals frameCount tilesX tilesY n : nat)
    (st : list (list (list Z)) * list (list (list Z)) * list (list (list (list Z)))) : Prop :=
  length st.1.1 = n ∧ length st.1.2 = n ∧ length st.2 = n ∧
  ∀ l, l < n →
    ∃ bank palIdMap layerTiles,
      st.1.1 !! l = Some bank ∧ st.1.2 !! l = Some palIdMap ∧ st.2 !! l = Some layerTiles ∧
      framesDone groups maxPals tilesX tilesY l frameCount (bank, palIdMap, layerTiles).

(** Pass 2 leaves in layer [l]: at some tile the bank is full and holds
    none of the tile's palette. *)
Definition bankOverflows (groups : list (list (list (list string))))
    (maxPals frameCount tilesX tilesY l : nat) (e : Failure) : Prop :=
  e = Alert (paletteOverflowText l maxPals) ∧
  ∃ fi ty tx bank,
    fi < frameCount ∧ ty < tilesY ∧ tx < tilesX ∧
    interned groups maxPals tilesX tilesY l fi ty tx bank ∧
    length bank = maxPals ∧
    groupPalette groups l fi (ty * tilesX + tx) ∉ bank.

(** What the exporter makes of the two tiles side by side. *)
Definition twoTileGroups : list (list (list (list string))) :=
  Eval vm_compute in
    match planOf twoTileImage 3 with
    | PlanOk _ groups => groups
    | PlanFailed _ => []
    end.

Definition twoTileTables : Tables :=
  Eval vm_compute in
    match onDownloadCFileClick_ twoTileImage 3 16 with
    | inr T => T
    | inl _ => blankTables
    end.

(** The shape of the tables of an export: one bank, one map of palette ids
    and one table of tile records per layer; 4-slot palettes of 12-bit
    values; per frame, one palette id and one record of 16 bytes per tile;
    every palette id an index into the bank of its layer. *)
Definition shapedTables (maxPals frameCount tilesPerFrame : nat) (T : Tables) : Prop :=
  length (perLayerPalettes T) = layerCount T ∧
  length (perLayerPalIdMap T) = layerCount T ∧
  length (perLayerTiles T) = layerCount T ∧
  Forall (λ bank : list (list Z),
            length bank ≤ maxPals ∧
            Forall (λ p, length p = 4 ∧ Forall (λ v, (0 ≤ v < 4096)%Z) p) bank)
         (perLayerPalettes T) ∧
  Forall (λ palIdMap : list (list Z),
            length palIdMap = frameCount ∧
            Forall (λ ids, length ids = tilesPerFrame) palIdMap)
         (perLayerPalIdMap T) ∧
  Forall (λ layerTiles : list (list (list Z)),
            length layerTiles = frameCount ∧
            Forall (λ frameTiles, length frameTiles = tilesPerFrame ∧
                                  Forall byteRecord frameTiles) layerTiles)
         (perLayerTiles T) ∧
  ∀ l bank palIdMap,
    perLayerPalettes T !! l = Some bank → perLayerPalIdMap T !! l = Some palIdMap →
    Forall (idsOk bank) palIdMap.

(** Two tiles of the same two colours, in opposite order. *)
Definition mirrorImage : PiskelController :=
  {| getWidth := 16; getHeight := 8; getFrameCount := 1;
     frameData := λ _, take 512 ([200; 0; 0; 255; 9; 0; 0; 255]%N ++ replicate 24 0%N
                                 ++ [9; 0; 0; 255; 200; 0; 0; 255]%N
                                 ++ replicate 512 0%N) |}.

Definition mirrorGroups : list (list (list (list string))) :=
  Eval vm_compute in
    match planOf mirrorImage 3 with
    | PlanOk _ groups => groups
    | PlanFailed _ => []
    end.

(** ** What a piece of the text holds *)

(** The value of the decimal digits [d] read after [acc]. *)
Fixpoint uintValue (d : Decimal.uint) (acc : N) : N :=
  match d with
  | Decimal.Nil => acc
  | Decimal.D0 l => uintValue l (10 * acc)
  | Decimal.D1 l => uintValue l (10 * acc + 1)
  | Decimal.D2 l => uintValue l (10 * acc + 2)
  | Decimal.D3 l => uintValue l (10 * acc + 3)
  | Decimal.D4 l => uintValue l (10 * acc + 4)
  | Decimal.D5 l => uintValue l (10 * acc + 5)
  | Decimal.D6 l => uintValue l (10 * acc + 6)
  | Decimal.D7 l => uintValue l (10 * acc + 7)
  | Decimal.D8 l => uintValue l (10 * acc + 8)
  | Decimal.D9 l => uintValue l (10 * acc + 9)
  end.

(** The printer [f] appends a piece of text to [out] and does not throw;
    the numbers written in the piece are [data], and the piece ends after
    the last of them. *)
Definition prints (f : string → Failure + string) (data : list N) : Prop :=
  ∃ piece,
    (∀ out, f out = inr (out +:+ piece)) ∧
    ∀ ns, lex piece (ns, Idle) = (ns ++ data, Idle).

(** A bank as the palette table lists it: filled up to [maxPals] palettes
    with palettes of zeros. *)
Definition padBank (maxPals : nat) (bank : list (list Z)) : list (list Z) :=
  take maxPals bank ++ replicate (maxPals - length bank) [0; 0; 0; 0]%Z.

(** * Properties *)

(** ** Worked examples *)

Example rgbaKey_ex :
  rgbaKey_ (Some 255%N) (Some 0%N) (Some 16%N) (Some 255%N) = "255,0,16,255".
Proof. reflexivity. Qed.

Example rgb444_ex : rgbToRgb444_ (Some 255%Z) (Some 0%Z) (Some 16%Z) = 0x10F%Z.
Proof. reflexivity. Qed.

Example sort_ex :
  JS.sort rgbaKeySort_ ["10,0,0,255"; "9,0,0,255"; "9,0,0,1"]
  = ["9,0,0,1"; "9,0,0,255"; "10,0,0,255"].
Proof. reflexivity. Qed.

(** The limits read from the page are at least 1. *)
Lemma readLimits_range (page : Page) :
  (1 ≤ (readLimits page).1 ≤ 8)%Z ∧ (1 ≤ (readLimits page).2 ≤ 64)%Z.
Proof.
  unfold readLimits, readLimit. simpl.
  destruct (maxLayersValue page) as [v1|], (maxPalsValue page) as [v2|];
    repeat match goal with
           | |- context [JS.parseInt ?v] => destruct (JS.parseInt v)
           | |- context [(?a <? ?b)%Z] => destruct (Z.ltb_spec a b)
           | |- context [bool_decide ?P] => destruct (bool_decide P)
           end; lia.
Qed.

(** ** Decimal keys *)

Lemma bytes_print_well : forallb byte_prints_well (map N.of_nat (seq 0 256)) = true.
Proof. vm_compute. reflexivity. Qed.

Lemma byte_prints_well_lt (n : N) : (n < 256)%N → byte_prints_well n = true.
Proof.
  intros Hn. pose proof bytes_print_well as H.
  rewrite forallb_forall in H. apply H.
  apply in_map_iff. exists (N.to_nat n). split; [apply N2Nat.id|].
  apply in_seq. lia.
Qed.

Lemma dec_no_comma (n : N) : (n < 256)%N → no_comma (JS.dec n) = true.
Proof.
  intros Hn. apply byte_prints_well_lt in Hn.
  unfold byte_prints_well in Hn. apply andb_true_iff in Hn. tauto.
Qed.

Lemma parseInt_dec (n : N) : (n < 256)%N → JS.parseInt (JS.dec n) = Some (Z.of_N n).
Proof.
  intros Hn. apply byte_prints_well_lt in Hn.
  unfold byte_prints_well in Hn. apply andb_true_iff in Hn.
  destruct Hn as [_ Hn]. by apply bool_decide_eq_true in Hn.
Qed.

Lemma split_comma_no_comma (s : string) : no_comma s = true → JS.split_comma s = [s].
Proof.
  induction s as [|c s IH]; simpl; [done|].
  intros [Hc Hs]%andb_true_iff. apply negb_true_iff in Hc.
  rewrite Hc, (IH Hs). done.
Qed.

Lemma split_comma_app (s t : string) :
  no_comma s = true → JS.split_comma (s +:+ "," +:+ t) = s :: JS.split_comma t.
Proof.
  induction s as [|c s IH]; simpl; [done|].
  intros [Hc Hs]%andb_true_iff. apply negb_true_iff in Hc.
  rewrite Hc. simpl in IH. rewrite (IH Hs). done.
Qed.

Lemma colorKey_parts (c : Color) :
  byteColor c →
  JS.split_comma (colorKey c)
  = [JS.dec (red c); JS.dec (green c); JS.dec (blue c); JS.dec (alpha c)].
Proof.
  intros (Hr & Hg & Hb & Ha). unfold colorKey, rgbaKey_. simpl.
  rewrite !split_comma_app by by apply dec_no_comma.
  rewrite split_comma_no_comma by by apply dec_no_comma. done.
Qed.

Lemma colorKey_channels (c : Color) :
  byteColor c →
  let parts := JS.split_comma (colorKey c) in
  JS.parseIntAt parts 0 = Some (Z.of_N (red c)) ∧
  JS.parseIntAt parts 1 = Some (Z.of_N (green c)) ∧
  JS.parseIntAt parts 2 = Some (Z.of_N (blue c)) ∧
  JS.parseIntAt parts 3 = Some (Z.of_N (alpha c)).
Proof.
  intros Hc. simpl. rewrite colorKey_parts by done.
  destruct Hc as (Hr & Hg & Hb & Ha). unfold JS.parseIntAt. simpl.
  rewrite !parseInt_dec by done. done.
Qed.

Lemma colorKey_inj (c1 c2 : Color) :
  byteColor c1 → byteColor c2 → colorKey c1 = colorKey c2 → c1 = c2.
Proof.
  intros H1 H2 Heq.
  pose proof (colorKey_channels c1 H1) as (Hr1 & Hg1 & Hb1 & Ha1).
  pose proof (colorKey_channels c2 H2) as (Hr2 & Hg2 & Hb2 & Ha2).
  rewrite Heq in Hr1, Hg1, Hb1, Ha1.
  destruct c1, c2; simpl in *.
  f_equal; apply N2Z.inj; congruence.
Qed.

(** ** The colours of a tile *)

Lemma foldl_inner {S} (f : nat → nat → S → S) (y : nat) (xs : list nat) (s : S) :
  foldl (λ st x, f y x st) s xs = foldl (λ st p, f p.1 p.2 st) s (x ← xs; [(y, x)]).
Proof. revert s. induction xs as [|x xs IH]; intros s; simpl; [done|]. by rewrite IH. Qed.

Lemma foldl_nested {S} (f : nat → nat → S → S) (ys xs : list nat) (s : S) :
  foldl (λ st y, foldl (λ st x, f y x st) st xs) s ys
  = foldl (λ st p, f p.1 p.2 st) s (y ← ys; x ← xs; [(y, x)]).
Proof.
  revert s. induction ys as [|y ys IH]; intros s; simpl; [done|].
  rewrite foldl_app, IH. by rewrite foldl_inner.
Qed.

Lemma elem_of_offsets (p : nat * nat) (n m : nat) :
  p ∈ (y ← seq 0 n; x ← seq 0 m; [(y, x)]) ↔ p.1 < n ∧ p.2 < m.
Proof.
  destruct p as [y x]. simpl. rewrite list_elem_of_bind. split.
  - intros (y' & Hin & Hy). apply list_elem_of_bind in Hin as (x' & Hin & Hx).
    apply list_elem_of_singleton in Hin. inversion Hin; subst.
    apply elem_of_seq in Hy, Hx. lia.
  - intros [Hy Hx]. exists y. split; [|apply elem_of_seq; lia].
    apply list_elem_of_bind. exists x. split; [by apply list_elem_of_singleton|].
    apply elem_of_seq. lia.
Qed.

Lemma collectPixel_collected pix width tx ty visited y x st :
  collected pix width tx ty visited st →
  collected pix width tx ty (visited ++ [(y, x)]) (collectPixel pix width tx ty y x st).
Proof.
  intros (Hnd & Hset & Hlist). unfold collectPixel.
  set (ix := ((ty * 8 + y) * width + (tx * 8 + x)) * 4).
  set (key := rgbaKey_ _ _ _ _).
  assert (Hold : ∀ k, (∃ p, p ∈ visited ++ [(y, x)] ∧ opaqueKeyAt pix width tx ty p k)
                      ↔ k ∈ st.2 ∨ opaqueKeyAt pix width tx ty (y, x) k).
  { intros k. rewrite Hlist. split.
    - intros (p & [Hp|Hp]%elem_of_app & Hk); [left; eauto|].
      apply list_elem_of_singleton in Hp. subst p. by right.
    - intros [(p & Hp & Hk)|Hk].
      + exists p. split; [apply elem_of_app; by left|done].
      + exists (y, x). split; [apply elem_of_app; right; by apply list_elem_of_singleton|done]. }
  case_bool_decide as Ha.
  { split_and!; [done|done|]. intros k. rewrite Hold. split; [by left|].
    intros [?|[Hne _]]; [done|]. simpl in Hne. by destruct Hne. }
  destruct (default false (st.1 !! key)) eqn:Hseen; simpl.
  - split_and!; [done|done|]. intros k. rewrite Hold. split; [by left|].
    intros [?|[_ Hk]]; [done|]. simpl in Hk. subst k. by apply Hset.
  - assert (Hfresh : key ∉ st.2).
    { intros Hin. apply Hset in Hin. congruence. }
    unfold collected. simpl. split_and!.
    + apply NoDup_app. split_and!; [done| |apply NoDup_singleton].
      intros k Hk ->%list_elem_of_singleton. done.
    + intros k. rewrite elem_of_app, list_elem_of_singleton.
      destruct (decide (k = key)) as [->|Hne].
      * rewrite lookup_insert_eq. simpl. split; [by right|done].
      * rewrite lookup_insert_ne by done. rewrite Hset. split; [by left|].
        by intros [?|?].
    + intros k. rewrite Hold, elem_of_app, list_elem_of_singleton.
      split.
      * intros [?| ->]; [by left|]. right. split; [exact Ha|done].
      * intros [?|[_ Hk]]; [by left|]. by right.
Qed.

Lemma collectTile_collected pix width tx ty :
  collected pix width tx ty (y ← seq 0 8; x ← seq 0 8; [(y, x)]) (collectTile pix width tx ty).
Proof.
  unfold collectTile.
  rewrite (foldl_nested (λ y x st, collectPixel pix width tx ty y x st)).
  generalize (y ← seq 0 8; x ← seq 0 8; [(y, x)]).
  intros ps. induction ps as [|[y x] ps IH] using rev_ind.
  - unfold collected. simpl. split_and!; [apply NoDup_nil_2| |].
    + intros k. rewrite lookup_empty. simpl. split; [done|]. by intros ?%elem_of_nil.
    + intros k. split; [by intros ?%elem_of_nil|]. intros (p & ?%elem_of_nil & _). done.
  - rewrite foldl_app. simpl. by apply collectPixel_collected.
Qed.

Lemma sort_insert_perm {A} (cmp : A → A → JS.num) (x : A) (l : list A) :
  JS.sort_insert cmp x l ≡ₚ x :: l.
Proof.
  induction l as [|y l IH]; simpl; [done|].
  destruct (JS.greater cmp x y); [|done].
  rewrite IH. apply Permutation_swap.
Qed.

Lemma sort_perm {A} (cmp : A → A → JS.num) (l : list A) : JS.sort cmp l ≡ₚ l.
Proof.
  induction l as [|x l IH]; simpl; [done|].
  rewrite sort_insert_perm. by rewrite IH.
Qed.

Lemma tileColorList_NoDup pix width tx ty : NoDup (tileColorList pix width tx ty).
Proof.
  unfold tileColorList. rewrite sort_perm.
  apply (collectTile_collected pix width tx ty).
Qed.

Lemma elem_of_tileColorList pix width tx ty k :
  k ∈ tileColorList pix width tx ty ↔
  ∃ y x, y < 8 ∧ x < 8 ∧ opaqueKeyAt pix width tx ty (y, x) k.
Proof.
  unfold tileColorList. rewrite sort_perm.
  destruct (collectTile_collected pix width tx ty) as (_ & _ & ->).
  split.
  - intros ([y x] & Hp & Hk). apply elem_of_offsets in Hp. exists y, x. tauto.
  - intros (y & x & Hy & Hx & Hk). exists (y, x). split; [|done].
    apply elem_of_offsets. done.
Qed.

(** ** Keys and colours of a well-formed frame *)

Lemma elem_of_tilePixels pix width tx ty c :
  c ∈ tilePixels pix width tx ty ↔
  ∃ y x, y < 8 ∧ x < 8 ∧ c = pixelAt pix width (tx * 8 + x) (ty * 8 + y).
Proof.
  unfold tilePixels. rewrite list_elem_of_bind. split.
  - intros (y & Hin & Hy). apply list_elem_of_bind in Hin as (x & Hin & Hx).
    apply list_elem_of_singleton in Hin. apply elem_of_seq in Hy, Hx.
    exists y, x. split_and!; [lia|lia|done].
  - intros (y & x & Hy & Hx & ->). exists y. split; [|apply elem_of_seq; lia].
    apply list_elem_of_bind. exists x. split; [by apply list_elem_of_singleton|].
    apply elem_of_seq. lia.
Qed.

Lemma elem_of_opaqueColors pix width tx ty c :
  c ∈ opaqueColors pix width tx ty ↔
  opaque c ∧ ∃ y x, y < 8 ∧ x < 8 ∧ c = pixelAt pix width (tx * 8 + x) (ty * 8 + y).
Proof.
  unfold opaqueColors.
  by rewrite elem_of_remove_dups, list_elem_of_filter, elem_of_tilePixels.
Qed.

Section WellFormedFrame.

Context (width height : nat) (pix : list N).
Hypothesis Hwf : wfFrame width height pix.

Lemma wfFrame_lookup (px py i : nat) :
  px < width → py < height → i < 4 →
  pix !! ((py * width + px) * 4 + i) = Some (pix !!! ((py * width + px) * 4 + i)) ∧
  (pix !!! ((py * width + px) * 4 + i)%nat < 256)%N.
Proof.
  destruct Hwf as [Hlen Hbytes]. intros Hx Hy Hi.
  assert (Hlt : (py * width + px) * 4 + i < length pix) by (rewrite Hlen; nia).
  pose proof (list_lookup_lookup_total_lt pix _ Hlt) as Hlk.
  split; [done|]. by eapply (Forall_lookup_1 _ _ _ _ Hbytes).
Qed.

Lemma pixelAt_lookup (px py : nat) :
  px < width → py < height →
  let i := (py * width + px) * 4 in
  let c := pixelAt pix width px py in
  pix !! i = Some (red c) ∧ pix !! (i + 1) = Some (green c) ∧
  pix !! (i + 2) = Some (blue c) ∧ pix !! (i + 3) = Some (alpha c).
Proof.
  intros Hx Hy. simpl.
  pose proof (wfFrame_lookup px py 0 Hx Hy) as H0. rewrite Nat.add_0_r in H0.
  pose proof (wfFrame_lookup px py 1 Hx Hy).
  pose proof (wfFrame_lookup px py 2 Hx Hy).
  pose proof (wfFrame_lookup px py 3 Hx Hy).
  split_and!; [apply H0|apply H|apply H1|apply H2]; lia.
Qed.

Lemma pixelAt_byteColor (px py : nat) :
  px < width → py < height → byteColor (pixelAt pix width px py).
Proof.
  intros Hx Hy. unfold byteColor, pixelAt. simpl.
  pose proof (wfFrame_lookup px py 0 Hx Hy) as H0. rewrite Nat.add_0_r in H0.
  pose proof (wfFrame_lookup px py 1 Hx Hy).
  pose proof (wfFrame_lookup px py 2 Hx Hy).
  pose proof (wfFrame_lookup px py 3 Hx Hy).
  split_and!; [apply H0|apply H|apply H1|apply H2]; lia.
Qed.

(** A tile that lies within the frame. *)
Context (tx ty : nat).
Hypothesis Htx : tx * 8 + 8 ≤ width.
Hypothesis Hty : ty * 8 + 8 ≤ height.

Lemma opaqueKeyAt_pixel y x k :
  y < 8 → x < 8 →
  opaqueKeyAt pix width tx ty (y, x) k ↔
  opaque (pixelAt pix width (tx * 8 + x) (ty * 8 + y)) ∧
  k = colorKey (pixelAt pix width (tx * 8 + x) (ty * 8 + y)).
Proof.
  intros Hy Hx.
  assert (Hpx : tx * 8 + x < width) by lia.
  assert (Hpy : ty * 8 + y < height) by lia.
  destruct (pixelAt_lookup _ _ Hpx Hpy) as (Hr & Hg & Hb & Ha).
  unfold opaqueKeyAt, opaque, colorKey. simpl in *.
  rewrite Hr, Hg, Hb, Ha. split.
  - intros [Hne ->]. split; [|done]. congruence.
  - intros [Hne ->]. split; [|done]. congruence.
Qed.

Lemma opaqueColors_byteColor c : c ∈ opaqueColors pix width tx ty → byteColor c.
Proof.
  intros (_ & y & x & Hy & Hx & ->)%elem_of_opaqueColors.
  apply pixelAt_byteColor; lia.
Qed.

(** The list of the exporter holds the keys of the distinct opaque colours
    of the tile, one each. *)
Lemma tileColorList_colors :
  tileColorList pix width tx ty ≡ₚ colorKey <$> opaqueColors pix width tx ty.
Proof.
  apply NoDup_Permutation.
  - apply tileColorList_NoDup.
  - apply NoDup_fmap_2_strong; [|apply NoDup_remove_dups].
    intros c1 c2 H1 H2. apply colorKey_inj; by apply opaqueColors_byteColor.
  - intros k. rewrite elem_of_tileColorList, list_elem_of_fmap. split.
    + intros (y & x & Hy & Hx & Hk).
      apply (opaqueKeyAt_pixel _ _ _ Hy Hx) in Hk as [Hop ->].
      eexists. split; [done|]. apply elem_of_opaqueColors. split; [done|].
      by exists y, x.
    + intros (c & -> & (Hop & y & x & Hy & Hx & ->)%elem_of_opaqueColors).
      exists y, x. split_and!; [done|done|].
      by apply (opaqueKeyAt_pixel _ _ _ Hy Hx).
Qed.

Lemma tileColorList_length :
  length (tileColorList pix width tx ty) = colorCount pix width tx ty.
Proof.
  unfold colorCount. rewrite (Permutation_length tileColorList_colors).
  apply length_fmap.
Qed.

End WellFormedFrame.

(** ** Loops *)

Lemma for_each_app {E S} (body : nat → S → E + S) (xs ys : list nat) (s : S) :
  JS.for_each body (xs ++ ys) s
  = match JS.for_each body xs s with
    | inl e => inl e
    | inr s' => JS.for_each body ys s'
    end.
Proof.
  revert s. induction xs as [|x xs IH]; intros s; simpl; [done|].
  destruct (body x s); [done|apply IH].
Qed.

Lemma for_upto_S {E S} (n : nat) (body : nat → S → E + S) (s : S) :
  JS.for_upto (Datatypes.S n) body s
  = match JS.for_upto n body s with
    | inl e => inl e
    | inr s' => body n s'
    end.
Proof.
  unfold JS.for_upto. rewrite seq_S, for_each_app. simpl.
  destruct (JS.for_each body (seq 0 n) s); [done|].
  by destruct (body n s0).
Qed.

(** An invariant [P i] that holds before iteration [i] holds at the end of
    a loop that completes; a loop that leaves does so from an iteration
    that leaves, where [Q] holds of what it leaves with. *)
Lemma for_upto_match {E S} (P : nat → S → Prop) (Q : E → Prop) (n : nat)
    (body : nat → S → E + S) (s0 : S) :
  P 0 s0 →
  (∀ i s, i < n → P i s →
     match body i s with
     | inr s' => P (Datatypes.S i) s'
     | inl e => Q e
     end) →
  match JS.for_upto n body s0 with
  | inr s => P n s
  | inl e => Q e
  end.
Proof.
  intros H0 Hstep. induction n as [|n IH]; [done|].
  assert (Hstep' : ∀ i s, i < n → P i s →
            match body i s with inr s' => P (Datatypes.S i) s' | inl e => Q e end).
  { intros i s Hi. apply Hstep. lia. }
  specialize (IH Hstep'). rewrite for_upto_S.
  destruct (JS.for_upto n body s0) as [e|s]; [done|].
  apply Hstep; [lia|done].
Qed.

(** The state that goes into the next loop is the one a loop ends with. *)
Lemma sum_match_impl {E S} (P P' : S → Prop) (Q : E → Prop) (r : E + S) :
  (∀ s, P s → P' s) →
  match r with inr s => P s | inl e => Q e end →
  match r with inr s => P' s | inl e => Q e end.
Proof. intros HP. destruct r; [done|apply HP]. Qed.

(** ** The array of groups *)

Lemma setGroup_shaped L F T l fi t v groups :
  shaped L F T groups → shaped L F T (setGroup l fi t v groups).
Proof.
  intros [Hlen Hall]. unfold setGroup. split; [by rewrite length_alter|].
  apply Forall_lookup. intros i frames Hi.
  rewrite list_lookup_alter in Hi. case_decide; subst.
  - destruct (groups !! i) as [frames0|] eqn:Hg; simplify_eq/=.
    destruct (Forall_lookup_1 _ _ _ _ Hall Hg) as [HF HT].
    split; [by rewrite length_alter|].
    apply Forall_lookup. intros j tiles Hj.
    rewrite list_lookup_alter in Hj. case_decide; subst.
    + destruct (frames0 !! j) as [tiles0|] eqn:Hf; simplify_eq/=.
      rewrite length_insert. by apply (Forall_lookup_1 _ _ _ _ HT Hf).
    + by apply (Forall_lookup_1 _ _ _ _ HT Hj).
  - by apply (Forall_lookup_1 _ _ _ _ Hall Hi).
Qed.

Lemma getGroup_setGroup_eq L F T l fi t v groups :
  shaped L F T groups → l < L → fi < F → t < T →
  getGroup (setGroup l fi t v groups) l fi t = Some v.
Proof.
  intros [Hlen Hall] Hl Hfi Ht. unfold getGroup, setGroup.
  rewrite list_lookup_alter_eq.
  destruct (lookup_lt_is_Some_2 groups l) as [frames Hg]; [lia|].
  rewrite Hg. simpl.
  destruct (Forall_lookup_1 _ _ _ _ Hall Hg) as [HF HT].
  rewrite list_lookup_alter_eq.
  destruct (lookup_lt_is_Some_2 frames fi) as [tiles Hf]; [lia|].
  rewrite Hf. simpl.
  apply list_lookup_insert_eq.
  rewrite (Forall_lookup_1 _ _ _ _ HT Hf). done.
Qed.

Lemma getGroup_setGroup_ne l fi t v groups l' fi' t' :
  l ≠ l' ∨ fi ≠ fi' ∨ t ≠ t' →
  getGroup (setGroup l fi t v groups) l' fi' t' = getGroup groups l' fi' t'.
Proof.
  intros Hne. unfold getGroup, setGroup.
  rewrite list_lookup_alter. case_decide as Hl; [subst l'|done].
  destruct (groups !! l) as [frames|]; simpl; [|done].
  rewrite list_lookup_alter. case_decide as Hf; [subst fi'|done].
  destruct (frames !! fi) as [tiles|]; simpl; [|done].
  apply list_lookup_insert_ne. intuition congruence.
Qed.

Lemma foldl_setGroup L F T fi t (v : nat → list string) n groups :
  shaped L F T groups → n ≤ L → fi < F → t < T →
  let groups' := foldl (λ g c, setGroup c fi t (v c) g) groups (seq 0 n) in
  shaped L F T groups' ∧
  ∀ l fi' t',
    getGroup groups' l fi' t'
    = if decide (l < n ∧ fi' = fi ∧ t' = t) then Some (v l) else getGroup groups l fi' t'.
Proof.
  intros Hsh Hn Hfi Ht. cbv zeta. induction n as [|n IH].
  - split; [done|]. intros l fi' t'. case_decide; [lia|done].
  - rewrite seq_S, foldl_app. simpl.
    destruct IH as [Hsh' Hget]; [lia|].
    split; [by apply setGroup_shaped|].
    intros l fi' t'.
    destruct (decide (l = n ∧ fi' = fi ∧ t' = t)) as [(-> & -> & ->)|Hne].
    + rewrite (getGroup_setGroup_eq L F T) by (done || lia).
      case_decide; [done|lia].
    + assert (Hd : n ≠ l ∨ fi ≠ fi' ∨ t ≠ t').
      { destruct (decide (n = l)); [|by left].
        destruct (decide (fi = fi')); [|by right; left].
        right; right. intros <-. apply Hne. done. }
      rewrite (getGroup_setGroup_ne _ _ _ _ _ _ _ _ Hd), Hget.
      repeat case_decide; try done; lia.
Qed.

(** ** The planning pass *)

Lemma slice3_beyond (keys : list string) (l : nat) :
  JS.ceil_div3 (length keys) ≤ l → slice3 keys l = [].
Proof.
  unfold JS.ceil_div3, slice3. intros Hl.
  rewrite drop_ge; [done|].
  pose proof (Nat.div_mod_eq (length keys + 2) 3).
  pose proof (Nat.mod_upper_bound (length keys + 2) 3). lia.
Qed.

Lemma planTile_inl pix width tilesX maxLayers fi ty tx st e :
  planTile pix width tilesX maxLayers fi ty tx st = inl e ↔
  maxLayers < JS.ceil_div3 (length (tileColorList pix width tx ty)) ∧
  e = layerOverflowText tx ty fi (length (tileColorList pix width tx ty)) maxLayers.
Proof.
  unfold planTile. case_bool_decide; split.
  - intros [= <-]. done.
  - intros [_ ->]. done.
  - done.
  - intros [? _]. lia.
Qed.

Lemma planTile_inr F T pix width tilesX maxLayers fi ty tx st st' :
  shaped maxLayers F T st.1 → fi < F → ty * tilesX + tx < T →
  planTile pix width tilesX maxLayers fi ty tx st = inr st' →
  let keys := tileColorList pix width tx ty in
  JS.ceil_div3 (length keys) ≤ maxLayers ∧
  st'.2 = st.2 `max` JS.ceil_div3 (length keys) ∧
  shaped maxLayers F T st'.1 ∧
  ∀ l fi' t',
    getGroup st'.1 l fi' t'
    = if decide (l < maxLayers ∧ fi' = fi ∧ t' = ty * tilesX + tx)
      then Some (slice3 keys l) else getGroup st.1 l fi' t'.
Proof.
  intros Hsh Hfi Ht. unfold planTile.
  case_bool_decide as Hover; [done|]. intros [= <-]. cbv zeta. simpl.
  set (keys := tileColorList pix width tx ty) in *.
  split; [lia|]. split; [case_bool_decide; lia|].
  destruct (foldl_setGroup maxLayers F T fi (ty * tilesX + tx) (λ _, []) maxLayers st.1)
    as [Hsh1 Hget1]; [done|lia|done|done|].
  destruct (foldl_setGroup maxLayers F T fi (ty * tilesX + tx) (slice3 keys)
              (JS.ceil_div3 (length keys)) _ Hsh1) as [Hsh2 Hget2]; [lia|done|done|].
  split; [exact Hsh2|].
  intros l fi' t'. unfold slice3 in Hget2 at 1. rewrite Hget2, Hget1.
  repeat case_decide; try done; try lia.
  rewrite slice3_beyond; [done|lia].
Qed.

Lemma tileId_inj tilesX ty tx ty' tx' :
  tx < tilesX → tx' < tilesX → ty * tilesX + tx = ty' * tilesX + tx' → ty = ty' ∧ tx = tx'.
Proof.
  intros Hx Hx' Heq.
  destruct (lt_eq_lt_dec ty ty') as [[Hlt| ->]|Hlt]; [exfalso|lia|exfalso].
  - assert ((ty + 1) * tilesX ≤ ty' * tilesX) by (apply Nat.mul_le_mono_r; lia). lia.
  - assert ((ty' + 1) * tilesX ≤ ty * tilesX) by (apply Nat.mul_le_mono_r; lia). lia.
Qed.

Lemma tileId_lt tilesX tilesY ty tx :
  ty < tilesY → tx < tilesX → ty * tilesX + tx < tilesX * tilesY.
Proof.
  intros Hy Hx.
  assert ((ty + 1) * tilesX ≤ tilesY * tilesX) by (apply Nat.mul_le_mono_r; lia). lia.
Qed.

Section Planning.

Context (pc : PiskelController) (width tilesX tilesY maxLayers frameCount : nat).

Local Abbreviation reached := (planned pc width tilesX tilesY maxLayers frameCount).
Local Abbreviation leaves := (planLeaves pc width tilesX tilesY maxLayers frameCount).
Local Abbreviation tileBody fi ty :=
  (λ tx st, planTile (frameData pc fi) width tilesX maxLayers fi ty tx st).
Local Abbreviation rowBody fi := (λ ty st, JS.for_upto tilesX (tileBody fi ty) st).

Lemma planned_start :
  reached 0 0 0 (replicate maxLayers (replicate frameCount (replicate (tilesX * tilesY) [])), 1).
Proof.
  unfold planned. simpl. split_and!.
  - split; [apply length_replicate|].
    apply Forall_replicate. split; [apply length_replicate|].
    apply Forall_replicate. apply length_replicate.
  - done.
  - by left.
  - intros fi' ty' tx' (_ & _ & Hb). lia.
Qed.

Lemma planned_equiv fi ty tx fi2 ty2 tx2 st :
  (∀ fi' ty' tx', tileBefore tilesX tilesY fi ty tx fi' ty' tx'
                  ↔ tileBefore tilesX tilesY fi2 ty2 tx2 fi' ty' tx') →
  reached fi ty tx st → reached fi2 ty2 tx2 st.
Proof.
  intros Heq (Hsh & H1 & Hmax & Hdone). unfold planned. split_and!; [done|done| |].
  - destruct Hmax as [?|(fi' & ty' & tx' & Hb & ?)]; [by left|].
    right. exists fi', ty', tx'. split; [by apply Heq|done].
  - intros fi' ty' tx' Hb. apply Hdone. by apply Heq.
Qed.

(** One tile: the plan grows by the tile, or the function returns. *)
Lemma planned_step fi ty tx st :
  fi < frameCount → ty < tilesY → tx < tilesX →
  reached fi ty tx st →
  match planTile (frameData pc fi) width tilesX maxLayers fi ty tx st with
  | inr st' => reached fi ty (S tx) st'
  | inl e => leaves e
  end.
Proof.
  intros Hfi Hty Htx Hst.
  destruct (planTile _ _ _ _ _ _ _ st) as [e|st'] eqn:Hstep.
  { by exists fi, ty, tx, st. }
  destruct Hst as (Hsh & H1 & Hmax & Hdone).
  apply (planTile_inr frameCount (tilesX * tilesY)) in Hstep
    as (Hle & Hn & Hsh' & Hget); [|done|done|by apply tileId_lt].
  fold (tileChunks pc width fi ty tx) in Hle, Hn.
  unfold planned. split_and!; [done|lia| |].
  - destruct (decide (st.2 < tileChunks pc width fi ty tx)).
    + right. exists fi, ty, tx. split; [unfold tileBefore; lia|lia].
    + destruct Hmax as [?|(fi' & ty' & tx' & Hb & ?)]; [left; lia|].
      right. exists fi', ty', tx'. split; [unfold tileBefore in *; lia|lia].
  - intros fi' ty' tx' Hb.
    destruct (decide (fi' = fi ∧ ty' = ty ∧ tx' = tx)) as [(-> & -> & ->)|Hne].
    + split_and!; [done|lia|]. intros l Hl. rewrite Hget.
      case_decide; [done|lia].
    + assert (Hb' : tileBefore tilesX tilesY fi ty tx fi' ty' tx').
      { unfold tileBefore in *. lia. }
      destruct (Hdone _ _ _ Hb') as (? & ? & Hg).
      split_and!; [done|lia|]. intros l Hl. rewrite Hget.
      case_decide as Hd; [|by apply Hg].
      destruct Hd as (_ & -> & Hid).
      destruct Hb as (_ & ? & _).
      apply tileId_inj in Hid as [-> ->]; [|done|done]. by destruct Hne.
Qed.

(** The tiles of a row. *)
Lemma planned_row fi ty st :
  fi < frameCount → ty < tilesY →
  reached fi ty 0 st →
  match JS.for_upto tilesX (tileBody fi ty) st with
  | inr st' => reached fi (S ty) 0 st'
  | inl e => leaves e
  end.
Proof.
  intros Hfi Hty Hst.
  apply (sum_match_impl (reached fi ty tilesX)).
  { intros s. apply planned_equiv. intros fi' ty' tx'. unfold tileBefore. lia. }
  apply (for_upto_match (λ tx st, reached fi ty tx st)); [done|].
  intros tx s Htx. by apply planned_step.
Qed.

(** The rows of a frame. *)
Lemma planned_frame fi st :
  fi < frameCount →
  reached fi 0 0 st →
  match JS.for_upto tilesY (rowBody fi) st with
  | inr st' => reached (S fi) 0 0 st'
  | inl e => leaves e
  end.
Proof.
  intros Hfi Hst.
  apply (sum_match_impl (reached fi tilesY 0)).
  { intros s. apply planned_equiv. intros fi' ty' tx'. unfold tileBefore. lia. }
  apply (for_upto_match (λ ty st, reached fi ty 0 st)); [done|].
  intros ty s Hty. by apply planned_row.
Qed.

(** What the three loops of [buildLayeredPlan_] do: they complete in the
    state reached after the last tile, or leave at a tile with too many
    colours, all the tiles before it having been planned. *)
Lemma plan_loops :
  match
    JS.for_upto frameCount (λ fi2 st,
      JS.for_upto tilesY (λ ty st,
        JS.for_upto tilesX (λ tx st,
          planTile (frameData pc fi2) width tilesX maxLayers fi2 ty tx st) st) st)
      (replicate maxLayers (replicate frameCount (replicate (tilesX * tilesY) [])), 1)
  with
  | inr st => reached frameCount 0 0 st
  | inl e => leaves e
  end.
Proof.
  apply (for_upto_match (λ fi st, reached fi 0 0 st)); [apply planned_start|].
  intros fi s Hfi. by apply planned_frame.
Qed.

End Planning.

Lemma tileBefore_end tilesX tilesY frameCount fi ty tx :
  tileBefore tilesX tilesY frameCount 0 0 fi ty tx ↔ fi < frameCount ∧ ty < tilesY ∧ tx < tilesX.
Proof. unfold tileBefore. lia. Qed.

(** A plan that succeeds. *)
Lemma buildLayeredPlan_ok pc width height frameCount tilesX tilesY maxLayers n groups :
  buildLayeredPlan_ pc width height frameCount tilesX tilesY maxLayers = PlanOk n groups →
  1 ≤ n ∧
  (n = 1 ∨ ∃ fi ty tx, fi < frameCount ∧ ty < tilesY ∧ tx < tilesX ∧
                       n = tileChunks pc width fi ty tx) ∧
  (∀ fi ty tx, fi < frameCount → ty < tilesY → tx < tilesX →
     tileChunks pc width fi ty tx ≤ maxLayers ∧ tileChunks pc width fi ty tx ≤ n) ∧
  (1 ≤ maxLayers →
     n ≤ maxLayers ∧
     ∀ fi ty tx l, fi < frameCount → ty < tilesY → tx < tilesX → l < n →
       getGroup groups l fi (ty * tilesX + tx)
       = Some (slice3 (tileColorList (frameData pc fi) width tx ty) l)).
Proof.
  unfold buildLayeredPlan_.
  pose proof (plan_loops pc width tilesX tilesY maxLayers frameCount) as Hloops.
  destruct (JS.for_upto frameCount _ _) as [e|[g n']]; [done|].
  intros [= -> <-]. destruct Hloops as (Hsh & H1 & Hmax & Hdone). simpl in *.
  split; [done|]. split.
  { destruct Hmax as [?|(fi & ty & tx & Hb%tileBefore_end & ?)]; [by left|].
    right. exists fi, ty, tx. tauto. }
  split.
  { intros fi ty tx Hfi Hty Htx.
    destruct (Hdone fi ty tx) as (? & ? & _); [by apply tileBefore_end|done]. }
  intros HML.
  assert (Hn : n ≤ maxLayers).
  { destruct Hmax as [?|(fi & ty & tx & Hb & ->)]; [lia|]. by apply Hdone. }
  split; [done|].
  intros fi ty tx l Hfi Hty Htx Hl.
  destruct (Hdone fi ty tx) as (_ & _ & Hg); [by apply tileBefore_end|].
  rewrite <- Hg by lia. unfold getGroup.
  rewrite lookup_resize; [done|done|]. destruct Hsh as [-> _]. lia.
Qed.

(** A plan that fails. *)
Lemma buildLayeredPlan_failed pc width height frameCount tilesX tilesY maxLayers e :
  buildLayeredPlan_ pc width height frameCount tilesX tilesY maxLayers = PlanFailed e →
  ∃ fi ty tx, fi < frameCount ∧ ty < tilesY ∧ tx < tilesX ∧
    maxLayers < tileChunks pc width fi ty tx ∧
    e = layerOverflowText tx ty fi (length (tileColorList (frameData pc fi) width tx ty)) maxLayers ∧
    ∀ fi' ty' tx', tileBefore tilesX tilesY fi ty tx fi' ty' tx' →
      tileChunks pc width fi' ty' tx' ≤ maxLayers.
Proof.
  unfold buildLayeredPlan_.
  pose proof (plan_loops pc width tilesX tilesY maxLayers frameCount) as Hloops.
  destruct (JS.for_upto frameCount _ _) as [e'|[g n']]; [|done].
  intros [= ->]. destruct Hloops as (fi & ty & tx & st & Hfi & Hty & Htx & Hpl & Hb).
  apply planTile_inl in Hb as [Hover ->].
  exists fi, ty, tx. split_and!; try done.
  intros fi' ty' tx' Hbefore. destruct Hpl as (_ & _ & _ & Hdone).
  by apply Hdone.
Qed.

Lemma validImage_planArgs pc :
  validImage pc →
  planArgs pc (getWidth pc) (getHeight pc) (getFrameCount pc) (getWidth pc / 8) (getHeight pc / 8).
Proof.
  intros (Hw & Hh & Hwf). unfold planArgs. split_and!; [| |done].
  - pose proof (Nat.div_mod_eq (getWidth pc) 8). lia.
  - pose proof (Nat.div_mod_eq (getHeight pc) 8). lia.
Qed.

Lemma tileChunks_colorCount pc width height frameCount tilesX tilesY fi ty tx :
  planArgs pc width height frameCount tilesX tilesY →
  fi < frameCount → ty < tilesY → tx < tilesX →
  tileChunks pc width fi ty tx = JS.ceil_div3 (colorCount (frameData pc fi) width tx ty) ∧
  length (tileColorList (frameData pc fi) width tx ty) = colorCount (frameData pc fi) width tx ty.
Proof.
  intros (-> & -> & Hwf) Hfi Hty Htx. unfold tileChunks.
  rewrite (tileColorList_length _ _ _ (Hwf fi Hfi)) by lia. done.
Qed.

Lemma ceil_div3_gt (k m : nat) : m < JS.ceil_div3 k ↔ m * 3 < k.
Proof.
  unfold JS.ceil_div3.
  pose proof (Nat.div_mod_eq (k + 2) 3).
  pose proof (Nat.mod_upper_bound (k + 2) 3). lia.
Qed.

Lemma elem_of_allTiles frameCount tilesY tilesX fi ty tx :
  (fi, ty, tx) ∈ allTiles frameCount tilesY tilesX ↔ fi < frameCount ∧ ty < tilesY ∧ tx < tilesX.
Proof.
  unfold allTiles. rewrite list_elem_of_bind. split.
  - intros (fi' & Hin & Hfi). apply list_elem_of_bind in Hin as (ty' & Hin & Hty).
    apply list_elem_of_bind in Hin as (tx' & Hin & Htx).
    apply list_elem_of_singleton in Hin. inversion Hin; subst.
    apply elem_of_seq in Hfi, Hty, Htx. lia.
  - intros (Hfi & Hty & Htx). exists fi. split; [|apply elem_of_seq; lia].
    apply list_elem_of_bind. exists ty. split; [|apply elem_of_seq; lia].
    apply list_elem_of_bind. exists tx. split; [|apply elem_of_seq; lia].
    by apply list_elem_of_singleton.
Qed.

Lemma max_list_le (ns : list nat) (n : nat) : (∀ m, m ∈ ns → m ≤ n) → max_list ns ≤ n.
Proof.
  induction ns as [|m ns IH]; simpl; [lia|]. intros Hall.
  assert (m ≤ n) by (apply Hall; left).
  assert (max_list ns ≤ n) by (apply IH; intros; apply Hall; by right). lia.
Qed.

(** The planner's layer count against the maximum over the tiles. *)
Lemma plan_layerCount pc width height frameCount tilesX tilesY maxLayers n groups :
  planArgs pc width height frameCount tilesX tilesY →
  buildLayeredPlan_ pc width height frameCount tilesX tilesY maxLayers = PlanOk n groups →
  n = 1 `max` maxLayersNeeded pc width frameCount tilesX tilesY.
Proof.
  intros Hargs Hplan.
  destruct (buildLayeredPlan_ok _ _ _ _ _ _ _ _ _ Hplan) as (H1 & Hmax & Hall & _).
  unfold maxLayersNeeded.
  set (f := λ t : nat * nat * nat, JS.ceil_div3 (colorCount (frameData pc t.1.1) width t.2 t.1.2)).
  assert (Hle : max_list (f <$> allTiles frameCount tilesY tilesX) ≤ n).
  { apply max_list_le. intros m ([[fi ty] tx] & -> & Hin)%list_elem_of_fmap.
    apply elem_of_allTiles in Hin as (Hfi & Hty & Htx). unfold f. simpl.
    destruct (tileChunks_colorCount _ _ _ _ _ _ _ _ _ Hargs Hfi Hty Htx) as [<- _].
    by apply Hall. }
  destruct Hmax as [->|(fi & ty & tx & Hfi & Hty & Htx & Hn)]; [lia|].
  assert (n ≤ max_list (f <$> allTiles frameCount tilesY tilesX)); [|lia].
  apply max_list_elem_of_le. apply list_elem_of_fmap.
  exists (fi, ty, tx). split; [|by apply elem_of_allTiles].
  unfold f. simpl.
  by destruct (tileChunks_colorCount _ _ _ _ _ _ _ _ _ Hargs Hfi Hty Htx) as [<- _].
Qed.

(** An export that succeeds ran both passes. *)
Lemma export_inr pc MAX_LAYERS MAX_PALS T :
  onDownloadCFileClick_ pc MAX_LAYERS MAX_PALS = inr T →
  getWidth pc mod 8 = 0 ∧ getHeight pc mod 8 = 0 ∧
  ∃ groups,
    planOf pc MAX_LAYERS = PlanOk (layerCount T) groups ∧
    JS.for_upto (layerCount T)
      (exportLayer pc groups MAX_PALS (getWidth pc) (getFrameCount pc)
                   (getWidth pc / 8) (getHeight pc / 8))
      ([], [], [])
    = inr (perLayerPalettes T, perLayerPalIdMap T, perLayerTiles T).
Proof.
  unfold onDownloadCFileClick_, planOf.
  case_bool_decide as Hdim; [done|].
  destruct (buildLayeredPlan_ _ _ _ _ _ _ _) as [e|n groups]; [done|].
  destruct (JS.for_upto n _ _) as [e|[[pals ids] tiles]] eqn:Hloop; [done|].
  intros [= <-]. simpl.
  destruct (decide (getWidth pc mod 8 = 0)) as [Hw|Hw]; [|destruct Hdim; by left].
  destruct (decide (getHeight pc mod 8 = 0)) as [Hh|Hh]; [|destruct Hdim; by right].
  split_and!; [done|done|]. by exists groups.
Qed.

(** ** Chunks of three *)

Lemma elem_of_slice3 (keys : list string) (c : nat) (k : string) :
  k ∈ slice3 keys c ↔ ∃ i, c * 3 ≤ i < c * 3 + 3 ∧ keys !! i = Some k.
Proof.
  unfold slice3. rewrite elem_of_take. split.
  - intros (i & Hi & Hlt). rewrite lookup_drop in Hi. exists (c * 3 + i). split; [lia|done].
  - intros (i & Hi & Hk). exists (i - c * 3). rewrite lookup_drop.
    replace (c * 3 + (i - c * 3)) with i by lia. split; [done|lia].
Qed.

Lemma slice3_lookup (keys : list string) (i : nat) (k : string) :
  keys !! i = Some k → slice3 keys (i / 3) !! (i mod 3) = Some k.
Proof.
  intros Hk. unfold slice3.
  pose proof (Nat.div_mod_eq i 3). pose proof (Nat.mod_upper_bound i 3).
  rewrite lookup_take_lt by lia. rewrite lookup_drop.
  replace (i / 3 * 3 + i mod 3) with i by lia. done.
Qed.

Lemma slice3_disjoint (keys : list string) (c1 c2 : nat) (k : string) :
  NoDup keys → c1 ≠ c2 → k ∈ slice3 keys c1 → k ∉ slice3 keys c2.
Proof.
  intros Hnd Hne (i1 & Hi1 & Hk1)%elem_of_slice3 (i2 & Hi2 & Hk2)%elem_of_slice3.
  pose proof (NoDup_lookup _ _ _ _ Hnd Hk1 Hk2). lia.
Qed.

Lemma slice3_NoDup (keys : list string) (c : nat) :
  NoDup keys → NoDup (slice3 keys c) ∧ length (slice3 keys c) ≤ 3.
Proof.
  intros Hnd. unfold slice3. split.
  - eapply sublist_NoDup; [exact Hnd|].
    etrans; [apply sublist_take|apply sublist_drop].
  - rewrite length_take. lia.
Qed.

Lemma concat_slice3 (keys : list string) (n : nat) :
  concat (slice3 keys <$> seq 0 n) = take (n * 3) keys.
Proof.
  induction n as [|n IH]; [done|].
  rewrite seq_S, fmap_app, concat_app, IH. simpl. rewrite app_nil_r.
  unfold slice3. rewrite take_take_drop. f_equal. lia.
Qed.

(** ** The numbers written in a text *)

Lemma append_assoc (s1 s2 s3 : string) : (s1 +:+ s2) +:+ s3 = s1 +:+ (s2 +:+ s3).
Proof.
  induction s1 as [|c s1 IH]; [reflexivity|].
  change (String c ((s1 +:+ s2) +:+ s3) = String c (s1 +:+ (s2 +:+ s3))). by rewrite IH.
Qed.

Lemma append_empty (s : string) : s +:+ "" = s.
Proof.
  induction s as [|c s IH]; [reflexivity|].
  change (String c (s +:+ "") = String c s). by rewrite IH.
Qed.

Lemma lex_app (s1 s2 : string) (st : list N * Lex) : lex (s1 +:+ s2) st = lex s2 (lex s1 st).
Proof.
  revert st. induction s1 as [|c s1 IH]; intros st; [reflexivity|].
  change (lex (s1 +:+ s2) (lexChar st c) = lex s2 (lex s1 (lexChar st c))). apply IH.
Qed.

(** The reader only adds to the numbers it has read. *)
Lemma lexChar_prefix (ns : list N) (l : Lex) (c : ascii) :
  lexChar (ns, l) c = (ns ++ (lexChar ([], l) c).1, (lexChar ([], l) c).2).
Proof.
  unfold lexChar. simpl.
  destruct l as [|n|n]; simpl.
  - destruct (JS.digit_of c); simpl; by rewrite app_nil_r.
  - destruct (JS.digit_of c); simpl; [by rewrite app_nil_r|].
    destruct (Ascii.eqb c "x" && (n =? 0)%N); simpl; [by rewrite app_nil_r|done].
  - destruct (hex_digit_of c); simpl; [by rewrite app_nil_r|done].
Qed.

Lemma lex_prefix (s : string) (ns : list N) (l : Lex) :
  lex s (ns, l) = (ns ++ (lex s ([], l)).1, (lex s ([], l)).2).
Proof.
  revert ns l. induction s as [|c s IH]; intros ns l; simpl.
  - by rewrite app_nil_r.
  - rewrite lexChar_prefix.
    destruct (lexChar ([], l) c) as [ms l'] eqn:Hc. simpl.
    rewrite (IH (ns ++ ms)), (IH ms). simpl. by rewrite app_assoc.
Qed.

Lemma lex_uint (d : Decimal.uint) (ns : list N) (acc : N) :
  lex (NilEmpty.string_of_uint d) (ns, Dec acc) = (ns, Dec (uintValue d acc)).
Proof.
  revert acc. induction d; intros acc; simpl; try done; rewrite <- IHd; f_equal.
  all: unfold lexChar; simpl; do 2 f_equal; lia.
Qed.

Lemma uintValue_pos (d : Decimal.uint) (p : positive) :
  uintValue d (N.pos p) = N.pos (Pos.of_uint_acc d p).
Proof.
  revert p. induction d; intros p; simpl; try done.
  all: match goal with
       | |- uintValue _ ?a = _ =>
           match goal with
           | |- _ = N.pos (Pos.of_uint_acc _ ?q) => replace a with (N.pos q) by lia
           end
       end; apply IHd.
Qed.

Lemma uintValue_of_uint (d : Decimal.uint) : uintValue d 0 = N.of_uint d.
Proof.
  unfold N.of_uint. induction d; simpl; try done.
  all: match goal with
       | |- uintValue _ ?a = N.pos (Pos.of_uint_acc _ ?q) =>
           replace a with (N.pos q) by lia; apply uintValue_pos
       end.
Qed.

(** The decimal digits of [n] read as [n]. *)
Lemma lex_dec (n : N) (ns : list N) : lex (JS.dec n) (ns, Idle) = (ns, Dec n).
Proof.
  unfold JS.dec.
  assert (Hval : uintValue (N.to_uint n) 0 = n).
  { rewrite uintValue_of_uint. apply DecimalN.Unsigned.of_to. }
  assert (Hidle : ∀ d, d ≠ Decimal.Nil →
    lex (NilEmpty.string_of_uint d) (ns, Idle) = lex (NilEmpty.string_of_uint d) (ns, Dec 0)).
  { intros d Hd. destruct d; try done; reflexivity. }
  rewrite Hidle.
  - by rewrite lex_uint, Hval.
  - intros Hnil. rewrite Hnil in Hval. simpl in Hval. subst n. done.
Qed.

Lemma lex_num (n : nat) (ns : list N) : lex (num n) (ns, Idle) = (ns, Dec (N.of_nat n)).
Proof. apply lex_dec. Qed.

(** The numbers of the three alerts. *)
Lemma numbers_layerOverflowText (tx ty fi2 colors maxLayers : nat) :
  numbers (layerOverflowText tx ty fi2 colors maxLayers)
  = N.of_nat <$> [tx; ty; fi2; colors; maxLayers; maxLayers * 3].
Proof.
  assert (H1 : ∀ ns, lex "Tile at (tx=" (ns, Idle) = (ns, Idle)) by reflexivity.
  assert (H2 : ∀ ns n, lex ", ty=" (ns, Dec n) = (ns ++ [n], Idle)) by reflexivity.
  assert (H3 : ∀ ns n, lex ") in frame " (ns, Dec n) = (ns ++ [n], Idle)) by reflexivity.
  assert (H4 : ∀ ns n, lex " uses " (ns, Dec n) = (ns ++ [n], Idle)) by reflexivity.
  assert (H5 : ∀ ns n, lex " opaque colors." (ns, Dec n) = (ns ++ [n], Idle)) by reflexivity.
  assert (H6 : ∀ ns, lex JS.nl (ns, Idle) = (ns, Idle)) by reflexivity.
  assert (H7 : ∀ ns, lex "With maxLayers=" (ns, Idle) = (ns, Idle)) by reflexivity.
  assert (H8 : ∀ ns n, lex ", max opaque colors per tile is " (ns, Dec n) = (ns ++ [n], Idle))
    by reflexivity.
  assert (H9 : ∀ ns n, lex "." (ns, Dec n) = (ns ++ [n], Idle)) by reflexivity.
  assert (H10 : ∀ ns, lex "Reduce colors or increase MAX_LAYERS in exporter." (ns, Idle)
                      = (ns, Idle)) by reflexivity.
  unfold numbers, layerOverflowText. rewrite !lex_app.
  rewrite H1, lex_dec, H2, lex_dec, H3, lex_dec, H4, lex_dec, H5, H6, H7, lex_dec, H8,
    lex_dec, H9, H6, H10.
  reflexivity.
Qed.

Lemma numbers_paletteOverflowText (l maxPals : nat) :
  numbers (paletteOverflowText l maxPals) = [N.of_nat l; N.of_nat maxPals].
Proof.
  assert (H1 : ∀ ns, lex "Too many distinct palettes in layer " (ns, Idle) = (ns, Idle))
    by reflexivity.
  assert (H2 : ∀ ns n, lex " (>" (ns, Dec n) = (ns ++ [n], Idle)) by reflexivity.
  assert (H3 : ∀ ns n, lex ")." (ns, Dec n) = (ns ++ [n], Idle)) by reflexivity.
  assert (H4 : ∀ ns, lex JS.nl (ns, Idle) = (ns, Idle)) by reflexivity.
  assert (H5 : ∀ ns, lex "Tip: reuse colors/palettes more, or export smaller assets." (ns, Idle)
                     = (ns, Idle)) by reflexivity.
  unfold numbers, paletteOverflowText. rewrite !lex_app.
  rewrite H1, lex_dec, H2, lex_dec, H3, H4, H5.
  reflexivity.
Qed.

(** ** Overflow of the layer budget *)

(** C8 — LayerOverflow: the planning pass fails if and only if some tile of
    some frame has a number [n] of distinct opaque colours with
    [ceil(n/3) > maxLayers], which is [n > maxLayers*3]; when it fails, the
    export stops with the alert and no tables, and the text of the alert
    gives the coordinates of the first such tile, its frame, its colour count
    [n] and the budget [maxLayers*3]: the numbers written in it are, in this
    order, [tx], [ty], the frame index, [n], [maxLayers] and
    [maxLayers*3]. *)
Theorem layer_overflow_iff (pc : PiskelController) (MAX_LAYERS : nat) :
  validImage pc →
  let width := getWidth pc in
  let frameCount := getFrameCount pc in
  let tilesX := width / 8 in
  let tilesY := getHeight pc / 8 in
  let n fi ty tx := colorCount (frameData pc fi) width tx ty in
  ((∃ e, planOf pc MAX_LAYERS = PlanFailed e) ↔
   ∃ fi ty tx, fi < frameCount ∧ ty < tilesY ∧ tx < tilesX ∧
               MAX_LAYERS < JS.ceil_div3 (n fi ty tx)) ∧
  (∀ k, MAX_LAYERS < JS.ceil_div3 k ↔ MAX_LAYERS * 3 < k) ∧
  (∀ e, planOf pc MAX_LAYERS = PlanFailed e →
     (∀ MAX_PALS, onDownloadCFileClick_ pc MAX_LAYERS MAX_PALS = inl (Alert e)) ∧
     ∃ fi ty tx, fi < frameCount ∧ ty < tilesY ∧ tx < tilesX ∧
       MAX_LAYERS * 3 < n fi ty tx ∧
       (∀ fi' ty' tx', tileBefore tilesX tilesY fi ty tx fi' ty' tx' →
          n fi' ty' tx' ≤ MAX_LAYERS * 3) ∧
       e = layerOverflowText tx ty fi (n fi ty tx) MAX_LAYERS ∧
       numbers e = N.of_nat <$> [tx; ty; fi; n fi ty tx; MAX_LAYERS; MAX_LAYERS * 3]).
Proof.
  intros Hvalid. cbv zeta.
  pose proof (validImage_planArgs pc Hvalid) as Hargs.
  assert (Hfail : ∀ e, planOf pc MAX_LAYERS = PlanFailed e →
    ∃ fi ty tx, fi < getFrameCount pc ∧ ty < getHeight pc / 8 ∧ tx < getWidth pc / 8 ∧
      MAX_LAYERS * 3 < colorCount (frameData pc fi) (getWidth pc) tx ty ∧
      (∀ fi' ty' tx', tileBefore (getWidth pc / 8) (getHeight pc / 8) fi ty tx fi' ty' tx' →
         colorCount (frameData pc fi') (getWidth pc) tx' ty' ≤ MAX_LAYERS * 3) ∧
      e = layerOverflowText tx ty fi (colorCount (frameData pc fi) (getWidth pc) tx ty) MAX_LAYERS ∧
      numbers e = N.of_nat <$> [tx; ty; fi; colorCount (frameData pc fi) (getWidth pc) tx ty;
                                MAX_LAYERS; MAX_LAYERS * 3]).
  { intros e He. unfold planOf in He. apply buildLayeredPlan_failed in He
      as (fi & ty & tx & Hfi & Hty & Htx & Hover & -> & Hfirst).
    destruct (tileChunks_colorCount _ _ _ _ _ _ _ _ _ Hargs Hfi Hty Htx) as [Hc Hlen].
    exists fi, ty, tx. split_and!; try done.
    - apply ceil_div3_gt. by rewrite <- Hc.
    - intros fi' ty' tx' Hb. specialize (Hfirst _ _ _ Hb).
      destruct Hb as (Hty' & Htx' & Hb).
      assert (Hfi' : fi' < getFrameCount pc) by lia.
      destruct (tileChunks_colorCount _ _ _ _ _ _ _ _ _ Hargs Hfi' Hty' Htx') as [Hc' _].
      rewrite Hc' in Hfirst.
      destruct (decide (colorCount (frameData pc fi') (getWidth pc) tx' ty' ≤ MAX_LAYERS * 3));
        [done|].
      assert (MAX_LAYERS < JS.ceil_div3 (colorCount (frameData pc fi') (getWidth pc) tx' ty'))
        by (apply ceil_div3_gt; lia). lia.
    - by rewrite Hlen.
    - rewrite numbers_layerOverflowText. by rewrite Hlen. }
  split_and!.
  - split.
    + intros [e He]. destruct (Hfail e He) as (fi & ty & tx & ? & ? & ? & ? & _).
      exists fi, ty, tx. split_and!; try done. by apply ceil_div3_gt.
    + intros (fi & ty & tx & Hfi & Hty & Htx & Hover).
      destruct (planOf pc MAX_LAYERS) as [e|n groups] eqn:Hplan; [by exists e|].
      unfold planOf in Hplan.
      destruct (buildLayeredPlan_ok _ _ _ _ _ _ _ _ _ Hplan) as (_ & _ & Hall & _).
      destruct (Hall fi ty tx Hfi Hty Htx) as [Hle _].
      destruct (tileChunks_colorCount _ _ _ _ _ _ _ _ _ Hargs Hfi Hty Htx) as [Hc _].
      rewrite Hc in Hle. lia.
  - intros k. apply ceil_div3_gt.
  - intros e He. split; [|by apply Hfail].
    intros MAX_PALS. unfold onDownloadCFileClick_.
    destruct Hvalid as (Hw & Hh & _).
    case_bool_decide as Hdim; [destruct Hdim; done|].
    unfold planOf in He. by rewrite He.
Qed.

Lemma layer_overflow_iff_witness :
  validImage tenColorImage ∧
  ((∃ e, planOf tenColorImage 3 = PlanFailed e) ↔
   ∃ fi ty tx, fi < 1 ∧ ty < 1 ∧ tx < 1 ∧
               3 < JS.ceil_div3 (colorCount (frameData tenColorImage fi) 8 tx ty)).
Proof.
  assert (Hvalid : validImage tenColorImage) by solve_validImage.
  split; [exact Hvalid|].
  exact (proj1 (layer_overflow_iff tenColorImage 3 Hvalid)).
Defined.

(** ** The layer count *)

(** C3 (as the exporter computes it) — for every image that is exported, the
    [layerCount] of the output is the maximum of 1 and of [ceil(n/3)] over
    all the tiles of all the frames, [n] being the tile's number of distinct
    opaque colours; it never exceeds the configured [maxLayers]; for an
    image whose tiles are all transparent it is 1. *)
Theorem layer_count_formula (pc : PiskelController) (MAX_LAYERS MAX_PALS : nat) (T : Tables) :
  validImage pc → 1 ≤ MAX_LAYERS →
  onDownloadCFileClick_ pc MAX_LAYERS MAX_PALS = inr T →
  let needed :=
    maxLayersNeeded pc (getWidth pc) (getFrameCount pc) (getWidth pc / 8) (getHeight pc / 8) in
  layerCount T = 1 `max` needed ∧
  layerCount T ≤ MAX_LAYERS ∧
  (needed = 0 → layerCount T = 1).
Proof.
  intros Hvalid HML Hexp. cbv zeta.
  apply export_inr in Hexp as (_ & _ & groups & Hplan & _).
  unfold planOf in Hplan.
  pose proof (plan_layerCount _ _ _ _ _ _ _ _ _ (validImage_planArgs pc Hvalid) Hplan) as Hn.
  destruct (buildLayeredPlan_ok _ _ _ _ _ _ _ _ _ Hplan) as (_ & _ & _ & Hle).
  split_and!; [done|by apply Hle|]. intros H0. rewrite Hn, H0. done.
Qed.

Lemma layer_count_formula_witness :
  validImage blankImage ∧ 1 ≤ 3 ∧
  layerCount blankTables = 1 `max` maxLayersNeeded blankImage 8 1 1 1.
Proof.
  assert (Hvalid : validImage blankImage) by solve_validImage.
  assert (H3 : 1 ≤ 3) by lia.
  assert (Hexp : onDownloadCFileClick_ blankImage 3 16 = inr blankTables) by reflexivity.
  split_and!; [exact Hvalid|exact H3|].
  exact (proj1 (layer_count_formula blankImage 3 16 blankTables Hvalid H3 Hexp)).
Defined.

(** Against C3 as stated: the blank 8x8 image is exported with one layer,
    while the maximum of [ceil(n/3)] over its tiles is 0. *)
Lemma layer_count_blank_counterexample :
  onDownloadCFileClick_ blankImage 3 16 = inr blankTables ∧
  maxLayersNeeded blankImage 8 1 1 1 = 0 ∧
  layerCount blankTables ≠ maxLayersNeeded blankImage 8 1 1 1.
Proof. split_and!; [reflexivity|reflexivity|]. vm_compute. lia. Qed.

(** ** The order of a tile's list *)

Lemma rgbaKeySort_colorKey (c1 c2 : Color) :
  byteColor c1 → byteColor c2 →
  ∃ d, rgbaKeySort_ (colorKey c1) (colorKey c2) = Some d ∧ ((0 < d)%Z ↔ ¬ colorLe c1 c2).
Proof.
  intros H1 H2. unfold rgbaKeySort_.
  destruct (colorKey_channels c1 H1) as (Hr1 & Hg1 & Hb1 & Ha1).
  destruct (colorKey_channels c2 H2) as (Hr2 & Hg2 & Hb2 & Ha2).
  cbv zeta in *. simpl.
  rewrite Hr1, Hr2, Hg1, Hg2, Hb1, Hb2, Ha1, Ha2. simpl.
  unfold colorLe.
  destruct (Z.eqb_spec (Z.of_N (red c1) - Z.of_N (red c2)) 0) as [Hr|Hr]; simpl;
    [|eexists; split; [done|lia]].
  destruct (Z.eqb_spec (Z.of_N (green c1) - Z.of_N (green c2)) 0) as [Hg|Hg]; simpl;
    [|eexists; split; [done|lia]].
  destruct (Z.eqb_spec (Z.of_N (blue c1) - Z.of_N (blue c2)) 0) as [Hb|Hb]; simpl;
    [|eexists; split; [done|lia]].
  destruct (Z.eqb_spec (Z.of_N (alpha c1) - Z.of_N (alpha c2)) 0) as [Ha|Ha]; simpl;
    eexists; (split; [done|lia]).
Qed.

Lemma colorLe_trans (c1 c2 c3 : Color) : colorLe c1 c2 → colorLe c2 c3 → colorLe c1 c3.
Proof. unfold colorLe. lia. Qed.

Lemma colorLe_total (c1 c2 : Color) : ¬ colorLe c1 c2 → colorLe c2 c1.
Proof. unfold colorLe. lia. Qed.

Lemma keyLe_trans (k1 k2 k3 : string) : keyLe k1 k2 → keyLe k2 k3 → keyLe k1 k3.
Proof.
  intros (c1 & c2 & H1 & H2 & -> & -> & H12) (c2' & c3 & H2' & H3 & Heq & -> & H23).
  apply colorKey_inj in Heq as <-; [|done|done].
  exists c1, c3. split_and!; try done. by eapply colorLe_trans.
Qed.

Lemma greater_keyLe (c1 c2 : Color) :
  byteColor c1 → byteColor c2 →
  if JS.greater rgbaKeySort_ (colorKey c1) (colorKey c2)
  then keyLe (colorKey c2) (colorKey c1)
  else keyLe (colorKey c1) (colorKey c2).
Proof.
  intros H1 H2. unfold JS.greater.
  destruct (rgbaKeySort_colorKey c1 c2 H1 H2) as (d & -> & Hd).
  destruct (Z.ltb_spec 0 d) as [Hlt|Hge].
  - exists c2, c1. split_and!; try done. apply colorLe_total. by apply Hd.
  - exists c1, c2. split_and!; try done.
    destruct (decide (colorLe c1 c2)) as [?|Hn]; [done|].
    apply Hd in Hn. lia.
Qed.

Lemma sort_insert_sorted (x : string) (l : list string) :
  (∃ c, byteColor c ∧ x = colorKey c) →
  Forall (λ k, ∃ c, byteColor c ∧ k = colorKey c) l →
  StronglySorted keyLe l →
  StronglySorted keyLe (JS.sort_insert rgbaKeySort_ x l).
Proof.
  intros (cx & Hcx & ->) Hall Hsorted.
  induction l as [|y l IH]; simpl.
  - apply StronglySorted_cons. split; [done|constructor].
  - apply Forall_cons in Hall as [(cy & Hcy & ->) Hall].
    apply StronglySorted_cons in Hsorted as [Hy Hsorted].
    pose proof (greater_keyLe cx cy Hcx Hcy) as Hcmp.
    destruct (JS.greater rgbaKeySort_ (colorKey cx) (colorKey cy)).
    + apply StronglySorted_cons. split; [|by apply IH].
      rewrite sort_insert_perm. by constructor.
    + apply StronglySorted_cons. split.
      * constructor; [done|].
        eapply Forall_impl; [exact Hy|]. intros k Hk. by eapply keyLe_trans.
      * by apply StronglySorted_cons.
Qed.

Lemma sort_sorted (l : list string) :
  Forall (λ k, ∃ c, byteColor c ∧ k = colorKey c) l →
  StronglySorted keyLe (JS.sort rgbaKeySort_ l).
Proof.
  induction l as [|x l IH]; intros Hall; simpl; [constructor|].
  apply Forall_cons in Hall as [Hx Hall].
  apply sort_insert_sorted; [done| |by apply IH].
  by rewrite sort_perm.
Qed.

(** The list of a tile is in ascending order of (R, G, B, A). *)
Lemma tileColorList_sorted width height pix tx ty :
  wfFrame width height pix → tx * 8 + 8 ≤ width → ty * 8 + 8 ≤ height →
  StronglySorted keyLe (tileColorList pix width tx ty).
Proof.
  intros Hwf Htx Hty. unfold tileColorList. apply sort_sorted.
  apply Forall_forall. intros k Hk.
  assert (Hin : k ∈ tileColorList pix width tx ty).
  { unfold tileColorList. by rewrite sort_perm. }
  rewrite (tileColorList_colors _ _ _ Hwf _ _ Htx Hty) in Hin.
  apply list_elem_of_fmap in Hin as (c & -> & Hc).
  exists c. split; [|done]. by eapply opaqueColors_byteColor.
Qed.

(** ** The partition of a tile's colours *)

(** C2 — Colour partition: in a plan that succeeds, for every frame and tile,
    the exporter's list [keys] holds exactly the keys of the tile's distinct
    opaque colours, one each, in ascending order of (R, G, B, A); the group
    of layer [c] is [keys[3c : 3c+3]]; the layers from [ceil(|keys|/3)] on
    have an empty group; the groups of all the layers, put together, are the
    tile's distinct opaque colours, each exactly once, and no key is in the
    groups of two layers. *)
Theorem color_partition (pc : PiskelController) (MAX_LAYERS n : nat)
    (groups : list (list (list (list string)))) :
  validImage pc → 1 ≤ MAX_LAYERS →
  planOf pc MAX_LAYERS = PlanOk n groups →
  ∀ fi ty tx, fi < getFrameCount pc → ty < getHeight pc / 8 → tx < getWidth pc / 8 →
    let keys := tileColorList (frameData pc fi) (getWidth pc) tx ty in
    let colors := opaqueColors (frameData pc fi) (getWidth pc) tx ty in
    let t := ty * (getWidth pc / 8) + tx in
    NoDup colors ∧
    (∀ c, c ∈ colors ↔ opaque c ∧ c ∈ tilePixels (frameData pc fi) (getWidth pc) tx ty) ∧
    (∀ c1 c2, c1 ∈ colors → c2 ∈ colors → colorKey c1 = colorKey c2 → c1 = c2) ∧
    keys ≡ₚ colorKey <$> colors ∧
    StronglySorted keyLe keys ∧
    (∀ c, c < n → getGroup groups c fi t = Some (slice3 keys c)) ∧
    (∀ c, JS.ceil_div3 (length keys) ≤ c → c < n → getGroup groups c fi t = Some []) ∧
    concat (tileGroups groups n fi t) ≡ₚ colorKey <$> colors ∧
    (∀ c1 c2 g1 g2 k, c1 < n → c2 < n → c1 ≠ c2 →
       getGroup groups c1 fi t = Some g1 → getGroup groups c2 fi t = Some g2 →
       k ∈ g1 → k ∉ g2).
Proof.
  intros Hvalid HML Hplan fi ty tx Hfi Hty Htx. cbv zeta.
  pose proof (validImage_planArgs pc Hvalid) as Hargs.
  unfold planOf in Hplan.
  destruct (buildLayeredPlan_ok _ _ _ _ _ _ _ _ _ Hplan) as (_ & _ & Hall & Hok).
  destruct (Hok HML) as [Hn Hget]. clear Hok.
  destruct Hargs as (Hw & Hh & Hwf).
  assert (Htx8 : tx * 8 + 8 ≤ getWidth pc) by lia.
  assert (Hty8 : ty * 8 + 8 ≤ getHeight pc) by lia.
  pose proof (tileColorList_colors _ _ _ (Hwf fi Hfi) _ _ Htx8 Hty8) as Hperm.
  assert (Hgroups : ∀ c, c < n →
    getGroup groups c fi (ty * (getWidth pc / 8) + tx)
    = Some (slice3 (tileColorList (frameData pc fi) (getWidth pc) tx ty) c)).
  { intros c Hc. by apply Hget. }
  split_and!.
  - apply NoDup_remove_dups.
  - intros c. unfold opaqueColors. by rewrite elem_of_remove_dups, list_elem_of_filter.
  - intros c1 c2 H1 H2.
    apply colorKey_inj;
      by apply (opaqueColors_byteColor _ _ _ (Hwf fi Hfi) _ _ Htx8 Hty8).
  - done.
  - by apply (tileColorList_sorted _ _ _ _ _ (Hwf fi Hfi)).
  - done.
  - intros c Hc Hcn. rewrite Hgroups by done. by rewrite slice3_beyond.
  - rewrite <- Hperm. unfold tileGroups.
    assert (Heq : (λ l, default [] (getGroup groups l fi (ty * (getWidth pc / 8) + tx)))
                    <$> seq 0 n
                  = slice3 (tileColorList (frameData pc fi) (getWidth pc) tx ty) <$> seq 0 n).
    { apply list_fmap_ext. intros i c Hc. apply lookup_seq in Hc as [-> Hc].
      by rewrite Hgroups. }
    rewrite Heq, concat_slice3, take_ge; [done|].
    destruct (Hall fi ty tx Hfi Hty Htx) as [_ Hchunks].
    unfold tileChunks, JS.ceil_div3 in Hchunks.
    set (len := length (tileColorList (frameData pc fi) (getWidth pc) tx ty)) in *.
    pose proof (Nat.div_mod_eq (len + 2) 3).
    pose proof (Nat.mod_upper_bound (len + 2) 3). lia.
  - intros c1 c2 g1 g2 k Hc1 Hc2 Hne Hg1 Hg2.
    rewrite Hgroups in Hg1, Hg2 by done. simplify_eq.
    apply slice3_disjoint; [apply tileColorList_NoDup|done].
Qed.

Lemma color_partition_witness :
  validImage tenColorImage ∧ 1 ≤ 4 ∧
  planOf tenColorImage 4 = PlanOk 4 tenColorGroups ∧
  concat (tileGroups tenColorGroups 4 0 0)
  ≡ₚ colorKey <$> opaqueColors (frameData tenColorImage 0) 8 0 0.
Proof.
  assert (Hvalid : validImage tenColorImage) by solve_validImage.
  assert (H4 : 1 ≤ 4) by lia.
  assert (Hplan : planOf tenColorImage 4 = PlanOk 4 tenColorGroups) by reflexivity.
  split_and!; [exact Hvalid|exact H4|exact Hplan|].
  assert (H01 : 0 < 1) by lia.
  exact (proj1 (proj2 (proj2 (proj2 (proj2 (proj2 (proj2 (proj2
    (color_partition tenColorImage 4 4 tenColorGroups Hvalid H4 Hplan 0 0 0 H01 H01 H01))))))))).
Defined.

(** ** Tile records *)

Lemma land3_range (v : Z) : (0 ≤ Z.land v 3 < 4)%Z.
Proof.
  change 3%Z with (Z.ones 2). rewrite Z.land_ones by lia.
  apply Z.mod_pos_bound. lia.
Qed.

Lemma land3_small (v : Z) : (0 ≤ v < 4)%Z → Z.land v 3 = v.
Proof.
  intros Hv. change 3%Z with (Z.ones 2). rewrite Z.land_ones by lia.
  apply Z.mod_small. lia.
Qed.

(** Four two-bit fields packed in a byte are read back unchanged. *)
Lemma fields_of_byte (a b c d : Z) :
  (0 ≤ a < 4)%Z → (0 ≤ b < 4)%Z → (0 ≤ c < 4)%Z → (0 ≤ d < 4)%Z →
  let v := Z.land (Z.lor (Z.lor (Z.lor (Z.lor 0 (Z.shiftl a 0)) (Z.shiftl b 2))
                                (Z.shiftl c 4)) (Z.shiftl d 6)) 255 in
  Z.land (Z.shiftr v 0) 3 = a ∧ Z.land (Z.shiftr v 2) 3 = b ∧
  Z.land (Z.shiftr v 4) 3 = c ∧ Z.land (Z.shiftr v 6) 3 = d ∧
  v = (a + 4 * b + 16 * c + 64 * d)%Z.
Proof.
  intros Ha Hb Hc Hd.
  assert (Ha' : (a = 0 ∨ a = 1 ∨ a = 2 ∨ a = 3)%Z) by lia.
  assert (Hb' : (b = 0 ∨ b = 1 ∨ b = 2 ∨ b = 3)%Z) by lia.
  assert (Hc' : (c = 0 ∨ c = 1 ∨ c = 2 ∨ c = 3)%Z) by lia.
  assert (Hd' : (d = 0 ∨ d = 1 ∨ d = 2 ∨ d = 3)%Z) by lia.
  clear Ha Hb Hc Hd.
  destruct Ha' as [->|[->|[->| ->]]], Hb' as [->|[->|[->| ->]]],
           Hc' as [->|[->|[->| ->]]], Hd' as [->|[->|[->| ->]]];
    vm_compute; done.
Qed.

Lemma buildMap_range (groupKeys : list string) (i : nat) (map : gmap string Z) k v :
  buildMap groupKeys i map !! k = Some v → map !! k = Some v ∨ (0 ≤ v < 4)%Z.
Proof.
  revert i map. induction groupKeys as [|key keys IH]; intros i map; simpl; [by left|].
  intros [Hv|Hv]%IH; [|by right].
  destruct (decide (key = k)) as [->|Hne].
  - rewrite lookup_insert_eq in Hv. injection Hv as <-. right. apply land3_range.
  - rewrite lookup_insert_ne in Hv by done. by left.
Qed.

Lemma pixelIndex_range (groupKeys : list string) (pix : list N) (idx : nat) :
  (0 ≤ pixelIndex (buildMap groupKeys 0 ∅) pix idx < 4)%Z.
Proof.
  unfold pixelIndex. case_bool_decide; [|lia].
  destruct (buildMap groupKeys 0 ∅ !! _) as [v|] eqn:Hv; [|lia].
  apply buildMap_range in Hv as [Hv|Hv]; [by rewrite lookup_empty in Hv|].
  destruct (v =? 0)%Z; lia.
Qed.

Lemma encode_bytes pix imgW x0 y0 groupKeys :
  encodeNgpcTile2bppLayered_ pix imgW x0 y0 groupKeys
  = y ← seq 0 8; block ← seq 0 2;
      [Z.land (packBlock (buildMap groupKeys 0 ∅) pix imgW x0 y0 y block) 255].
Proof. reflexivity. Qed.

Lemma encode_length pix imgW x0 y0 groupKeys :
  length (encodeNgpcTile2bppLayered_ pix imgW x0 y0 groupKeys) = 16.
Proof. reflexivity. Qed.

Lemma encode_lookup pix imgW x0 y0 groupKeys y block :
  y < 8 → block < 2 →
  encodeNgpcTile2bppLayered_ pix imgW x0 y0 groupKeys !! (y * 2 + block)
  = Some (Z.land (packBlock (buildMap groupKeys 0 ∅) pix imgW x0 y0 y block) 255).
Proof.
  intros Hy Hb. rewrite encode_bytes.
  do 8 (destruct y as [|y]; [do 2 (destruct block as [|block]; [reflexivity|]); lia|]).
  lia.
Qed.

(** The fields of the byte of row [y] and block [block]: field [k] holds the
    index of the pixel at column [startX - k]. *)
Lemma packBlock_fields pix imgW x0 y0 groupKeys y block :
  let startX := if bool_decide (block = 0) then 7 else 3 in
  let ci k := layerIndex pix imgW x0 y0 groupKeys (startX - k) y in
  let v := Z.land (packBlock (buildMap groupKeys 0 ∅) pix imgW x0 y0 y block) 255 in
  Z.land (Z.shiftr v 0) 3 = ci 0 ∧ Z.land (Z.shiftr v 2) 3 = ci 1 ∧
  Z.land (Z.shiftr v 4) 3 = ci 2 ∧ Z.land (Z.shiftr v 6) 3 = ci 3 ∧
  v = (ci 0%nat + 4 * ci 1%nat + 16 * ci 2%nat + 64 * ci 3%nat)%Z.
Proof.
  cbv zeta. unfold packBlock, layerIndex. simpl foldl.
  set (startX := if bool_decide (block = 0) then 7 else 3).
  pose proof (pixelIndex_range groupKeys pix (((y0 + y) * imgW + (x0 + (startX - 0))) * 4)) as H0.
  pose proof (pixelIndex_range groupKeys pix (((y0 + y) * imgW + (x0 + (startX - 1))) * 4)) as H1.
  pose proof (pixelIndex_range groupKeys pix (((y0 + y) * imgW + (x0 + (startX - 2))) * 4)) as H2.
  pose proof (pixelIndex_range groupKeys pix (((y0 + y) * imgW + (x0 + (startX - 3))) * 4)) as H3.
  rewrite !(land3_small (pixelIndex _ _ _)) by done.
  apply (fields_of_byte _ _ _ _ H0 H1 H2 H3).
Qed.

(** Reading a pixel back from the tile record gives the index the encoder
    computed for it. *)
Lemma tilePixelIndex_encode pix imgW x0 y0 groupKeys x y :
  x < 8 → y < 8 →
  tilePixelIndex (encodeNgpcTile2bppLayered_ pix imgW x0 y0 groupKeys) x y
  = layerIndex pix imgW x0 y0 groupKeys x y.
Proof.
  intros Hx Hy. unfold tilePixelIndex, byteOf, shiftOf.
  case_bool_decide as Hblock.
  - assert (H02 : 0 < 2) by lia.
    rewrite (list_lookup_total_correct _ _ _ (encode_lookup pix imgW x0 y0 groupKeys y 0 Hy H02)).
    pose proof (packBlock_fields pix imgW x0 y0 groupKeys y 0) as Hf. cbv zeta in Hf.
    rewrite bool_decide_eq_true_2 in Hf by done.
    destruct Hf as (F0 & F1 & F2 & F3 & _).
    assert (Hc : x = 7 ∨ x = 6 ∨ x = 5 ∨ x = 4) by lia.
    destruct Hc as [->|[->|[->| ->]]]; simpl; [exact F0|exact F1|exact F2|exact F3].
  - assert (H12 : 1 < 2) by lia.
    rewrite (list_lookup_total_correct _ _ _ (encode_lookup pix imgW x0 y0 groupKeys y 1 Hy H12)).
    pose proof (packBlock_fields pix imgW x0 y0 groupKeys y 1) as Hf. cbv zeta in Hf.
    rewrite bool_decide_eq_false_2 in Hf by done.
    destruct Hf as (F0 & F1 & F2 & F3 & _).
    assert (Hc : x = 3 ∨ x = 2 ∨ x = 1 ∨ x = 0) by lia.
    destruct Hc as [->|[->|[->| ->]]]; simpl; [exact F0|exact F1|exact F2|exact F3].
Qed.

(** ** Palettes *)

Lemma palette_shape (groupKeys : list string) :
  buildTilePaletteRgb444_ groupKeys
  = [0%Z; default 0%Z (keyRgb444 <$> groupKeys !! 0);
          default 0%Z (keyRgb444 <$> groupKeys !! 1);
          default 0%Z (keyRgb444 <$> groupKeys !! 2)].
Proof. destruct groupKeys as [|k0 [|k1 [|k2 ?]]]; reflexivity. Qed.

Lemma palette_length (groupKeys : list string) : length (buildTilePaletteRgb444_ groupKeys) = 4.
Proof. by rewrite palette_shape. Qed.

Lemma palette_slot (groupKeys : list string) (i : nat) :
  i < 3 →
  buildTilePaletteRgb444_ groupKeys !! (i + 1)
  = Some (default 0%Z (keyRgb444 <$> groupKeys !! i)).
Proof.
  intros Hi. rewrite palette_shape.
  destruct i as [|[|[|i]]]; [done|done|done|lia].
Qed.

Lemma toInt32_byte (v : N) : (v < 256)%N → JS.toInt32 (Some (Z.of_N v)) = Z.of_N v.
Proof.
  intros Hv. unfold JS.toInt32.
  rewrite Z.mod_small by lia. lia.
Qed.

Lemma keyRgb444_colorKey (c : Color) : byteColor c → keyRgb444 (colorKey c) = quantize c.
Proof.
  intros Hc. unfold keyRgb444.
  destruct (colorKey_channels c Hc) as (-> & -> & -> & _).
  destruct Hc as (Hr & Hg & Hb & _).
  unfold rgbToRgb444_, quantize, nibble.
  by rewrite !toInt32_byte.
Qed.

Lemma nibble_top_bits (v : N) : (v < 256)%N → nibble v = (Z.of_N v / 16)%Z ∧ (0 ≤ nibble v < 16)%Z.
Proof.
  intros Hv. unfold nibble.
  rewrite Z.shiftr_div_pow2 by lia. change (2 ^ 4)%Z with 16%Z.
  change 15%Z with (Z.ones 4). rewrite Z.land_ones by lia. change (2 ^ 4)%Z with 16%Z.
  assert (0 ≤ Z.of_N v / 16 < 16)%Z.
  { split; [apply Z.div_pos; lia|apply Z.div_lt_upper_bound; lia]. }
  rewrite Z.mod_small by done. done.
Qed.

Lemma packNibbles_check :
  forallb (λ b4, forallb (λ g4, forallb (λ r4,
      (packNibbles b4 g4 r4 =? 256 * b4 + 16 * g4 + r4)%Z)
    (seqZ 0 16)) (seqZ 0 16)) (seqZ 0 16) = true.
Proof. vm_compute. reflexivity. Qed.

Lemma packNibbles_sum (b4 g4 r4 : Z) :
  (0 ≤ b4 < 16)%Z → (0 ≤ g4 < 16)%Z → (0 ≤ r4 < 16)%Z →
  packNibbles b4 g4 r4 = (256 * b4 + 16 * g4 + r4)%Z.
Proof.
  intros Hb Hg Hr. pose proof packNibbles_check as H.
  rewrite forallb_forall in H.
  assert (Hin : ∀ v, (0 ≤ v < 16)%Z → In v (seqZ 0 16)).
  { intros v Hv. apply list_elem_of_In, elem_of_seqZ. lia. }
  specialize (H b4 (Hin b4 Hb)). rewrite forallb_forall in H.
  specialize (H g4 (Hin g4 Hg)). rewrite forallb_forall in H.
  specialize (H r4 (Hin r4 Hr)). by apply Z.eqb_eq in H.
Qed.

(** C6 — Palette construction: for every group of 0 to 3 colours, the
    palette built from their keys has 4 slots; slot 0 is 0, slot [i+1] is the
    RGB444 packing of [group[i]] for [i] below the length of the group, the
    remaining slots are 0; the packing of (r, g, b) is
    [(b>>4 & 0xF) << 8 | (g>>4 & 0xF) << 4 | (r>>4 & 0xF)], the value
    0b0000_BBBB_GGGG_RRRR made of the top four bits of each channel. *)
Theorem palette_construction (group : list Color) :
  length group ≤ 3 → Forall byteColor group →
  let pal := buildTilePaletteRgb444_ (colorKey <$> group) in
  length pal = 4 ∧
  pal !! 0 = Some 0%Z ∧
  (∀ i c, group !! i = Some c → pal !! (i + 1) = Some (quantize c)) ∧
  (∀ i, length group ≤ i → i < 3 → pal !! (i + 1) = Some 0%Z) ∧
  (∀ c, c ∈ group →
     let r := Z.of_N (red c) in
     let g := Z.of_N (green c) in
     let b := Z.of_N (blue c) in
     rgbToRgb444_ (Some r) (Some g) (Some b) = quantize c ∧
     quantize c
     = Z.lor (Z.lor (Z.shiftl (Z.land (Z.shiftr b 4) 15) 8)
                    (Z.shiftl (Z.land (Z.shiftr g 4) 15) 4))
             (Z.land (Z.shiftr r 4) 15) ∧
     quantize c = (256 * (b / 16) + 16 * (g / 16) + r / 16)%Z ∧
     (0 ≤ quantize c < 2 ^ 12)%Z).
Proof.
  intros Hlen Hbytes. cbv zeta. split_and!.
  - apply palette_length.
  - by rewrite palette_shape.
  - intros i c Hc.
    assert (i < 3) by (apply lookup_lt_Some in Hc; lia).
    rewrite palette_slot by done. rewrite list_lookup_fmap, Hc. simpl.
    f_equal. apply keyRgb444_colorKey. by eapply (Forall_lookup_1 _ _ _ _ Hbytes).
  - intros i Hi Hi3. rewrite palette_slot by done.
    rewrite list_lookup_fmap, (lookup_ge_None_2 group i) by done. done.
  - intros c Hc.
    assert (Hbc : byteColor c).
    { apply list_elem_of_lookup in Hc as [i Hc]. by eapply (Forall_lookup_1 _ _ _ _ Hbytes). }
    destruct Hbc as (Hr & Hg & Hb & Ha).
    destruct (nibble_top_bits _ Hr) as [Hr4 Hr16].
    destruct (nibble_top_bits _ Hg) as [Hg4 Hg16].
    destruct (nibble_top_bits _ Hb) as [Hb4 Hb16].
    assert (Hsum : quantize c
      = (256 * (Z.of_N (blue c) / 16) + 16 * (Z.of_N (green c) / 16) + Z.of_N (red c) / 16)%Z).
    { unfold quantize. fold (packNibbles (nibble (blue c)) (nibble (green c)) (nibble (red c))).
      rewrite packNibbles_sum by done. by rewrite Hr4, Hg4, Hb4. }
    split_and!.
    + unfold rgbToRgb444_, quantize, nibble. by rewrite !toInt32_byte.
    + reflexivity.
    + exact Hsum.
    + rewrite Hsum. lia.
    + rewrite Hsum. rewrite <- Hr4, <- Hg4, <- Hb4. change (2 ^ 12)%Z with 4096%Z. lia.
Qed.

Lemma palette_construction_witness :
  buildTilePaletteRgb444_ (colorKey <$> [RGBA 255 0 16 255; RGBA 1 2 3 4]) !! 0 = Some 0%Z.
Proof.
  assert (Hlen : length [RGBA 255 0 16 255; RGBA 1 2 3 4] ≤ 3) by (simpl; lia).
  assert (Hbytes : Forall byteColor [RGBA 255 0 16 255; RGBA 1 2 3 4]).
  { repeat constructor; simpl; lia. }
  exact (proj1 (proj2 (palette_construction _ Hlen Hbytes))).
Defined.

(** ** The index of a pixel *)

Lemma buildMap_lookup_notin (groupKeys : list string) (i : nat) (map : gmap string Z) k :
  k ∉ groupKeys → buildMap groupKeys i map !! k = map !! k.
Proof.
  revert i map. induction groupKeys as [|key keys IH]; intros i map Hk; simpl; [done|].
  apply not_elem_of_cons in Hk as [Hne Hk].
  rewrite IH by done. by rewrite lookup_insert_ne.
Qed.

Lemma buildMap_lookup_in (groupKeys : list string) (i j : nat) (map : gmap string Z) k :
  NoDup groupKeys → groupKeys !! j = Some k →
  buildMap groupKeys i map !! k = Some (Z.land (Z.of_nat (i + j) + 1) 3).
Proof.
  revert i j map. induction groupKeys as [|key keys IH]; intros i j map Hnd Hj; [done|].
  apply NoDup_cons in Hnd as [Hfresh Hnd]. simpl. destruct j as [|j]; simpl in Hj.
  - injection Hj as ->. rewrite buildMap_lookup_notin by done.
    rewrite lookup_insert_eq. by rewrite Nat.add_0_r.
  - rewrite (IH (S i) j) by done. do 3 f_equal. lia.
Qed.

(** The rule for a group without repetition and of at most three keys, on
    the bytes read at [idx]. *)
Lemma pixelIndex_rule (groupKeys : list string) (pix : list N) (idx : nat) :
  NoDup groupKeys → length groupKeys ≤ 3 →
  let key := rgbaKey_ (pix !! idx) (pix !! (idx + 1)) (pix !! (idx + 2)) (pix !! (idx + 3)) in
  let ci := pixelIndex (buildMap groupKeys 0 ∅) pix idx in
  (pix !! (idx + 3) = Some 0%N ∨ key ∉ groupKeys → ci = 0%Z) ∧
  (∀ j, pix !! (idx + 3) ≠ Some 0%N → groupKeys !! j = Some key → ci = (1 + Z.of_nat j)%Z).
Proof.
  intros Hnd Hlen. cbv zeta. unfold pixelIndex. split.
  - intros [Ha|Hk].
    + by rewrite bool_decide_eq_false_2 by (by intros ?).
    + case_bool_decide; [|done]. by rewrite buildMap_lookup_notin, lookup_empty.
  - intros j Ha Hj. rewrite bool_decide_eq_true_2 by done.
    rewrite (buildMap_lookup_in _ 0 j) by done.
    assert (j < 3) by (apply lookup_lt_Some in Hj; lia).
    rewrite land3_small by lia. simpl.
    destruct (Z.eqb_spec (Z.of_nat j + 1) 0); lia.
Qed.

(** The same rule on the colour of the pixel, in a well-formed frame. *)
Lemma layerIndex_rule width height pix x0 y0 groupKeys x y :
  wfFrame width height pix → x0 + x < width → y0 + y < height →
  NoDup groupKeys → length groupKeys ≤ 3 →
  let c := pixelAt pix width (x0 + x) (y0 + y) in
  let ci := layerIndex pix width x0 y0 groupKeys x y in
  (alpha c = 0%N ∨ colorKey c ∉ groupKeys → ci = 0%Z) ∧
  (∀ j, alpha c ≠ 0%N → groupKeys !! j = Some (colorKey c) → ci = (1 + Z.of_nat j)%Z) ∧
  (0 ≤ ci < 4)%Z.
Proof.
  intros Hwf Hx Hy Hnd Hlen. cbv zeta. unfold layerIndex.
  destruct (pixelAt_lookup _ _ _ Hwf _ _ Hx Hy) as (Hr & Hg & Hb & Ha).
  cbv zeta in Hr, Hg, Hb, Ha.
  destruct (pixelIndex_rule groupKeys pix (((y0 + y) * width + (x0 + x)) * 4) Hnd Hlen)
    as [Hzero Hpos].
  cbv zeta in Hzero, Hpos. rewrite Hr, Hg, Hb, Ha in Hzero, Hpos.
  fold (colorKey (pixelAt pix width (x0 + x) (y0 + y))) in Hzero, Hpos.
  split_and!.
  - intros [H0|Hk]; apply Hzero; [left; by rewrite H0|by right].
  - intros j H0 Hj. apply Hpos; [congruence|done].
  - apply pixelIndex_range.
  - apply pixelIndex_range.
Qed.

(** ** Interning palettes *)

Lemma samePalette_eq (p q : list Z) :
  length p = 4 → length q = 4 → samePalette p q = true → p = q.
Proof.
  destruct p as [|p0 [|p1 [|p2 [|p3 [|]]]]]; try done.
  destruct q as [|q0 [|q1 [|q2 [|q3 [|]]]]]; try done.
  intros _ _. unfold samePalette. simpl.
  rewrite !andb_true_iff, !bool_decide_eq_true. intros [[[? ?] ?] ?]. congruence.
Qed.

Lemma samePalette_refl (p : list Z) : samePalette p p = true.
Proof. unfold samePalette. by rewrite !bool_decide_eq_true_2. Qed.

Lemma findPalette_Some bank pal4 i0 i :
  findPalette bank pal4 i0 = Some i →
  i0 ≤ i ∧
  (∃ p, bank !! (i - i0) = Some p ∧ samePalette p pal4 = true) ∧
  ∀ j p, j < i - i0 → bank !! j = Some p → samePalette p pal4 = false.
Proof.
  revert i0. induction bank as [|p bank IH]; intros i0; simpl; [done|].
  destruct (samePalette p pal4) eqn:Hp.
  - intros [= <-]. rewrite Nat.sub_diag. split_and!; [lia|by exists p|]. intros; lia.
  - intros (Hle & (q & Hq & Hsame) & Hbefore)%IH.
    replace (i - i0) with (S (i - S i0)) by lia.
    split_and!; [lia|by exists q|].
    intros [|j] p' Hj; simpl; [by intros [= <-]|].
    apply Hbefore. lia.
Qed.

Lemma findPalette_None bank pal4 i0 :
  findPalette bank pal4 i0 = None ↔ ∀ p, p ∈ bank → samePalette p pal4 = false.
Proof.
  revert i0. induction bank as [|p bank IH]; intros i0; simpl.
  - split; [|done]. by intros _ p ?%elem_of_nil.
  - destruct (samePalette p pal4) eqn:Hp.
    + split; [done|]. intros H. rewrite H in Hp; [done|]. left.
    + rewrite IH. split.
      * intros H q [->|?]%elem_of_cons; [done|by apply H].
      * intros H q ?. apply H. by right.
Qed.

(** What a call of [findOrAddPalette_] does to a bank of 4-slot palettes
    within its capacity. *)
Lemma findOrAddPalette_ok maxPals bank pal4 bank' palId :
  bankOk maxPals bank → length pal4 = 4 →
  findOrAddPalette_ bank pal4 maxPals = (bank', palId) →
  (palId = (-1)%Z ∧ bank' = bank ∧ length bank = maxPals ∧ findPalette bank pal4 0 = None) ∨
  (∃ id, palId = Z.of_nat id ∧ bank' !! id = Some pal4 ∧
         bankOk maxPals bank' ∧ bank `prefix_of` bank').
Proof.
  intros [Hcap Hlen4] Hpal. unfold findOrAddPalette_.
  destruct (findPalette bank pal4 0) as [i|] eqn:Hfind.
  - intros [= <- <-]. right. exists i.
    apply findPalette_Some in Hfind as (_ & (p & Hp & Hsame) & _).
    rewrite Nat.sub_0_r in Hp.
    apply samePalette_eq in Hsame as ->;
      [|by apply (Forall_lookup_1 _ _ _ _ Hlen4 Hp)|done].
    split_and!; done.
  - case_bool_decide as Hfull.
    + intros [= <- <-]. left. split_and!; [done|done|lia|done].
    + intros [= <- <-]. right. exists (length bank).
      split_and!.
      * rewrite length_app. simpl. lia.
      * by rewrite lookup_app_r, Nat.sub_diag by lia.
      * split; [rewrite length_app; simpl; lia|].
        apply Forall_app. split; [done|]. by apply Forall_singleton.
      * by apply prefix_app_r.
Qed.

(** ** Pass 2 *)

Section Pass2.

Context (pc : PiskelController) (groups : list (list (list (list string)))).
Context (maxPals width frameCount tilesX tilesY : nat).

Local Abbreviation leavesAt l fi ty tx e :=
  (getGroup groups l fi (ty * tilesX + tx) = None ∧ e = TypeError ∨
   paletteOverflowAt groups maxPals tilesX l fi ty tx e).
Local Abbreviation tileBody l fi ty :=
  (λ tx st, exportTile groups maxPals (frameData pc fi) width tilesX l fi ty tx st).
Local Abbreviation rowBody l fi := (λ ty st, JS.for_upto tilesX (tileBody l fi ty) st).

Lemma cellOk_grow l fi bank bank' ids ids' tiles tiles' ty tx :
  bank `prefix_of` bank' →
  cellOk pc groups width tilesX l fi bank ids tiles ty tx →
  cellOk pc groups width tilesX l fi bank' (ids ++ ids') (tiles ++ tiles') ty tx.
Proof.
  intros Hpre (group & id & Hg & Hid & Hbank & Htile).
  exists group, id. split_and!; [done| | |].
  - by apply lookup_app_l_Some.
  - by eapply prefix_lookup_Some.
  - by apply lookup_app_l_Some.
Qed.

(** One tile: its palette is interned and its record appended, or the
    function returns. *)
Lemma exportTile_step l fi bank0 ty tx st :
  tx < tilesX →
  tileInv pc groups maxPals width tilesX l fi bank0 ty tx st →
  match exportTile groups maxPals (frameData pc fi) width tilesX l fi ty tx st with
  | inr st' => tileInv pc groups maxPals width tilesX l fi bank0 ty (S tx) st'
  | inl e => leavesAt l fi ty tx e
  end.
Proof.
  intros Htx. destruct st as [[bank ids] tiles].
  intros (Hbank & Hpre & Hids & Htiles & Hcells). simpl in *.
  unfold exportTile.
  destruct (getGroup groups l fi (ty * tilesX + tx)) as [group|] eqn:Hg; [|by left].
  destruct (findOrAddPalette_ bank (buildTilePaletteRgb444_ group) maxPals)
    as [bank' palId] eqn:Hfind.
  pose proof Hfind as Hfind'.
  apply (findOrAddPalette_ok maxPals) in Hfind'
    as [(-> & -> & Hfull & Hnone)|(id & -> & Hid & Hbank' & Hgrow)];
    [| |done|apply palette_length].
  - simpl. right. exists bank, group. split_and!; done.
  - assert (Hpos : (Z.of_nat id <? 0)%Z = false) by (apply Z.ltb_ge; lia).
    rewrite Hpos. unfold tileInv. simpl.
    split_and!; [done| |rewrite length_app; simpl; lia|rewrite length_app; simpl; lia|].
    + by etrans.
    + intros ty' tx' Htx' Hlt.
      destruct (decide (ty' * tilesX + tx' = ty * tilesX + tx)) as [Heq|Hne].
      * apply tileId_inj in Heq as [-> ->]; [|done|done].
        exists group, id. split_and!; [done| |done|].
        -- rewrite lookup_app_r by lia. by rewrite Hids, Nat.sub_diag.
        -- rewrite lookup_app_r by lia. by rewrite Htiles, Nat.sub_diag.
      * apply (cellOk_grow _ _ bank); [done|]. apply Hcells; [done|lia].
Qed.

(** The tiles of a row. *)
Lemma export_row l fi bank0 ty st :
  tileInv pc groups maxPals width tilesX l fi bank0 ty 0 st →
  match JS.for_upto tilesX (tileBody l fi ty) st with
  | inr st' => tileInv pc groups maxPals width tilesX l fi bank0 (S ty) 0 st'
  | inl e => ∃ tx, tx < tilesX ∧ leavesAt l fi ty tx e
  end.
Proof.
  intros Hst.
  apply (sum_match_impl (tileInv pc groups maxPals width tilesX l fi bank0 ty tilesX)).
  { intros s. unfold tileInv. by replace (S ty * tilesX + 0) with (ty * tilesX + tilesX) by lia. }
  apply (for_upto_match (λ tx st, tileInv pc groups maxPals width tilesX l fi bank0 ty tx st));
    [done|].
  intros tx s Htx Hs.
  pose proof (exportTile_step l fi bank0 ty tx s Htx Hs) as Hstep.
  destruct (exportTile _ _ _ _ _ _ _ _ _ s); [by exists tx|done].
Qed.

(** The two tile loops of a frame. *)
Lemma frame_tile_loops l fi bank0 :
  bankOk maxPals bank0 →
  match JS.for_upto tilesY (rowBody l fi) (bank0, [], []) with
  | inr st => tileInv pc groups maxPals width tilesX l fi bank0 tilesY 0 st
  | inl e => ∃ ty tx, ty < tilesY ∧ tx < tilesX ∧ leavesAt l fi ty tx e
  end.
Proof.
  intros Hbank0.
  apply (for_upto_match (λ ty st, tileInv pc groups maxPals width tilesX l fi bank0 ty 0 st)).
  { unfold tileInv. simpl. split_and!; [done|done|done|done|]. intros; lia. }
  intros ty s Hty Hs.
  pose proof (export_row l fi bank0 ty s Hs) as Hrow.
  destruct (JS.for_upto tilesX _ s); [|done].
  destruct Hrow as (tx & ? & ?). by exists ty, tx.
Qed.

(** One frame: a row of palette ids and a row of tiles more. *)
Lemma exportFrame_step l fi st :
  frameInv pc groups maxPals width tilesX tilesY l fi st →
  match exportFrame pc groups maxPals width tilesX tilesY l fi st with
  | inr st' => frameInv pc groups maxPals width tilesX tilesY l (S fi) st'
  | inl e => ∃ ty tx, ty < tilesY ∧ tx < tilesX ∧ leavesAt l fi ty tx e
  end.
Proof.
  destruct st as [[bank palIdMap] tiles].
  intros (Hbank & Hids & Htiles & Hcells). simpl in *.
  unfold exportFrame.
  pose proof (frame_tile_loops l fi bank Hbank) as Hloops.
  destruct (JS.for_upto tilesY _ _) as [e|[[bank' ids] frameTiles]]; [done|].
  destruct Hloops as (Hbank' & Hpre & Hlen1 & Hlen2 & Hnew). simpl in *.
  unfold frameInv. simpl.
  split_and!; [done|rewrite length_app; simpl; lia|rewrite length_app; simpl; lia|].
  intros fi' ty tx Hfi' Hty Htx.
  destruct (decide (fi' = fi)) as [->|Hne].
  - exists ids, frameTiles. split_and!.
    + rewrite lookup_app_r by lia. by rewrite Hids, Nat.sub_diag.
    + rewrite lookup_app_r by lia. by rewrite Htiles, Nat.sub_diag.
    + apply Hnew; [done|]. pose proof (tileId_lt tilesX tilesY ty tx Hty Htx). lia.
  - destruct (Hcells fi' ty tx) as (ids' & ft' & Hi & Ht & Hcell); [lia|done|done|].
    exists ids', ft'. split_and!; [by apply lookup_app_l_Some|by apply lookup_app_l_Some|].
    destruct Hcell as (group & id & ? & ? & ? & ?).
    exists group, id. split_and!; [done|done| |done]. by eapply prefix_lookup_Some.
Qed.

(** One layer: a bank, a map of palette ids and a table of tiles more. *)
Lemma exportLayer_step l st :
  layerInv pc groups maxPals width frameCount tilesX tilesY l st →
  match exportLayer pc groups maxPals width frameCount tilesX tilesY l st with
  | inr st' => layerInv pc groups maxPals width frameCount tilesX tilesY (S l) st'
  | inl e => ∃ fi ty tx, fi < frameCount ∧ ty < tilesY ∧ tx < tilesX ∧ leavesAt l fi ty tx e
  end.
Proof.
  destruct st as [[palettes palIdMaps] tiles].
  intros (Hlen1 & Hlen2 & Hlen3 & Hcells). simpl in *.
  unfold exportLayer.
  assert (Hframes :
    match JS.for_upto frameCount (exportFrame pc groups maxPals width tilesX tilesY l)
            ([], [], []) with
    | inr st => frameInv pc groups maxPals width tilesX tilesY l frameCount st
    | inl e => ∃ fi ty tx, fi < frameCount ∧ ty < tilesY ∧ tx < tilesX ∧ leavesAt l fi ty tx e
    end).
  { apply (for_upto_match (λ fi st, frameInv pc groups maxPals width tilesX tilesY l fi st)).
    { unfold frameInv, bankOk. simpl. split_and!; [lia|done|done|done|]. intros; lia. }
    intros fi s Hfi Hs. pose proof (exportFrame_step l fi s Hs) as Hstep.
    destruct (exportFrame _ _ _ _ _ _ _ _ s); [|done].
    destruct Hstep as (ty & tx & ? & ? & ?). by exists fi, ty, tx. }
  destruct (JS.for_upto frameCount _ _) as [e|[[bank palIdMap] layerTiles]]; [done|].
  destruct Hframes as (Hbank & Hl1 & Hl2 & Hnew). simpl in *.
  unfold layerInv. simpl.
  split_and!; [rewrite length_app; simpl; lia|rewrite length_app; simpl; lia
              |rewrite length_app; simpl; lia|].
  intros l' fi ty tx Hl' Hfi Hty Htx.
  destruct (decide (l' = l)) as [->|Hne].
  - destruct (Hnew fi ty tx Hfi Hty Htx) as (ids & ft & Hi & Ht & Hcell).
    exists bank, palIdMap, layerTiles, ids, ft. split_and!; try done.
    + rewrite lookup_app_r by lia. by rewrite Hlen1, Nat.sub_diag.
    + rewrite lookup_app_r by lia. by rewrite Hlen2, Nat.sub_diag.
    + rewrite lookup_app_r by lia. by rewrite Hlen3, Nat.sub_diag.
  - destruct (Hcells l' fi ty tx) as (b & m & lt & ids & ft & ? & ? & ? & ? & ? & ? & ?);
      [lia|done|done|done|].
    exists b, m, lt, ids, ft. split_and!; try done; by apply lookup_app_l_Some.
Qed.

(** The three loops of pass 2. *)
Lemma pass2_loops n :
  match
    JS.for_upto n (exportLayer pc groups maxPals width frameCount tilesX tilesY) ([], [], [])
  with
  | inr st => layerInv pc groups maxPals width frameCount tilesX tilesY n st
  | inl e => pass2Leaves groups maxPals frameCount tilesX tilesY n e
  end.
Proof.
  apply (for_upto_match
           (λ l st, layerInv pc groups maxPals width frameCount tilesX tilesY l st)).
  { unfold layerInv. simpl. split_and!; [done|done|done|]. intros; lia. }
  intros l s Hl Hs. pose proof (exportLayer_step l s Hs) as Hstep.
  destruct (exportLayer _ _ _ _ _ _ _ _ s); [|done].
  destruct Hstep as (fi & ty & tx & ? & ? & ? & ?). by exists l, fi, ty, tx.
Qed.

End Pass2.

(** ** The whole export *)

(** What [onDownloadCFileClick_] makes of a valid image. *)
Lemma export_spec pc MAX_LAYERS MAX_PALS :
  validImage pc → 1 ≤ MAX_LAYERS →
  match onDownloadCFileClick_ pc MAX_LAYERS MAX_PALS with
  | inr T =>
      ∃ groups,
        planOf pc MAX_LAYERS = PlanOk (layerCount T) groups ∧
        layerInv pc groups MAX_PALS (getWidth pc) (getFrameCount pc)
                 (getWidth pc / 8) (getHeight pc / 8) (layerCount T)
                 (perLayerPalettes T, perLayerPalIdMap T, perLayerTiles T)
  | inl e =>
      (∃ msg, planOf pc MAX_LAYERS = PlanFailed msg ∧ e = Alert msg) ∨
      (∃ n groups l fi ty tx,
         planOf pc MAX_LAYERS = PlanOk n groups ∧
         l < n ∧ fi < getFrameCount pc ∧ ty < getHeight pc / 8 ∧ tx < getWidth pc / 8 ∧
         paletteOverflowAt groups MAX_PALS (getWidth pc / 8) l fi ty tx e)
  end.
Proof.
  intros Hvalid HML. pose proof Hvalid as (Hw & Hh & _).
  unfold onDownloadCFileClick_, planOf.
  case_bool_decide as Hdim; [destruct Hdim; done|].
  destruct (buildLayeredPlan_ _ _ _ _ _ _ _) as [msg|n groups] eqn:Hplan.
  { left. by exists msg. }
  pose proof (pass2_loops pc groups MAX_PALS (getWidth pc) (getFrameCount pc)
                (getWidth pc / 8) (getHeight pc / 8) n) as Hloops.
  destruct (JS.for_upto n _ _) as [e|[[pals ids] tiles]].
  - right. destruct Hloops as (l & fi & ty & tx & Hl & Hfi & Hty & Htx & Hleave).
    exists n, groups, l, fi, ty, tx. split_and!; try done.
    destruct Hleave as [[Hnone _]|Hover]; [|done].
    destruct (buildLayeredPlan_ok _ _ _ _ _ _ _ _ _ Hplan) as (_ & _ & _ & Hok).
    destruct (Hok HML) as [_ Hget]. rewrite Hget in Hnone by done. done.
  - simpl. by exists groups.
Qed.

(** The tables of an export that succeeds, tile by tile. *)
Lemma export_cell pc MAX_LAYERS MAX_PALS T :
  validImage pc → 1 ≤ MAX_LAYERS →
  onDownloadCFileClick_ pc MAX_LAYERS MAX_PALS = inr T →
  ∃ groups,
    planOf pc MAX_LAYERS = PlanOk (layerCount T) groups ∧
    length (perLayerPalettes T) = layerCount T ∧
    ∀ l fi ty tx,
      l < layerCount T → fi < getFrameCount pc →
      ty < getHeight pc / 8 → tx < getWidth pc / 8 →
      let t := ty * (getWidth pc / 8) + tx in
      let group := slice3 (tileColorList (frameData pc fi) (getWidth pc) tx ty) l in
      getGroup groups l fi t = Some group ∧
      bankOk MAX_PALS (perLayerPalettes T !!! l) ∧
      (0 ≤ paletteIdAt T l fi t < Z.of_nat (length (perLayerPalettes T !!! l)))%Z ∧
      paletteAt T l (paletteIdAt T l fi t) = buildTilePaletteRgb444_ group ∧
      tileAt T l fi t
      = encodeNgpcTile2bppLayered_ (frameData pc fi) (getWidth pc) (tx * 8) (ty * 8) group.
Proof.
  intros Hvalid HML Hexp.
  pose proof (export_spec pc MAX_LAYERS MAX_PALS Hvalid HML) as Hspec.
  rewrite Hexp in Hspec. destruct Hspec as (groups & Hplan & Hinv).
  exists groups. split; [done|].
  destruct Hinv as (Hlen & _ & _ & Hcells). cbn [fst snd] in *. split; [done|].
  intros l fi ty tx Hl Hfi Hty Htx. cbv zeta.
  destruct (Hcells l fi ty tx Hl Hfi Hty Htx)
    as (bank & palIdMap & layerTiles & ids & ft & Hb & Hbank & Hm & Hlt & Hids & Hft & Hcell).
  destruct Hcell as (group & id & Hg & Hid & Hpal & Htile).
  unfold planOf in Hplan.
  destruct (buildLayeredPlan_ok _ _ _ _ _ _ _ _ _ Hplan) as (_ & _ & _ & Hok).
  destruct (Hok HML) as [_ Hget].
  rewrite (Hget fi ty tx l Hfi Hty Htx Hl) in Hg. injection Hg as <-.
  unfold paletteIdAt, paletteAt, tileAt.
  rewrite (list_lookup_total_correct _ _ _ Hb), (list_lookup_total_correct _ _ _ Hm),
    (list_lookup_total_correct _ _ _ Hlt), (list_lookup_total_correct _ _ _ Hids),
    (list_lookup_total_correct _ _ _ Hft), (list_lookup_total_correct _ _ _ Hid),
    (list_lookup_total_correct _ _ _ Htile).
  rewrite Nat2Z.id, (list_lookup_total_correct _ _ _ Hpal).
  split_and!; try done.
  - by apply Hget.
  - lia.
  - apply lookup_lt_Some in Hpal. lia.
Qed.

(** ** Compositing the layers *)

Lemma draw_transparent {A} (f : option A → nat → option A) (ls : list nat) (b : option A) :
  (∀ l b', l ∈ ls → f b' l = b') → foldl f b ls = b.
Proof.
  revert b. induction ls as [|l ls IH]; intros b Hall; simpl; [done|].
  rewrite Hall by left. apply IH. intros l' b' Hl'. apply Hall. by right.
Qed.

Lemma draw_one {A} (f : option A → nat → option A) (ls : list nat) (b : option A) l0 v :
  l0 ∈ ls → (∀ b', f b' l0 = Some v) → (∀ l b', l ∈ ls → l ≠ l0 → f b' l = b') →
  foldl f b ls = Some v.
Proof.
  intros Hin Hl0 Hother.
  assert (Hkeep : ∀ ls', (∀ l, l ∈ ls' → l ∈ ls) → foldl f (Some v) ls' = Some v).
  { induction ls' as [|l ls' IH]; intros Hsub; simpl; [done|].
    destruct (decide (l = l0)) as [->|Hne].
    - rewrite Hl0. apply IH. intros l' Hl'. apply Hsub. by right.
    - rewrite Hother; [|apply Hsub; left|done]. apply IH. intros l' Hl'. apply Hsub. by right. }
  revert b. induction ls as [|l ls IH]; intros b; simpl; [by apply elem_of_nil in Hin|].
  destruct (decide (l = l0)) as [->|Hne].
  - rewrite Hl0. apply Hkeep. intros l' Hl'. by right.
  - rewrite Hother; [|left|done].
    apply elem_of_cons in Hin as [->|Hin]; [done|].
    apply IH; [done| |].
    + intros l' b' Hl' Hne'. apply Hother; [by right|done].
    + intros ls' Hsub. apply Hkeep. intros l' Hl'. right. by apply Hsub.
Qed.

Lemma pixel_in_tile (width px : nat) :
  width mod 8 = 0 → px < width →
  px / 8 < width / 8 ∧ px / 8 * 8 + px mod 8 = px ∧ px mod 8 < 8.
Proof.
  intros Hw Hpx.
  pose proof (Nat.div_mod_eq width 8). pose proof (Nat.div_mod_eq px 8).
  pose proof (Nat.mod_upper_bound px 8). lia.
Qed.

(** C1 — Round-trip reconstruction: for every image that is exported,
    compositing all the layers in order (layer 0 first, each further layer
    drawn over it at the same tile position, with the palette the layer
    gives the tile, index 0 being transparent) yields, for every source
    pixel whose alpha is not 0, the RGB444 quantization of its colour, and
    yields transparent for every source pixel whose alpha is 0. *)
Theorem round_trip (pc : PiskelController) (MAX_LAYERS MAX_PALS : nat) (T : Tables) :
  validImage pc → 1 ≤ MAX_LAYERS →
  onDownloadCFileClick_ pc MAX_LAYERS MAX_PALS = inr T →
  ∀ fi px py, fi < getFrameCount pc → px < getWidth pc → py < getHeight pc →
    let c := pixelAt (frameData pc fi) (getWidth pc) px py in
    (alpha c ≠ 0%N → composite T (getWidth pc / 8) fi px py = Some (quantize c)) ∧
    (alpha c = 0%N → composite T (getWidth pc / 8) fi px py = None).
Proof.
  intros Hvalid HML Hexp fi px py Hfi Hpx Hpy. cbv zeta.
  destruct (export_cell pc MAX_LAYERS MAX_PALS T Hvalid HML Hexp) as (groups & Hplan & _ & Hcell).
  pose proof Hvalid as (Hw & Hh & Hwf).
  destruct (pixel_in_tile _ _ Hw Hpx) as (Htx & Hxeq & Hx).
  destruct (pixel_in_tile _ _ Hh Hpy) as (Hty & Hyeq & Hy).
  set (tx := px / 8) in *. set (ty := py / 8) in *.
  set (x := px mod 8) in *. set (y := py mod 8) in *.
  set (pix := frameData pc fi) in *. set (width := getWidth pc) in *.
  set (keys := tileColorList pix width tx ty).
  assert (Hnd : NoDup keys) by apply tileColorList_NoDup.
  assert (Htx8 : tx * 8 + 8 ≤ width).
  { pose proof (Nat.div_mod_eq width 8). unfold width in *. lia. }
  assert (Hty8 : ty * 8 + 8 ≤ getHeight pc).
  { pose proof (Nat.div_mod_eq (getHeight pc) 8). lia. }
  (* what layer [l] draws at the pixel *)
  assert (Hdraw : ∀ l, l < layerCount T →
    let ci := layerIndex pix width (tx * 8) (ty * 8) (slice3 keys l) x y in
    ∀ b, drawLayer T (width / 8) fi px py b l
         = if (ci =? 0)%Z then b
           else Some (buildTilePaletteRgb444_ (slice3 keys l) !!! Z.to_nat ci)).
  { intros l Hl ci b. unfold drawLayer.
    fold tx ty x y.
    destruct (Hcell l fi ty tx Hl Hfi Hty Htx) as (_ & _ & _ & Hpal & Htile).
    cbv zeta in Hpal, Htile. fold pix width keys in Hpal, Htile.
    rewrite Hpal, Htile, tilePixelIndex_encode by done. done. }
  assert (Hgroup : ∀ l, NoDup (slice3 keys l) ∧ length (slice3 keys l) ≤ 3).
  { intros l. by apply slice3_NoDup. }
  assert (Hrule : ∀ l,
    let c := pixelAt pix width px py in
    let ci := layerIndex pix width (tx * 8) (ty * 8) (slice3 keys l) x y in
    (alpha c = 0%N ∨ colorKey c ∉ slice3 keys l → ci = 0%Z) ∧
    (∀ j, alpha c ≠ 0%N → slice3 keys l !! j = Some (colorKey c) → ci = (1 + Z.of_nat j)%Z) ∧
    (0 ≤ ci < 4)%Z).
  { intros l. destruct (Hgroup l) as [Hnd' Hlen'].
    pose proof (layerIndex_rule width (getHeight pc) pix (tx * 8) (ty * 8) (slice3 keys l) x y
                  (Hwf fi Hfi)) as Hr.
    rewrite Hxeq, Hyeq in Hr. apply Hr; done. }
  unfold composite. split.
  - intros Hop.
    (* the position of the colour in the list of the tile *)
    assert (Hin : colorKey (pixelAt pix width px py) ∈ keys).
    { apply elem_of_tileColorList. exists y, x. split_and!; [done|done|].
      apply (opaqueKeyAt_pixel _ _ _ (Hwf fi Hfi) _ _ Htx8 Hty8 _ _ _ Hy Hx).
      rewrite Hxeq, Hyeq. done. }
    apply list_elem_of_lookup in Hin as [i Hi].
    pose proof (slice3_lookup _ _ _ Hi) as Hslot.
    assert (Hl0 : i / 3 < layerCount T).
    { unfold planOf in Hplan.
      destruct (buildLayeredPlan_ok _ _ _ _ _ _ _ _ _ Hplan) as (_ & _ & Hall & _).
      destruct (Hall fi ty tx Hfi Hty Htx) as [_ Hchunks].
      unfold tileChunks, JS.ceil_div3 in Hchunks. fold pix width keys in Hchunks.
      apply lookup_lt_Some in Hi.
      pose proof (Nat.div_mod_eq i 3). pose proof (Nat.mod_upper_bound i 3).
      pose proof (Nat.div_mod_eq (length keys + 2) 3).
      pose proof (Nat.mod_upper_bound (length keys + 2) 3). lia. }
    assert (Hj : i mod 3 < 3) by (apply Nat.mod_upper_bound; lia).
    apply (draw_one _ _ _ (i / 3)).
    + apply elem_of_seq. lia.
    + intros b. rewrite Hdraw by done. cbv zeta.
      destruct (Hrule (i / 3)) as (_ & Hpos & _). cbv zeta in Hpos.
      rewrite (Hpos (i mod 3) Hop Hslot).
      destruct (Z.eqb_spec (1 + Z.of_nat (i mod 3)) 0) as [?|_]; [lia|].
      f_equal. replace (Z.to_nat (1 + Z.of_nat (i mod 3))) with (i mod 3 + 1) by lia.
      apply list_lookup_total_correct.
      rewrite palette_slot by done. rewrite Hslot. simpl. f_equal.
      apply keyRgb444_colorKey.
      apply (pixelAt_byteColor _ _ _ (Hwf fi Hfi) _ _ Hpx Hpy).
    + intros l b [_ Hl]%elem_of_seq Hne. rewrite Hdraw by lia. cbv zeta.
      destruct (Hrule l) as (Hzero & _ & _). cbv zeta in Hzero.
      rewrite Hzero; [done|]. right.
      apply (slice3_disjoint keys (i / 3) l _ Hnd); [done|].
      apply list_elem_of_lookup. by exists (i mod 3).
  - intros Htr. apply draw_transparent.
    intros l b [_ Hl]%elem_of_seq. rewrite Hdraw by lia. cbv zeta.
    destruct (Hrule l) as (Hzero & _ & _). cbv zeta in Hzero.
    rewrite Hzero; [done|by left].
Qed.

Lemma round_trip_witness :
  validImage tenColorImage ∧ 1 ≤ 4 ∧
  onDownloadCFileClick_ tenColorImage 4 16 = inr tenColorTables ∧
  alpha (pixelAt (frameData tenColorImage 0) 8 3 0) ≠ 0%N ∧
  composite tenColorTables 1 0 3 0 = Some (quantize (pixelAt (frameData tenColorImage 0) 8 3 0)).
Proof.
  assert (Hvalid : validImage tenColorImage) by solve_validImage.
  assert (H4 : 1 ≤ 4) by lia.
  assert (Hexp : onDownloadCFileClick_ tenColorImage 4 16 = inr tenColorTables) by reflexivity.
  assert (Hop : alpha (pixelAt (frameData tenColorImage 0) 8 3 0) ≠ 0%N) by (vm_compute; lia).
  split_and!; [exact Hvalid|exact H4|exact Hexp|exact Hop|].
  assert (H01 : 0 < 1) by lia. assert (H38 : 3 < 8) by lia. assert (H08 : 0 < 8) by lia.
  exact (proj1 (round_trip tenColorImage 4 16 tenColorTables Hvalid H4 Hexp 0 3 0 H01 H38 H08) Hop).
Defined.

(** ** The index rule and the layout of a tile record *)



Lemma keyAt_index (groupKeys : list string) (pix : list N) (idx : nat) :
  NoDup groupKeys → length groupKeys ≤ 3 →
  (keyAt pix idx = None → pixelIndex (buildMap groupKeys 0 ∅) pix idx = 0%Z) ∧
  (∀ j k, keyAt pix idx = Some k → groupKeys !! j = Some k →
          pixelIndex (buildMap groupKeys 0 ∅) pix idx = (1 + Z.of_nat j)%Z).
Proof.
  intros Hnd Hlen. destruct (pixelIndex_rule groupKeys pix idx Hnd Hlen) as [Hzero Hpos].
  cbv zeta in Hzero, Hpos. unfold keyAt. case_bool_decide as Ha; split.
  - intros _. apply Hzero. by left.
  - done.
  - done.
  - intros j k [= <-] Hj. by apply Hpos.
Qed.

Lemma row_bytes pix imgW x0 y0 groupKeys y :
  y < 8 →
  let tile := encodeNgpcTile2bppLayered_ pix imgW x0 y0 groupKeys in
  let ci x := layerIndex pix imgW x0 y0 groupKeys x y in
  tile !! (2 * y) = Some (ci 7%nat + 4 * ci 6%nat + 16 * ci 5%nat + 64 * ci 4%nat)%Z ∧
  tile !! (2 * y + 1) = Some (ci 3%nat + 4 * ci 2%nat + 16 * ci 1%nat + 64 * ci 0%nat)%Z.
Proof.
  intros Hy. cbv zeta.
  assert (H02 : 0 < 2) by lia. assert (H12 : 1 < 2) by lia.
  pose proof (encode_lookup pix imgW x0 y0 groupKeys y 0 Hy H02) as Hb0.
  pose proof (encode_lookup pix imgW x0 y0 groupKeys y 1 Hy H12) as Hb1.
  replace (y * 2 + 0) with (2 * y) in Hb0 by lia.
  replace (y * 2 + 1) with (2 * y + 1) in Hb1 by lia.
  destruct (packBlock_fields pix imgW x0 y0 groupKeys y 0) as (_ & _ & _ & _ & Hv0).
  destruct (packBlock_fields pix imgW x0 y0 groupKeys y 1) as (_ & _ & _ & _ & Hv1).
  rewrite Hb0, Hb1, Hv0, Hv1. done.
Qed.

(** C4 — Tile bit-packing layout: the encoded tile has exactly 16 bytes;
    the rows come top to bottom, two bytes per row; the first byte of a row
    holds the pixels of columns 7, 6, 5, 4 and the second those of columns
    3, 2, 1, 0; in each byte the rightmost pixel of the block is in bits
    0-1, the next one to the left in bits 2-3, then bits 4-5, then bits 6-7.
    Hence, for a group [A; B; C], a top row with colour A in columns 4 to 7
    and transparent pixels in columns 0 to 3 gives the bytes 0x55 and 0x00.
    Every tile record of an export that succeeds is such a tile of 16
    bytes, encoded for the group of its layer. *)
Theorem tile_layout :
  (∀ (pix : list N) (imgW x0 y0 : nat) (groupKeys : list string),
     let tile := encodeNgpcTile2bppLayered_ pix imgW x0 y0 groupKeys in
     let ci x y := layerIndex pix imgW x0 y0 groupKeys x y in
     length tile = 16 ∧
     (∀ x y, (0 ≤ ci x y < 4)%Z) ∧
     (∀ y, y < 8 →
        tile !! (2 * y)
        = Some (ci 7%nat y + 4 * ci 6%nat y + 16 * ci 5%nat y + 64 * ci 4%nat y)%Z ∧
        tile !! (2 * y + 1)
        = Some (ci 3%nat y + 4 * ci 2%nat y + 16 * ci 1%nat y + 64 * ci 0%nat y)%Z) ∧
     (∀ x y, x < 8 → y < 8 →
        Z.land (Z.shiftr (tile !!! byteOf x y) (shiftOf x)) 3 = ci x y) ∧
     (∀ y, (λ x, byteOf x y) <$> [7; 6; 5; 4; 3; 2; 1; 0]
           = [2 * y; 2 * y; 2 * y; 2 * y; 2 * y + 1; 2 * y + 1; 2 * y + 1; 2 * y + 1]) ∧
     shiftOf <$> [7; 6; 5; 4; 3; 2; 1; 0] = [0; 2; 4; 6; 0; 2; 4; 6]%Z ∧
     (∀ kA kB kC,
        groupKeys = [kA; kB; kC] → NoDup groupKeys →
        (∀ x, 4 ≤ x → x < 8 → keyAt pix (((y0 + 0) * imgW + (x0 + x)) * 4) = Some kA) →
        (∀ x, x < 4 → keyAt pix (((y0 + 0) * imgW + (x0 + x)) * 4) = None) →
        tile !! 0 = Some 0x55%Z ∧ tile !! 1 = Some 0x00%Z)) ∧
  (∀ (pc : PiskelController) (MAX_LAYERS MAX_PALS : nat) (T : Tables),
     validImage pc → 1 ≤ MAX_LAYERS →
     onDownloadCFileClick_ pc MAX_LAYERS MAX_PALS = inr T →
     ∀ l fi ty tx,
       l < layerCount T → fi < getFrameCount pc →
       ty < getHeight pc / 8 → tx < getWidth pc / 8 →
       let t := ty * (getWidth pc / 8) + tx in
       length (tileAt T l fi t) = 16 ∧
       tileAt T l fi t
       = encodeNgpcTile2bppLayered_ (frameData pc fi) (getWidth pc) (tx * 8) (ty * 8)
           (slice3 (tileColorList (frameData pc fi) (getWidth pc) tx ty) l)).
Proof.
  split.
  - intros pix imgW x0 y0 groupKeys. cbv zeta. split_and!.
    + apply encode_length.
    + intros x y. apply pixelIndex_range.
    + intros y Hy. by apply row_bytes.
    + intros x y Hx Hy. by apply (tilePixelIndex_encode pix imgW x0 y0 groupKeys x y).
    + intros y.
      assert (Hhi : ∀ x, 4 ≤ x → byteOf x y = 2 * y).
      { intros x Hx. unfold byteOf. rewrite bool_decide_eq_true_2 by done. lia. }
      assert (Hlo : ∀ x, x < 4 → byteOf x y = 2 * y + 1).
      { intros x Hx. unfold byteOf. rewrite bool_decide_eq_false_2 by lia. lia. }
      change ([byteOf 7 y; byteOf 6 y; byteOf 5 y; byteOf 4 y;
               byteOf 3 y; byteOf 2 y; byteOf 1 y; byteOf 0 y]
              = [2 * y; 2 * y; 2 * y; 2 * y; 2 * y + 1; 2 * y + 1; 2 * y + 1; 2 * y + 1]).
      rewrite !Hhi, !Hlo by lia. done.
    + reflexivity.
    + intros kA kB kC -> Hnd Hright Hleft.
      assert (Hlen : length [kA; kB; kC] ≤ 3) by (simpl; lia).
      assert (H08 : 0 < 8) by lia.
      destruct (row_bytes pix imgW x0 y0 [kA; kB; kC] 0 H08) as [Hb0 Hb1].
      cbv zeta in Hb0, Hb1. simpl (2 * 0) in Hb0, Hb1. simpl (0 + 1) in Hb1.
      assert (HA : ∀ x, 4 ≤ x → x < 8 → layerIndex pix imgW x0 y0 [kA; kB; kC] x 0 = 1%Z).
      { intros x H4 H8. unfold layerIndex.
        destruct (keyAt_index [kA; kB; kC] pix (((y0 + 0) * imgW + (x0 + x)) * 4) Hnd Hlen)
          as [_ Hpos].
        apply (Hpos 0 kA); [by apply Hright|done]. }
      assert (H0 : ∀ x, x < 4 → layerIndex pix imgW x0 y0 [kA; kB; kC] x 0 = 0%Z).
      { intros x H4. unfold layerIndex.
        destruct (keyAt_index [kA; kB; kC] pix (((y0 + 0) * imgW + (x0 + x)) * 4) Hnd Hlen)
          as [Hzero _].
        apply Hzero. by apply Hleft. }
      rewrite !HA in Hb0 by lia. rewrite !H0 in Hb1 by lia. done.
  - intros pc MAX_LAYERS MAX_PALS T Hvalid HML Hexp l fi ty tx Hl Hfi Hty Htx. cbv zeta.
    destruct (export_cell pc MAX_LAYERS MAX_PALS T Hvalid HML Hexp) as (groups & _ & _ & Hcell).
    destruct (Hcell l fi ty tx Hl Hfi Hty Htx) as (_ & _ & _ & _ & Htile).
    cbv zeta in Htile. rewrite Htile. split; [apply encode_length|done].
Qed.

Lemma tile_layout_witness :
  let keys := ["255,0,16,255"; "1,2,3,255"; "4,5,6,255"] in
  let tile := encodeNgpcTile2bppLayered_ (frameData stripeImage 0) 8 0 0 keys in
  NoDup keys ∧ tile !! 0 = Some 0x55%Z ∧ tile !! 1 = Some 0x00%Z.
Proof.
  cbv zeta.
  assert (Hnd : NoDup ["255,0,16,255"; "1,2,3,255"; "4,5,6,255"]).
  { apply (bool_decide_unpack _). vm_compute. exact I. }
  split; [exact Hnd|].
  refine (proj2 (proj2 (proj2 (proj2 (proj2 (proj2
    (proj1 tile_layout (frameData stripeImage 0) 8 0 0
       ["255,0,16,255"; "1,2,3,255"; "4,5,6,255"]))))))
    "255,0,16,255" "1,2,3,255" "4,5,6,255" eq_refl Hnd _ _).
  - intros x H4 H8.
    do 4 (destruct x as [|x]; [lia|]).
    do 4 (destruct x as [|x]; [reflexivity|]). lia.
  - intros x H4. do 4 (destruct x as [|x]; [reflexivity|]). lia.
Defined.

(** ** The order of the columns in a byte *)

(** C9 (as the encoder packs) — within each 4-pixel block of a row, the
    byte is made of the indices of the four columns of the block, and a
    pixel at a greater column offset has its 2-bit index at a lower bit
    position than a pixel at a lesser column offset: the position falls as
    the column grows, for every tile and row. *)
Theorem column_order (pix : list N) (imgW x0 y0 : nat) (groupKeys : list string) :
  let tile := encodeNgpcTile2bppLayered_ pix imgW x0 y0 groupKeys in
  let ci x y := layerIndex pix imgW x0 y0 groupKeys x y in
  ∀ y x1 x2, y < 8 → x1 < x2 → x2 < 8 → x1 / 4 = x2 / 4 →
    byteOf x1 y = byteOf x2 y ∧
    Z.land (Z.shiftr (tile !!! byteOf x1 y) (shiftOf x1)) 3 = ci x1 y ∧
    Z.land (Z.shiftr (tile !!! byteOf x2 y) (shiftOf x2)) 3 = ci x2 y ∧
    (0 ≤ shiftOf x2 < shiftOf x1)%Z ∧ (shiftOf x1 < 8)%Z ∧
    let b := 4 * (x1 / 4) in
    tile !!! byteOf x1 y
    = (ci (b + 3)%nat y + 4 * ci (b + 2)%nat y + 16 * ci (b + 1)%nat y + 64 * ci b y)%Z.
Proof.
  cbv zeta. intros y x1 x2 Hy Hlt H8 Hblock.
  assert (Hx1 : x1 < 8) by lia.
  pose proof (tilePixelIndex_encode pix imgW x0 y0 groupKeys x1 y Hx1 Hy) as F1.
  pose proof (tilePixelIndex_encode pix imgW x0 y0 groupKeys x2 y H8 Hy) as F2.
  unfold tilePixelIndex in F1, F2.
  destruct (row_bytes pix imgW x0 y0 groupKeys y Hy) as [Hb0 Hb1]. cbv zeta in Hb0, Hb1.
  assert (Hcase : 4 ≤ x1 ∧ 4 ≤ x2 ∧ x1 / 4 = 1 ∨ x1 < 4 ∧ x2 < 4 ∧ x1 / 4 = 0).
  { pose proof (Nat.div_mod_eq x1 4). pose proof (Nat.mod_upper_bound x1 4).
    pose proof (Nat.div_mod_eq x2 4). pose proof (Nat.mod_upper_bound x2 4). lia. }
  unfold byteOf, shiftOf in *.
  destruct Hcase as [(H1 & H2 & Hq)|(H1 & H2 & Hq)]; rewrite Hq.
  - rewrite !bool_decide_eq_true_2 in * by done.
    replace (y * 2 + 0) with (2 * y) in * by lia.
    split_and!; [done|done|done|lia|lia|lia|].
    by rewrite (list_lookup_total_correct _ _ _ Hb0).
  - rewrite !bool_decide_eq_false_2 in * by lia.
    replace (y * 2 + 1) with (2 * y + 1) in * by lia.
    split_and!; [done|done|done|lia|lia|lia|].
    by rewrite (list_lookup_total_correct _ _ _ Hb1).
Qed.

Lemma column_order_witness :
  let tile := encodeNgpcTile2bppLayered_ (frameData cornerImage 0) 8 0 0 ["255,0,16,255"] in
  (0 ≤ shiftOf 7 < shiftOf 4)%Z ∧ tile !!! byteOf 4 0 = 1%Z.
Proof.
  cbv zeta.
  assert (H08 : 0 < 8) by lia. assert (H47 : 4 < 7) by lia. assert (H78 : 7 < 8) by lia.
  assert (Hb : 4 / 4 = 7 / 4) by reflexivity.
  destruct (column_order (frameData cornerImage 0) 8 0 0 ["255,0,16,255"] 0 4 7 H08 H47 H78 Hb)
    as (_ & _ & _ & Hs & _ & Hv).
  split; [exact Hs|]. rewrite Hv. reflexivity.
Defined.

(** Against C9 as stated: no assignment of bit positions that grows with
    the column describes the tile records.  In the tile whose only opaque
    pixel is in column 7 of the top row, the first byte is 1: the index 1 of
    column 7, the greatest column of its block, is in bits 0-1, the lowest
    position. *)
Lemma column_order_counterexample :
  encodeNgpcTile2bppLayered_ (frameData cornerImage 0) 8 0 0 ["255,0,16,255"] !! 0 = Some 1%Z ∧
  layerIndex (frameData cornerImage 0) 8 0 0 ["255,0,16,255"] 7 0 = 1%Z ∧
  ¬ increasingColumnLayout.
Proof.
  split; [reflexivity|]. split; [reflexivity|].
  intros (pos & Hrange & Hmono & Hfield).
  assert (H78 : 7 < 8) by lia. assert (H08 : 0 < 8) by lia.
  specialize (Hfield (frameData cornerImage 0) 8 0 0 ["255,0,16,255"] 7 0 H78 H08).
  change (Z.land (Z.shiftr 1 (pos 7)) 3 = 1%Z) in Hfield.
  pose proof (Hrange 7 H78) as Hp7.
  assert (H67 : 6 < 7) by lia.
  pose proof (Hmono 6 7 H67 H78 eq_refl) as Hlt.
  pose proof (Hrange 6 ltac:(lia)) as Hp6.
  set (p7 := pos 7) in *. set (p6 := pos 6) in *.
  assert (Hcases : (p7 = 1 ∨ p7 = 2 ∨ p7 = 3 ∨ p7 = 4 ∨ p7 = 5 ∨ p7 = 6 ∨ p7 = 7)%Z) by lia.
  destruct Hcases as [H|[H|[H|[H|[H|[H|H]]]]]]; rewrite H in Hfield; discriminate Hfield.
Qed.

(** ** Palette banks *)

Lemma samePalette_slots (p q : list Z) :
  samePalette p q = true ↔ ∀ k, k < 4 → p !! k = q !! k.
Proof.
  unfold samePalette. rewrite !andb_true_iff, !bool_decide_eq_true. split.
  - intros [[[H0 H1] H2] H3] k Hk.
    destruct k as [|[|[|[|k]]]]; [done|done|done|done|lia].
  - intros H. split_and!; apply H; lia.
Qed.

Lemma for_upto_leave {E S} (n i : nat) (body : nat → S → E + S) (s0 s : S) (e : E) :
  i < n → JS.for_upto i body s0 = inr s → body i s = inl e → JS.for_upto n body s0 = inl e.
Proof.
  intros Hi Hrun Hbody.
  assert (Hsi : JS.for_upto (Datatypes.S i) body s0 = inl e).
  { by rewrite for_upto_S, Hrun. }
  clear Hrun Hbody.
  induction n as [|n IH]; [lia|].
  destruct (decide (i = n)) as [->|Hne]; [done|].
  rewrite for_upto_S, IH by lia. done.
Qed.

(** ** Colours with the same top nibbles *)

(** Where an opaque pixel ends up in an export that succeeds: its key is at
    some place [i] of the tile's list; layer [i / 3] gives it the index
    [1 + i mod 3] and the palette entry of its quantized colour; the other
    layers give it index 0. *)
Lemma export_pixel pc MAX_LAYERS MAX_PALS T fi ty tx x y :
  validImage pc → 1 ≤ MAX_LAYERS →
  onDownloadCFileClick_ pc MAX_LAYERS MAX_PALS = inr T →
  fi < getFrameCount pc → ty < getHeight pc / 8 → tx < getWidth pc / 8 → x < 8 → y < 8 →
  let t := ty * (getWidth pc / 8) + tx in
  let keys := tileColorList (frameData pc fi) (getWidth pc) tx ty in
  let c := pixelAt (frameData pc fi) (getWidth pc) (tx * 8 + x) (ty * 8 + y) in
  alpha c ≠ 0%N →
  byteColor c ∧
  ∃ i, keys !! i = Some (colorKey c) ∧ i / 3 < layerCount T ∧
       tilePixelIndex (tileAt T (i / 3) fi t) x y = (1 + Z.of_nat (i mod 3))%Z ∧
       paletteAt T (i / 3) (paletteIdAt T (i / 3) fi t) !! (i mod 3 + 1) = Some (quantize c) ∧
       ∀ l, l < layerCount T → l ≠ i / 3 → tilePixelIndex (tileAt T l fi t) x y = 0%Z.
Proof.
  intros Hvalid HML Hexp Hfi Hty Htx Hx Hy. cbv zeta. intros Hop.
  destruct (export_cell pc MAX_LAYERS MAX_PALS T Hvalid HML Hexp) as (groups & Hplan & _ & Hcell).
  pose proof Hvalid as (Hw & Hh & Hwf).
  set (pix := frameData pc fi) in *. set (width := getWidth pc) in *.
  set (keys := tileColorList pix width tx ty).
  assert (Hnd : NoDup keys) by apply tileColorList_NoDup.
  assert (Htx8 : tx * 8 + 8 ≤ width).
  { pose proof (Nat.div_mod_eq width 8). unfold width in *. lia. }
  assert (Hty8 : ty * 8 + 8 ≤ getHeight pc).
  { pose proof (Nat.div_mod_eq (getHeight pc) 8). lia. }
  assert (Hbyte : byteColor (pixelAt pix width (tx * 8 + x) (ty * 8 + y))).
  { apply (pixelAt_byteColor _ _ _ (Hwf fi Hfi)); lia. }
  split; [done|].
  assert (Hin : colorKey (pixelAt pix width (tx * 8 + x) (ty * 8 + y)) ∈ keys).
  { apply elem_of_tileColorList. exists y, x. split_and!; [done|done|].
    by apply (opaqueKeyAt_pixel _ _ _ (Hwf fi Hfi) _ _ Htx8 Hty8 _ _ _ Hy Hx). }
  apply list_elem_of_lookup in Hin as [i Hi]. exists i.
  pose proof (slice3_lookup _ _ _ Hi) as Hslot.
  assert (Hl0 : i / 3 < layerCount T).
  { unfold planOf in Hplan.
    destruct (buildLayeredPlan_ok _ _ _ _ _ _ _ _ _ Hplan) as (_ & _ & Hall & _).
    destruct (Hall fi ty tx Hfi Hty Htx) as [_ Hchunks].
    unfold tileChunks, JS.ceil_div3 in Hchunks. fold pix width keys in Hchunks.
    apply lookup_lt_Some in Hi.
    pose proof (Nat.div_mod_eq i 3). pose proof (Nat.mod_upper_bound i 3).
    pose proof (Nat.div_mod_eq (length keys + 2) 3).
    pose proof (Nat.mod_upper_bound (length keys + 2) 3). lia. }
  assert (Hj : i mod 3 < 3) by (apply Nat.mod_upper_bound; lia).
  assert (Hrule : ∀ l, l < layerCount T →
    tilePixelIndex (tileAt T l fi (ty * (width / 8) + tx)) x y
    = layerIndex pix width (tx * 8) (ty * 8) (slice3 keys l) x y ∧
    paletteAt T l (paletteIdAt T l fi (ty * (width / 8) + tx))
    = buildTilePaletteRgb444_ (slice3 keys l)).
  { intros l Hl. destruct (Hcell l fi ty tx Hl Hfi Hty Htx) as (_ & _ & _ & Hpal & Htile).
    cbv zeta in Hpal, Htile. fold pix width keys in Hpal, Htile.
    rewrite Hpal, Htile, tilePixelIndex_encode by done. done. }
  assert (Hidx : ∀ l,
    let c := pixelAt pix width (tx * 8 + x) (ty * 8 + y) in
    let ci := layerIndex pix width (tx * 8) (ty * 8) (slice3 keys l) x y in
    (alpha c = 0%N ∨ colorKey c ∉ slice3 keys l → ci = 0%Z) ∧
    (∀ j, alpha c ≠ 0%N → slice3 keys l !! j = Some (colorKey c) → ci = (1 + Z.of_nat j)%Z) ∧
    (0 ≤ ci < 4)%Z).
  { intros l. destruct (slice3_NoDup keys l Hnd) as [Hnd' Hlen'].
    apply (layerIndex_rule width (getHeight pc)); [by apply Hwf|lia|lia|done|done]. }
  split_and!; [done|done| | |].
  - destruct (Hrule (i / 3) Hl0) as [-> _].
    destruct (Hidx (i / 3)) as (_ & Hpos & _). by apply Hpos.
  - destruct (Hrule (i / 3) Hl0) as [_ ->].
    rewrite palette_slot by done. rewrite Hslot. simpl. f_equal.
    by apply keyRgb444_colorKey.
  - intros l Hl Hne. destruct (Hrule l Hl) as [-> _].
    destruct (Hidx l) as (Hzero & _ & _). apply Hzero. right.
    apply (slice3_disjoint keys (i / 3) l _ Hnd); [done|].
    apply list_elem_of_lookup. by exists (i mod 3).
Qed.

(** C10 (as the exporter behaves) — palette construction uses only the top
    four bits of R, G and B and ignores alpha: two distinct opaque colours
    of a tile that agree on these nibbles keep distinct keys and occupy
    different places of the tile's groups (another layer or another
    position); each of its pixels has an index in 1..3 in its own layer, and
    the two indices differ when the two colours are in the same layer; the
    two palette entries are the same RGB444 value.  A single 4-slot palette
    can therefore hold the same non-zero value in several slots, as in the
    export of three such colours. *)
Theorem twin_colors :
  (∀ pc MAX_LAYERS MAX_PALS T fi ty tx x1 y1 x2 y2,
     validImage pc → 1 ≤ MAX_LAYERS →
     onDownloadCFileClick_ pc MAX_LAYERS MAX_PALS = inr T →
     fi < getFrameCount pc → ty < getHeight pc / 8 → tx < getWidth pc / 8 →
     x1 < 8 → y1 < 8 → x2 < 8 → y2 < 8 →
     let t := ty * (getWidth pc / 8) + tx in
     let keys := tileColorList (frameData pc fi) (getWidth pc) tx ty in
     let c1 := pixelAt (frameData pc fi) (getWidth pc) (tx * 8 + x1) (ty * 8 + y1) in
     let c2 := pixelAt (frameData pc fi) (getWidth pc) (tx * 8 + x2) (ty * 8 + y2) in
     alpha c1 ≠ 0%N → alpha c2 ≠ 0%N → c1 ≠ c2 →
     nibble (red c1) = nibble (red c2) →
     nibble (green c1) = nibble (green c2) →
     nibble (blue c1) = nibble (blue c2) →
     colorKey c1 ≠ colorKey c2 ∧
     quantize c1 = quantize c2 ∧
     ∃ l1 j1 l2 j2,
       l1 < layerCount T ∧ l2 < layerCount T ∧ j1 < 3 ∧ j2 < 3 ∧
       (l1 ≠ l2 ∨ j1 ≠ j2) ∧
       slice3 keys l1 !! j1 = Some (colorKey c1) ∧
       slice3 keys l2 !! j2 = Some (colorKey c2) ∧
       tilePixelIndex (tileAt T l1 fi t) x1 y1 = (1 + Z.of_nat j1)%Z ∧
       tilePixelIndex (tileAt T l2 fi t) x2 y2 = (1 + Z.of_nat j2)%Z ∧
       paletteAt T l1 (paletteIdAt T l1 fi t) !! (j1 + 1) = Some (quantize c1) ∧
       paletteAt T l2 (paletteIdAt T l2 fi t) !! (j2 + 1) = Some (quantize c2)) ∧
  (onDownloadCFileClick_ twinImage 3 16 = inr twinTables ∧
   perLayerPalettes twinTables = [[[0; 1; 1; 1]]]%Z ∧
   planOf twinImage 3 = PlanOk 1 [[[["16,0,0,254"; "16,0,0,255"; "17,0,0,255"]]]]).
Proof.
  split; [|by split_and!].
  intros pc MAX_LAYERS MAX_PALS T fi ty tx x1 y1 x2 y2 Hvalid HML Hexp Hfi Hty Htx
    Hx1 Hy1 Hx2 Hy2. cbv zeta. intros Hop1 Hop2 Hne Hr Hg Hb.
  destruct (export_pixel pc MAX_LAYERS MAX_PALS T fi ty tx x1 y1
              Hvalid HML Hexp Hfi Hty Htx Hx1 Hy1 Hop1)
    as (Hbyte1 & i1 & Hi1 & Hl1 & Hidx1 & Hpal1 & _).
  destruct (export_pixel pc MAX_LAYERS MAX_PALS T fi ty tx x2 y2
              Hvalid HML Hexp Hfi Hty Htx Hx2 Hy2 Hop2)
    as (Hbyte2 & i2 & Hi2 & Hl2 & Hidx2 & Hpal2 & _).
  assert (Hkeys : colorKey (pixelAt (frameData pc fi) (getWidth pc) (tx * 8 + x1) (ty * 8 + y1))
                  ≠ colorKey (pixelAt (frameData pc fi) (getWidth pc) (tx * 8 + x2) (ty * 8 + y2))).
  { intros Heq. by apply colorKey_inj in Heq. }
  split; [done|]. split; [unfold quantize; by rewrite Hr, Hg, Hb|].
  exists (i1 / 3), (i1 mod 3), (i2 / 3), (i2 mod 3).
  pose proof (Nat.mod_upper_bound i1 3). pose proof (Nat.mod_upper_bound i2 3).
  split_and!; try done; try lia.
  - destruct (decide (i1 = i2)) as [->|Hi]; [congruence|].
    pose proof (Nat.div_mod_eq i1 3). pose proof (Nat.div_mod_eq i2 3). lia.
  - by apply slice3_lookup.
  - by apply slice3_lookup.
Qed.

Lemma twin_colors_witness :
  validImage twinImage ∧ 1 ≤ 3 ∧
  onDownloadCFileClick_ twinImage 3 16 = inr twinTables ∧
  colorKey (pixelAt (frameData twinImage 0) 8 0 0) ≠ colorKey (pixelAt (frameData twinImage 0) 8 1 0) ∧
  quantize (pixelAt (frameData twinImage 0) 8 0 0) = quantize (pixelAt (frameData twinImage 0) 8 1 0).
Proof.
  assert (Hvalid : validImage twinImage) by solve_validImage.
  assert (H3 : 1 ≤ 3) by lia.
  assert (Hexp : onDownloadCFileClick_ twinImage 3 16 = inr twinTables) by reflexivity.
  split_and!; [exact Hvalid|exact H3|exact Hexp| |].
  - assert (H01 : 0 < 1) by lia. assert (H08 : 0 < 8) by lia. assert (H18 : 1 < 8) by lia.
    refine (proj1 (proj1 twin_colors twinImage 3 16 twinTables 0 0 0 0 0 1 0
              Hvalid H3 Hexp H01 H01 H01 H08 H08 H18 H08 _ _ _ _ _ _));
      vm_compute; done.
  - assert (H01 : 0 < 1) by lia. assert (H08 : 0 < 8) by lia. assert (H18 : 1 < 8) by lia.
    refine (proj1 (proj2 (proj1 twin_colors twinImage 3 16 twinTables 0 0 0 0 0 1 0
              Hvalid H3 Hexp H01 H01 H01 H08 H08 H18 H08 _ _ _ _ _ _)));
      vm_compute; done.
Defined.

(** Against C10 as stated: of the four colours of this tile, the first and
    the last have the same top nibbles; the first is in the group of layer
    0, the last in the group of layer 1, and their pixels receive the same
    index 1, each in its layer. *)
Lemma twin_colors_same_index_counterexample :
  onDownloadCFileClick_ splitTwinImage 3 16 = inr splitTwinTables ∧
  planOf splitTwinImage 3
  = PlanOk 2 [[[["16,0,0,255"; "16,100,0,255"; "16,200,0,255"]]]; [[["17,0,0,255"]]]] ∧
  (let c1 := pixelAt (frameData splitTwinImage 0) 8 0 0 in
   let c2 := pixelAt (frameData splitTwinImage 0) 8 3 0 in
   c1 = RGBA 16 0 0 255 ∧ c2 = RGBA 17 0 0 255 ∧ c1 ≠ c2 ∧
   nibble (red c1) = nibble (red c2) ∧ nibble (green c1) = nibble (green c2) ∧
   nibble (blue c1) = nibble (blue c2)) ∧
  tilePixelIndex (tileAt splitTwinTables 0 0 0) 0 0 = 1%Z ∧
  tilePixelIndex (tileAt splitTwinTables 1 0 0) 0 0 = 0%Z ∧
  tilePixelIndex (tileAt splitTwinTables 0 0 0) 3 0 = 0%Z ∧
  tilePixelIndex (tileAt splitTwinTables 1 0 0) 3 0 = 1%Z ∧
  ¬ (tilePixelIndex (tileAt splitTwinTables 0 0 0) 0 0
     ≠ tilePixelIndex (tileAt splitTwinTables 1 0 0) 3 0).
Proof.
  split_and!; try reflexivity.
  - vm_compute. split_and!; done.
  - intros H. apply H. reflexivity.
Qed.

(** * Further properties of the exporter *)

(** ** Hexadecimal literals *)

Lemma and_mask_mod (v : JS.num) (k : Z) :
  (0 ≤ k ≤ 31)%Z → JS.and_mask v (Z.ones k) = Z.to_N (default 0%Z v mod 2 ^ k).
Proof.
  intros Hk. unfold JS.and_mask. rewrite Z.land_ones by lia. f_equal.
  destruct v as [z|]; simpl; [|done].
  assert (Hdiv : (2 ^ 32 = 2 ^ k * 2 ^ (32 - k))%Z).
  { rewrite <- Z.pow_add_r by lia. f_equal. lia. }
  assert (H31 : (2 ^ 31 = 2 ^ k * 2 ^ (31 - k))%Z).
  { rewrite <- Z.pow_add_r by lia. f_equal. lia. }
  assert (Hpos : (0 < 2 ^ k)%Z) by (apply Z.pow_pos_nonneg; lia).
  rewrite <- Zminus_mod_idemp_l.
  rewrite (Z.mod_mod_divide _ (2 ^ 32)) by (rewrite Hdiv; by apply Z.divide_factor_l).
  rewrite Zminus_mod_idemp_l.
  replace (z + 2 ^ 31 - 2 ^ 31)%Z with z by lia. done.
Qed.

Lemma hex8_check :
  forallb (λ m : N,
      String.eqb ("0x" +:+ JS.slice_last 2 ("00" +:+ JS.hex m))
                 ("0x" +:+ hexDigit (m / 16) +:+ hexDigit (m mod 16))
      && bool_decide (lex ("0x" +:+ JS.slice_last 2 ("00" +:+ JS.hex m)) ([], Idle) = ([], Hex m)))
    (N.of_nat <$> seq 0 256) = true.
Proof. vm_compute. reflexivity. Qed.

Lemma hex16_check :
  forallb (λ hi : N, forallb (λ lo : N,
      let m := (256 * hi + lo)%N in
      String.eqb ("0x" +:+ JS.slice_last 4 ("0000" +:+ JS.hex m))
                 ("0x" +:+ hexDigit (m / 4096) +:+ hexDigit (m / 256 mod 16)
                       +:+ hexDigit (m / 16 mod 16) +:+ hexDigit (m mod 16))
      && bool_decide (lex ("0x" +:+ JS.slice_last 4 ("0000" +:+ JS.hex m)) ([], Idle)
                      = ([], Hex m)))
    (N.of_nat <$> seq 0 256)) (N.of_nat <$> seq 0 256) = true.
Proof. vm_compute. reflexivity. Qed.

Lemma hex8_text (m : N) :
  (m < 256)%N →
  "0x" +:+ JS.slice_last 2 ("00" +:+ JS.hex m) = "0x" +:+ hexDigit (m / 16) +:+ hexDigit (m mod 16)
  ∧ lex ("0x" +:+ JS.slice_last 2 ("00" +:+ JS.hex m)) ([], Idle) = ([], Hex m).
Proof.
  intros Hm. pose proof hex8_check as H. rewrite forallb_forall in H.
  specialize (H m). rewrite andb_true_iff, String.eqb_eq, bool_decide_eq_true in H.
  apply H. apply list_elem_of_In, list_elem_of_fmap. exists (N.to_nat m).
  split; [lia|]. apply elem_of_seq. lia.
Qed.

Lemma hex16_text (m : N) :
  (m < 65536)%N →
  "0x" +:+ JS.slice_last 4 ("0000" +:+ JS.hex m)
  = "0x" +:+ hexDigit (m / 4096) +:+ hexDigit (m / 256 mod 16)
         +:+ hexDigit (m / 16 mod 16) +:+ hexDigit (m mod 16)
  ∧ lex ("0x" +:+ JS.slice_last 4 ("0000" +:+ JS.hex m)) ([], Idle) = ([], Hex m).
Proof.
  intros Hm. pose proof hex16_check as H. rewrite forallb_forall in H.
  assert (Hin : ∀ v : N, (v < 256)%N → In v (N.of_nat <$> seq 0 256)).
  { intros v Hv. apply list_elem_of_In, list_elem_of_fmap. exists (N.to_nat v).
    split; [lia|]. apply elem_of_seq. lia. }
  assert (Hhi : (m / 256 < 256)%N) by (apply N.Div0.div_lt_upper_bound; lia).
  assert (Hlo : (m mod 256 < 256)%N) by (apply N.mod_lt; lia).
  specialize (H (m / 256)%N (Hin _ Hhi)). rewrite forallb_forall in H.
  specialize (H (m mod 256)%N (Hin _ Hlo)). cbv zeta in H.
  rewrite <- N.div_mod' in H.
  rewrite andb_true_iff, String.eqb_eq, bool_decide_eq_true in H. exact H.
Qed.

(** X1 — [hex8_] prints every value as [0x] and exactly two hexadecimal
    digits in lower case, those of the value modulo 256 ([NaN] and
    [undefined] count as 0); the literal reads back as that number. *)
Theorem hex8_digits (v : JS.num) :
  let m := Z.to_N (default 0%Z v mod 256) in
  hex8_ v = "0x" +:+ hexDigit (m / 16) +:+ hexDigit (m mod 16) ∧
  String.length (hex8_ v) = 4 ∧
  numbers (hex8_ v) = [m].
Proof.
  cbv zeta. unfold hex8_.
  change 255%Z with (Z.ones 8). rewrite and_mask_mod by lia. change (2 ^ 8)%Z with 256%Z.
  set (m := Z.to_N (default 0%Z v mod 256)).
  assert (Hm : (m < 256)%N).
  { pose proof (Z.mod_pos_bound (default 0%Z v) 256). lia. }
  destruct (hex8_text m Hm) as [Htext Hlex].
  split_and!.
  - exact Htext.
  - rewrite Htext.
    assert (Hd : ∀ d, (d < 16)%N → String.length (hexDigit d) = 1).
    { intros d Hd. unfold hexDigit.
      assert (Hin : N.to_nat d ∈ seq 0 16) by (apply elem_of_seq; lia).
      revert Hin. generalize (N.to_nat d). clear.
      intros n Hn. repeat (apply elem_of_cons in Hn as [->|Hn]; [reflexivity|]).
      by apply elem_of_nil in Hn. }
    cbn [String.append String.length].
    assert (Hl : ∀ a b, String.length (a +:+ b) = String.length a + String.length b).
    { intros a b. induction a; simpl; [done|]. by rewrite IHa. }
    rewrite !Hl, !Hd; [done| |].
    + apply N.mod_lt. lia.
    + apply N.Div0.div_lt_upper_bound. lia.
  - unfold numbers. by rewrite Hlex.
Qed.

(** X2 — [hex16_] prints every value as [0x] and exactly four hexadecimal
    digits in lower case, those of the value modulo 65536; the literal
    reads back as that number. *)
Theorem hex16_digits (v : JS.num) :
  let m := Z.to_N (default 0%Z v mod 65536) in
  hex16_ v = "0x" +:+ hexDigit (m / 4096) +:+ hexDigit (m / 256 mod 16)
                  +:+ hexDigit (m / 16 mod 16) +:+ hexDigit (m mod 16) ∧
  numbers (hex16_ v) = [m].
Proof.
  cbv zeta. unfold hex16_.
  change 65535%Z with (Z.ones 16). rewrite and_mask_mod by lia. change (2 ^ 16)%Z with 65536%Z.
  set (m := Z.to_N (default 0%Z v mod 65536)).
  assert (Hm : (m < 65536)%N).
  { pose proof (Z.mod_pos_bound (default 0%Z v) 65536). lia. }
  destruct (hex16_text m Hm) as [Htext Hlex].
  split; [exact Htext|]. unfold numbers. by rewrite Hlex.
Qed.

(** ** Packing a colour, whatever the numbers *)

Lemma nibble_of (v : JS.num) :
  Z.land (Z.shiftr (JS.toInt32 v) 4) 15 = (default 0 v / 16 mod 16)%Z.
Proof.
  rewrite Z.shiftr_div_pow2 by lia. change (2 ^ 4)%Z with 16%Z.
  change 15%Z with (Z.ones 4). rewrite Z.land_ones by lia. change (2 ^ 4)%Z with 16%Z.
  destruct v as [z|]; simpl; [|done].
  set (t := ((z + 2 ^ 31) mod 2 ^ 32 - 2 ^ 31)%Z).
  assert (Ht : ∃ k, t = (z + k * 2 ^ 32)%Z).
  { exists (- ((z + 2 ^ 31) / 2 ^ 32))%Z. unfold t.
    pose proof (Z.div_mod (z + 2 ^ 31) (2 ^ 32)). lia. }
  destruct Ht as [k ->].
  replace (z + k * 2 ^ 32)%Z with (z + k * 2 ^ 28 * 16)%Z by lia.
  rewrite Z.div_add by lia.
  replace (k * 2 ^ 28)%Z with (k * 2 ^ 24 * 16)%Z by lia.
  by rewrite Z_mod_plus_full.
Qed.

(** X3 — [rgbToRgb444_] on any three numbers: only bits 4 to 7 of each
    channel count, so a channel outside 0..255 wraps modulo 256 and [NaN]
    counts as 0; the result is [256*b4 + 16*g4 + r4], a value of 12 bits
    from which the three nibbles are read back. *)
Theorem rgb444_any_numbers (r g b : JS.num) :
  let n4 (v : JS.num) := (default 0 v / 16 mod 16)%Z in
  let v := rgbToRgb444_ r g b in
  v = (256 * n4 b + 16 * n4 g + n4 r)%Z ∧
  (0 ≤ v < 4096)%Z ∧
  Z.land v 15 = n4 r ∧
  Z.land (Z.shiftr v 4) 15 = n4 g ∧
  Z.land (Z.shiftr v 8) 15 = n4 b ∧
  (∀ r' g' b' : Z,
     (default 0 r mod 256 = r' mod 256)%Z → (default 0 g mod 256 = g' mod 256)%Z →
     (default 0 b mod 256 = b' mod 256)%Z →
     rgbToRgb444_ (Some r') (Some g') (Some b') = v).
Proof.
  cbv zeta.
  assert (Hrange : ∀ v : JS.num, (0 ≤ default 0 v / 16 mod 16 < 16)%Z).
  { intros v. apply Z.mod_pos_bound. lia. }
  assert (Hsum : ∀ r g b : JS.num,
    rgbToRgb444_ r g b
    = (256 * (default 0 b / 16 mod 16) + 16 * (default 0 g / 16 mod 16)
       + default 0 r / 16 mod 16)%Z).
  { intros r0 g0 b0. unfold rgbToRgb444_. cbv zeta. rewrite !nibble_of.
    apply (packNibbles_sum _ _ _ (Hrange b0) (Hrange g0) (Hrange r0)). }
  pose proof (Hrange r) as Hr. pose proof (Hrange g) as Hg. pose proof (Hrange b) as Hb.
  rewrite Hsum.
  set (r4 := (default 0 r / 16 mod 16)%Z) in *.
  set (g4 := (default 0 g / 16 mod 16)%Z) in *.
  set (b4 := (default 0 b / 16 mod 16)%Z) in *.
  split_and!; [done|lia|lia| | | |].
  - change 15%Z with (Z.ones 4). rewrite Z.land_ones by lia. change (2 ^ 4)%Z with 16%Z.
    symmetry. apply (Z.mod_unique _ _ (16 * b4 + g4)); lia.
  - rewrite Z.shiftr_div_pow2 by lia. change (2 ^ 4)%Z with 16%Z.
    change 15%Z with (Z.ones 4). rewrite Z.land_ones by lia. change (2 ^ 4)%Z with 16%Z.
    rewrite <- (Z.div_unique _ 16 (16 * b4 + g4) r4) by lia.
    symmetry. apply (Z.mod_unique _ _ b4); lia.
  - rewrite Z.shiftr_div_pow2 by lia. change (2 ^ 8)%Z with 256%Z.
    change 15%Z with (Z.ones 4). rewrite Z.land_ones by lia. change (2 ^ 4)%Z with 16%Z.
    rewrite <- (Z.div_unique _ 256 b4 (16 * g4 + r4)) by lia.
    apply Z.mod_small. lia.
  - intros r' g' b' Hr' Hg' Hb'. rewrite Hsum. simpl.
    assert (Hnib : ∀ x y : Z, (x mod 256 = y mod 256 → x / 16 mod 16 = y / 16 mod 16)%Z).
    { intros x y Hxy.
      assert (Hx : ∀ z : Z, (z / 16 mod 16 = z mod 256 / 16)%Z).
      { intros z. pose proof (Z.div_mod z 256). pose proof (Z.mod_pos_bound z 256).
        pose proof (Z.div_mod (z mod 256) 16). pose proof (Z.mod_pos_bound (z mod 256) 16).
        assert (0 ≤ z mod 256 / 16 < 16)%Z.
        { split; [apply Z.div_pos; lia|apply Z.div_lt_upper_bound; lia]. }
        rewrite <- (Z.div_unique z 16 (z mod 256 / 16 + 16 * (z / 256)) (z mod 256 mod 16))
          by lia.
        symmetry. apply (Z.mod_unique _ _ (z / 256)); lia. }
      by rewrite (Hx x), (Hx y), Hxy. }
    unfold r4, g4, b4.
    by rewrite (Hnib _ _ Hr'), (Hnib _ _ Hg'), (Hnib _ _ Hb').
Qed.

Lemma rgb444_any_numbers_witness :
  rgbToRgb444_ (Some 511%Z) (Some (-256)%Z) (Some 16%Z)
  = rgbToRgb444_ (Some 255%Z) None (Some 16%Z).
Proof.
  refine (proj2 (proj2 (proj2 (proj2 (proj2
    (rgb444_any_numbers (Some 255%Z) None (Some 16%Z)))))) 511%Z (-256)%Z 16%Z _ _ _);
    reflexivity.
Defined.

(** ** Palettes from any keys *)

Lemma keyRgb444_range (key : string) : (0 ≤ keyRgb444 key < 4096)%Z.
Proof.
  unfold keyRgb444. cbv zeta.
  unfold rgbToRgb444_. cbv zeta. rewrite !nibble_of.
  set (b := JS.parseIntAt _ 2). set (g := JS.parseIntAt _ 1). set (r := JS.parseIntAt _ 0).
  pose proof (Z.mod_pos_bound (default 0%Z r / 16) 16) as Hr.
  pose proof (Z.mod_pos_bound (default 0%Z g / 16) 16) as Hg.
  pose proof (Z.mod_pos_bound (default 0%Z b / 16) 16) as Hb.
  fold (packNibbles (default 0%Z b / 16 mod 16) (default 0%Z g / 16 mod 16)
                    (default 0%Z r / 16 mod 16)).
  rewrite packNibbles_sum by lia. lia.
Qed.

(** X4 — [buildTilePaletteRgb444_] on any array of keys, whatever they
    hold: the palette has 4 slots, slot 0 is 0, slot [i+1] is 0 when
    [groupKeys[i]] is missing, every slot is a value of 12 bits, and the keys
    from the fourth on are ignored.  For a key of ASCII text whose three
    first parts parse to integers of at most 53 bits (or to [NaN]), slot
    [i+1] is the RGB444 value of those three numbers. *)
Theorem palette_any_keys (groupKeys : list string) :
  let pal := buildTilePaletteRgb444_ groupKeys in
  length pal = 4 ∧
  pal !! 0 = Some 0%Z ∧
  (∀ i, i < 3 →
     match groupKeys !! i with
     | Some key =>
         plainKey key = true →
         let parts := JS.split_comma key in
         pal !! (i + 1)
         = Some (rgbToRgb444_ (JS.parseIntAt parts 0) (JS.parseIntAt parts 1)
                              (JS.parseIntAt parts 2))
     | None => pal !! (i + 1) = Some 0%Z
     end) ∧
  Forall (λ v, (0 ≤ v < 4096)%Z) pal ∧
  pal = buildTilePaletteRgb444_ (take 3 groupKeys).
Proof.
  cbv zeta. split_and!.
  - apply palette_length.
  - by rewrite palette_shape.
  - intros i Hi. rewrite palette_slot by done. by destruct (groupKeys !! i).
  - rewrite palette_shape.
    assert (Hslot : ∀ i, (0 ≤ default 0 (keyRgb444 <$> groupKeys !! i) < 4096)%Z).
    { intros i. destruct (groupKeys !! i); simpl; [apply keyRgb444_range|lia]. }
    repeat constructor; try apply Hslot; lia.
  - rewrite !palette_shape. by rewrite !lookup_take_lt by lia.
Qed.

Lemma palette_any_keys_witness :
  plainKey "300,-17,9,255" = true ∧
  buildTilePaletteRgb444_ ["300,-17,9,255"; "x"; ""; "1,2,3,4"] !! (0 + 1) = Some 226%Z.
Proof.
  assert (H03 : 0 < 3) by lia.
  assert (Hplain : plainKey "300,-17,9,255" = true) by reflexivity.
  split; [exact Hplain|].
  exact (proj1 (proj2 (proj2 (palette_any_keys ["300,-17,9,255"; "x"; ""; "1,2,3,4"])))
           0 H03 Hplain).
Defined.

(** ** The comparator of the keys *)

Lemma rgbaKeySort_value (c1 c2 : Color) :
  byteColor c1 → byteColor c2 →
  rgbaKeySort_ (colorKey c1) (colorKey c2) = Some (firstDiff c1 c2).
Proof.
  intros H1 H2. unfold rgbaKeySort_, firstDiff.
  destruct (colorKey_channels c1 H1) as (Hr1 & Hg1 & Hb1 & Ha1).
  destruct (colorKey_channels c2 H2) as (Hr2 & Hg2 & Hb2 & Ha2).
  cbv zeta in *. simpl.
  rewrite Hr1, Hr2, Hg1, Hg2, Hb1, Hb2, Ha1, Ha2. simpl.
  destruct (Z.eqb_spec (Z.of_N (red c1) - Z.of_N (red c2)) 0) as [Hr|Hr]; simpl; [|done].
  destruct (Z.eqb_spec (Z.of_N (green c1) - Z.of_N (green c2)) 0) as [Hg|Hg]; simpl; [|done].
  destruct (Z.eqb_spec (Z.of_N (blue c1) - Z.of_N (blue c2)) 0) as [Hb|Hb]; simpl; [|done].
  destruct (Z.eqb_spec (Z.of_N (alpha c1) - Z.of_N (alpha c2)) 0) as [Ha|Ha]; simpl; [|done].
  by rewrite Ha.
Qed.

Lemma firstDiff_cases (c1 c2 : Color) :
  let d (f : Color → N) := (Z.of_N (f c1) - Z.of_N (f c2))%Z in
  (d red ≠ 0 ∧ firstDiff c1 c2 = d red)%Z ∨
  (d red = 0 ∧ d green ≠ 0 ∧ firstDiff c1 c2 = d green)%Z ∨
  (d red = 0 ∧ d green = 0 ∧ d blue ≠ 0 ∧ firstDiff c1 c2 = d blue)%Z ∨
  (d red = 0 ∧ d green = 0 ∧ d blue = 0 ∧ firstDiff c1 c2 = d alpha)%Z.
Proof.
  cbv zeta. unfold firstDiff.
  destruct (Z.eqb_spec (Z.of_N (red c1) - Z.of_N (red c2)) 0); simpl; [|by left].
  destruct (Z.eqb_spec (Z.of_N (green c1) - Z.of_N (green c2)) 0); simpl;
    [|by right; left].
  destruct (Z.eqb_spec (Z.of_N (blue c1) - Z.of_N (blue c2)) 0); simpl;
    [|by right; right; left].
  by right; right; right.
Qed.

(** X5 — [rgbaKeySort_] on the keys of colours: it returns the first
    non-zero difference of the components R, G, B, A taken as numbers (so
    ["9,0,0,255"] comes before ["10,0,0,255"]), 0 exactly when the two keys
    are the same; swapping the arguments negates the result, the result is
    negative exactly when the first colour is strictly before the second in
    the order of (R, G, B, A), and this is transitive: a consistent
    comparator, as [Array.prototype.sort] needs. *)
Theorem key_sort_comparator (c1 c2 c3 : Color) :
  byteColor c1 → byteColor c2 → byteColor c3 →
  rgbaKeySort_ (colorKey c1) (colorKey c2) = Some (firstDiff c1 c2) ∧
  (firstDiff c1 c2 = 0%Z ↔ colorKey c1 = colorKey c2) ∧
  firstDiff c2 c1 = (- firstDiff c1 c2)%Z ∧
  ((firstDiff c1 c2 < 0)%Z ↔ colorLe c1 c2 ∧ c1 ≠ c2) ∧
  ((firstDiff c1 c2 < 0)%Z → (firstDiff c2 c3 < 0)%Z → (firstDiff c1 c3 < 0)%Z) ∧
  (-255 ≤ firstDiff c1 c2 ≤ 255)%Z.
Proof.
  intros H1 H2 H3.
  assert (Heq : ∀ a b : Color,
    red a = red b → green a = green b → blue a = blue b → alpha a = alpha b → a = b).
  { intros [] []; simpl; congruence. }
  pose proof (firstDiff_cases c1 c2) as H12. pose proof (firstDiff_cases c2 c1) as H21.
  pose proof (firstDiff_cases c2 c3) as H23. pose proof (firstDiff_cases c1 c3) as H13.
  cbv beta zeta in *.
  destruct H1 as (? & ? & ? & ?), H2 as (? & ? & ? & ?), H3 as (? & ? & ? & ?).
  split_and!.
  - apply rgbaKeySort_value; done.
  - clear H21 H23 H13. split.
    + intros Hzero. assert (c1 = c2) as -> by (apply Heq; lia). done.
    + intros Hk. apply colorKey_inj in Hk as ->; [|done|done]. lia.
  - clear H23 H13. lia.
  - clear H21 H23 H13. unfold colorLe. split.
    + intros Hlt. split; [lia|]. intros ->. lia.
    + intros [Hle Hne].
      destruct (decide (firstDiff c1 c2 = 0%Z)) as [Hzero|Hzero]; [|lia].
      destruct Hne. apply Heq; lia.
  - clear H21. intros Hlt12 Hlt23.
    destruct H12 as [?|[?|[?|?]]], H23 as [?|[?|[?|?]]]; lia.
  - clear H21 H23 H13. lia.
  - clear H21 H23 H13. lia.
Qed.

Lemma key_sort_comparator_witness :
  rgbaKeySort_ "9,0,0,255" "10,0,0,255" = Some (-1)%Z.
Proof.
  assert (H1 : byteColor (RGBA 9 0 0 255)) by (unfold byteColor; simpl; lia).
  assert (H2 : byteColor (RGBA 10 0 0 255)) by (unfold byteColor; simpl; lia).
  exact (proj1 (key_sort_comparator (RGBA 9 0 0 255) (RGBA 10 0 0 255) (RGBA 10 0 0 255)
                  H1 H2 H2)).
Defined.

(** ** Laws of the palette lookup *)

Lemma findPalette_app bank bank' pal4 i0 :
  findPalette (bank ++ bank') pal4 i0
  = match findPalette bank pal4 i0 with
    | Some i => Some i
    | None => findPalette bank' pal4 (i0 + length bank)
    end.
Proof.
  revert i0. induction bank as [|p bank IH]; intros i0; simpl.
  - by rewrite Nat.add_0_r.
  - destruct (samePalette p pal4); [done|].
    rewrite IH. by replace (S i0 + length bank) with (i0 + S (length bank)) by lia.
Qed.

(** X6 — [findOrAddPalette_] is idempotent and keeps what it handed out:
    looking the same palette up again returns the same index and leaves the
    bank as it is (after a failure too); the bank only grows at its end, by
    at most one palette, so every palette that had an index keeps it. *)
Theorem interning_laws (bank : list (list Z)) (pal4 : list Z) (maxCount : nat) :
  let r := findOrAddPalette_ bank pal4 maxCount in
  findOrAddPalette_ r.1 pal4 maxCount = r ∧
  bank `prefix_of` r.1 ∧
  length r.1 ≤ length bank + 1 ∧
  (∀ q i, findPalette bank q 0 = Some i → findPalette r.1 q 0 = Some i) ∧
  (∀ q i, findPalette bank q 0 = Some i →
     findOrAddPalette_ r.1 q maxCount = (r.1, Z.of_nat i)).
Proof.
  cbv zeta. unfold findOrAddPalette_.
  destruct (findPalette bank pal4 0) as [i|] eqn:Hfind; simpl.
  - rewrite Hfind. split_and!; [done|done|lia|done|]. by intros q j ->.
  - case_bool_decide as Hfull; simpl.
    + rewrite Hfind, bool_decide_eq_true_2 by done.
      split_and!; [done|done|lia|done|]. by intros q j ->.
    + assert (Hnew : findPalette (bank ++ [pal4]) pal4 0 = Some (length bank)).
      { rewrite findPalette_app, Hfind. simpl. by rewrite samePalette_refl. }
      rewrite Hnew. rewrite length_app. simpl. split_and!.
      * do 2 f_equal. lia.
      * by apply prefix_app_r.
      * lia.
      * intros q j Hq. by rewrite findPalette_app, Hq.
      * intros q j Hq. by rewrite findPalette_app, Hq.
Qed.

Lemma interning_laws_witness :
  findPalette (findOrAddPalette_ [[0; 1; 2; 3]%Z] [0; 7; 0; 0]%Z 16).1 [0; 1; 2; 3]%Z 0 = Some 0.
Proof.
  assert (H : findPalette [[0; 1; 2; 3]%Z] [0; 1; 2; 3]%Z 0 = Some 0) by reflexivity.
  exact (proj1 (proj2 (proj2 (proj2 (interning_laws [[0; 1; 2; 3]%Z] [0; 7; 0; 0]%Z 16))))
           [0; 1; 2; 3]%Z 0 H).
Defined.

(** ** Layers a tile does not need *)

Lemma pixelIndex_empty (pix : list N) (idx : nat) : pixelIndex ∅ pix idx = 0%Z.
Proof. unfold pixelIndex. cbv zeta. case_bool_decide; [|done]. by rewrite lookup_empty. Qed.

Lemma encode_empty_group (pix : list N) (imgW x0 y0 : nat) :
  encodeNgpcTile2bppLayered_ pix imgW x0 y0 [] = replicate 16 0%Z.
Proof.
  unfold encodeNgpcTile2bppLayered_, packBlock. simpl.
  rewrite !pixelIndex_empty. reflexivity.
Qed.

(** X7 — A layer a tile does not need is blank for it: with an empty
    group [encodeNgpcTile2bppLayered_] gives 16 zero bytes whatever the
    image data, and in an export that succeeds, for a tile of [n] distinct
    opaque colours, every layer from [ceil(n/3)] on holds the all-zero
    record and points to the palette [0, 0, 0, 0]. *)
Theorem blank_layers (pc : PiskelController) (MAX_LAYERS MAX_PALS : nat) (T : Tables) :
  validImage pc → 1 ≤ MAX_LAYERS →
  onDownloadCFileClick_ pc MAX_LAYERS MAX_PALS = inr T →
  (∀ pix imgW x0 y0, encodeNgpcTile2bppLayered_ pix imgW x0 y0 [] = replicate 16 0%Z) ∧
  ∀ l fi ty tx,
    l < layerCount T → fi < getFrameCount pc →
    ty < getHeight pc / 8 → tx < getWidth pc / 8 →
    JS.ceil_div3 (colorCount (frameData pc fi) (getWidth pc) tx ty) ≤ l →
    let t := ty * (getWidth pc / 8) + tx in
    tileAt T l fi t = replicate 16 0%Z ∧
    paletteAt T l (paletteIdAt T l fi t) = [0; 0; 0; 0]%Z.
Proof.
  intros Hvalid HML Hexp. split; [apply encode_empty_group|].
  intros l fi ty tx Hl Hfi Hty Htx Hn. cbv zeta.
  destruct (export_cell pc MAX_LAYERS MAX_PALS T Hvalid HML Hexp) as (groups & _ & _ & Hcell).
  destruct (Hcell l fi ty tx Hl Hfi Hty Htx) as (_ & _ & _ & Hpal & Htile).
  cbv zeta in Hpal, Htile.
  destruct (tileChunks_colorCount _ _ _ _ _ _ _ _ _ (validImage_planArgs pc Hvalid) Hfi Hty Htx)
    as [_ Hlen].
  rewrite slice3_beyond in Hpal, Htile by (rewrite Hlen; done).
  rewrite Htile, Hpal. split; [apply encode_empty_group|reflexivity].
Qed.

Lemma blank_layers_witness :
  validImage unevenImage ∧ 1 ≤ 3 ∧
  onDownloadCFileClick_ unevenImage 3 16 = inr unevenTables ∧
  layerCount unevenTables = 2 ∧
  tileAt unevenTables 1 0 1 = replicate 16 0%Z ∧
  paletteAt unevenTables 1 (paletteIdAt unevenTables 1 0 1) = [0; 0; 0; 0]%Z.
Proof.
  assert (Hvalid : validImage unevenImage) by solve_validImage.
  assert (H3 : 1 ≤ 3) by lia.
  assert (Hexp : onDownloadCFileClick_ unevenImage 3 16 = inr unevenTables) by reflexivity.
  split_and!; [exact Hvalid|exact H3|exact Hexp|reflexivity| |].
  - refine (proj1 (proj2 (blank_layers unevenImage 3 16 unevenTables Hvalid H3 Hexp)
                     1 0 0 1 _ _ _ _ _)); vm_compute; lia.
  - refine (proj2 (proj2 (blank_layers unevenImage 3 16 unevenTables Hvalid H3 Hexp)
                     1 0 0 1 _ _ _ _ _)); vm_compute; lia.
Defined.

(** ** How the export can end *)

Lemma plan_error_text pc width height frameCount tilesX tilesY maxLayers e :
  buildLayeredPlan_ pc width height frameCount tilesX tilesY maxLayers = PlanFailed e →
  ∃ tx ty fi n, e = layerOverflowText tx ty fi n maxLayers.
Proof.
  unfold buildLayeredPlan_.
  set (Q := λ e : string, ∃ tx ty fi n, e = layerOverflowText tx ty fi n maxLayers).
  match goal with
  | |- match ?loop with _ => _ end = _ → _ =>
      assert (Hloop : match loop with inl e => Q e | inr _ => True end)
  end.
  { apply (for_upto_match (λ _ _, True) Q); [done|]. intros fi st _ _.
    match goal with
    | |- match ?loop with _ => _ end => assert (Hrow : match loop with inl e => Q e | inr _ => True end)
    end.
    { apply (for_upto_match (λ _ _, True) Q); [done|]. intros ty st' _ _.
      match goal with
      | |- match ?loop with _ => _ end =>
          assert (Htile : match loop with inl e => Q e | inr _ => True end)
      end.
      { apply (for_upto_match (λ _ _, True) Q); [done|]. intros tx st'' _ _.
        destruct (planTile _ _ _ _ _ _ _ st'') as [e'|] eqn:He; [|done].
        apply planTile_inl in He as [_ ->]. by eexists _, _, _, _. }
      by destruct (JS.for_upto tilesX _ st'). }
    by destruct (JS.for_upto tilesY _ st). }
  destruct (JS.for_upto frameCount _ _) as [e'|[g n]]; [|done].
  by intros [= <-].
Qed.

Lemma pass2_error_kinds pc groups maxPals width frameCount tilesX tilesY n st e :
  JS.for_upto n (exportLayer pc groups maxPals width frameCount tilesX tilesY) st = inl e →
  e = TypeError ∨ ∃ l, l < n ∧ e = Alert (paletteOverflowText l maxPals).
Proof.
  intros Hrun.
  set (Q := λ e : Failure, e = TypeError ∨ ∃ l, l < n ∧ e = Alert (paletteOverflowText l maxPals)).
  assert (Hloop :
    match JS.for_upto n (exportLayer pc groups maxPals width frameCount tilesX tilesY) st with
    | inl e => Q e
    | inr _ => True
    end); [|by rewrite Hrun in Hloop].
  apply (for_upto_match (λ _ _, True) Q); [done|]. intros l [[pals ids] tiles] Hl _.
  unfold exportLayer.
  match goal with
  | |- match match ?loop with _ => _ end with _ => _ end =>
      assert (Hframes : match loop with inl e => Q e | inr _ => True end)
  end.
  { apply (for_upto_match (λ _ _, True) Q); [done|]. intros fi [[bank palIdMap] lt] _ _.
    unfold exportFrame.
    match goal with
    | |- match match ?loop with _ => _ end with _ => _ end =>
        assert (Hrows : match loop with inl e => Q e | inr _ => True end)
    end.
    { apply (for_upto_match (λ _ _, True) Q); [done|]. intros ty s _ _.
      match goal with
      | |- match ?loop with _ => _ end =>
          assert (Htiles : match loop with inl e => Q e | inr _ => True end)
      end.
      { apply (for_upto_match (λ _ _, True) Q); [done|]. intros tx [[b i] t] _ _.
        unfold exportTile.
        destruct (getGroup groups l fi (ty * tilesX + tx)) as [group|]; [|by left].
        destruct (findOrAddPalette_ b (buildTilePaletteRgb444_ group) maxPals) as [b' palId].
        destruct (palId <? 0)%Z; [|done]. right. by exists l. }
      by destruct (JS.for_upto tilesX _ s). }
    by destruct (JS.for_upto tilesY _ _) as [?|[[? ?] ?]]. }
  by destruct (JS.for_upto frameCount _ _) as [?|[[? ?] ?]].
Qed.

Lemma export_error_kinds pc MAX_LAYERS MAX_PALS e :
  onDownloadCFileClick_ pc MAX_LAYERS MAX_PALS = inl e →
  ((getWidth pc mod 8 ≠ 0 ∨ getHeight pc mod 8 ≠ 0) ∧
   e = Alert (dimensionsText (getWidth pc) (getHeight pc))) ∨
  (getWidth pc mod 8 = 0 ∧ getHeight pc mod 8 = 0 ∧
   ((∃ tx ty fi n, e = Alert (layerOverflowText tx ty fi n MAX_LAYERS)) ∨
    (∃ l, e = Alert (paletteOverflowText l MAX_PALS)) ∨
    e = TypeError)).
Proof.
  unfold onDownloadCFileClick_.
  case_bool_decide as Hdim; [intros [= <-]; by left|].
  assert (Hw : getWidth pc mod 8 = 0) by (destruct (decide (getWidth pc mod 8 = 0)); tauto).
  assert (Hh : getHeight pc mod 8 = 0) by (destruct (decide (getHeight pc mod 8 = 0)); tauto).
  intros Hrun. right. split; [done|]. split; [done|].
  destruct (buildLayeredPlan_ _ _ _ _ _ _ _) as [msg|n groups] eqn:Hplan.
  - injection Hrun as <-. left.
    apply plan_error_text in Hplan as (tx & ty & fi & k & ->). by exists tx, ty, fi, k.
  - destruct (JS.for_upto n _ _) as [e'|[[? ?] ?]] eqn:Hloop; [|done].
    injection Hrun as <-.
    apply pass2_error_kinds in Hloop as [->|(l & _ & ->)]; [by right; right|].
    right. left. by exists l.
Qed.

(** X8 — The dimension check comes first and has an alert of its own:
    whatever the pixels and the limits, the export ends with the alert that
    gives the current width and height exactly when the width or the height
    is not a multiple of 8; no table is built then. *)
Theorem dimension_alert (pc : PiskelController) (MAX_LAYERS MAX_PALS : nat) :
  (getWidth pc mod 8 ≠ 0 ∨ getHeight pc mod 8 ≠ 0) ↔
  onDownloadCFileClick_ pc MAX_LAYERS MAX_PALS
  = inl (Alert (dimensionsText (getWidth pc) (getHeight pc))).
Proof.
  split.
  - intros Hdim. unfold onDownloadCFileClick_. by rewrite bool_decide_eq_true_2.
  - intros Hrun. apply export_error_kinds in Hrun as [[Hdim _]|(_ & _ & Hother)]; [done|].
    exfalso.
    destruct Hother as [(tx & ty & fi & n & He)|[(l & He)|He]].
    + injection He as He. unfold dimensionsText, layerOverflowText in He.
      cbn [String.append] in He. discriminate He.
    + injection He as He. unfold dimensionsText, paletteOverflowText in He.
      cbn [String.append] in He. discriminate He.
    + discriminate He.
Qed.

(** ** The limits read from the page *)

(** X9 — Whatever the page holds, [MAX_LAYERS] is within 1..8 and
    [MAX_PALS_PER_LAYER] within 1..64.  A field of ASCII text that parses as
    an integer is clamped to the range, and one that is missing or does not
    parse leaves the limit of the profile, 6 and 32 for [bg], 3 and 16
    otherwise. *)
Theorem limits_clamped (page : Page) :
  let bg := bool_decide (profileValue page = Some "bg") in
  let parsed (el : option string) := el ≫= JS.parseInt in
  let plain (el : option string) := ∀ value, el = Some value → asciiText value = true in
  ((1 ≤ (readLimits page).1 ≤ 8)%Z ∧ (1 ≤ (readLimits page).2 ≤ 64)%Z) ∧
  (plain (maxLayersValue page) →
   (readLimits page).1
   = match parsed (maxLayersValue page) with
     | Some v => Z.max 1 (Z.min 8 v)
     | None => if bg then 6%Z else 3%Z
     end) ∧
  (plain (maxPalsValue page) →
   (readLimits page).2
   = match parsed (maxPalsValue page) with
     | Some v => Z.max 1 (Z.min 64 v)
     | None => if bg then 32%Z else 16%Z
     end).
Proof.
  cbv zeta. split; [apply readLimits_range|].
  unfold readLimits, readLimit. simpl.
  split; intros _.
  - destruct (maxLayersValue page) as [v1|]; simpl; [|done].
    destruct (JS.parseInt v1) as [v|]; simpl; [|done].
    destruct (Z.ltb_spec v 1); destruct (Z.ltb_spec 8 1); try lia;
      destruct (Z.ltb_spec 8 v); lia.
  - destruct (maxPalsValue page) as [v2|]; simpl; [|done].
    destruct (JS.parseInt v2) as [v|]; simpl; [|done].
    destruct (Z.ltb_spec v 1); destruct (Z.ltb_spec 64 1); try lia;
      destruct (Z.ltb_spec 64 v); lia.
Qed.

Lemma limits_clamped_witness :
  asciiText " 12" = true ∧
  (readLimits {| profileValue := Some "bg"; maxLayersValue := Some " 12";
                 maxPalsValue := Some "many" |}).1 = 8%Z.
Proof.
  assert (Hascii : asciiText " 12" = true) by reflexivity.
  split; [exact Hascii|].
  refine (proj1 (proj2 (limits_clamped
            {| profileValue := Some "bg"; maxLayersValue := Some " 12";
               maxPalsValue := Some "many" |})) _).
  intros value Hvalue. injection Hvalue as <-. exact Hascii.
Defined.

(** X10 — The profile control and the limits agree: on a page with the
    three controls, after the handler of the profile's [change] event the
    export reads the limits 6 and 32 for the profile [bg], and 3 and 16 for
    any other profile, whatever the two fields held before; running the
    handler again changes nothing. *)
Theorem profile_change_limits (page : Page) :
  fullPage page →
  readLimits (onProfileChange page)
  = (if bool_decide (profileValue page = Some "bg") then (6, 32) else (3, 16))%Z ∧
  profileValue (onProfileChange page) = profileValue page ∧
  onProfileChange (onProfileChange page) = onProfileChange page.
Proof.
  intros ([profile Hp] & [ml Hml] & [mp Hmp]).
  unfold onProfileChange. rewrite Hp, Hml, Hmp.
  destruct (decide (profile = "bg")) as [->|Hne].
  - rewrite bool_decide_eq_true_2 by done. simpl. done.
  - rewrite (bool_decide_eq_false_2 (profile = "bg")) by done. simpl.
    rewrite (bool_decide_eq_false_2 (profile = "bg")) by done.
    rewrite (bool_decide_eq_false_2 (Some profile = Some "bg")) by congruence.
    done.
Qed.

Lemma profile_change_limits_witness :
  fullPage {| profileValue := Some "bg"; maxLayersValue := Some "2"; maxPalsValue := Some "" |} ∧
  readLimits (onProfileChange
    {| profileValue := Some "bg"; maxLayersValue := Some "2"; maxPalsValue := Some "" |})
  = (6, 32)%Z.
Proof.
  assert (Hfull : fullPage {| profileValue := Some "bg"; maxLayersValue := Some "2";
                              maxPalsValue := Some "" |}).
  { unfold fullPage. simpl. split_and!; by eexists. }
  split; [exact Hfull|].
  exact (proj1 (profile_change_limits _ Hfull)).
Defined.

(** ** The banks of pass 2 *)

Lemma encode_byteRecord pix imgW x0 y0 groupKeys :
  byteRecord (encodeNgpcTile2bppLayered_ pix imgW x0 y0 groupKeys).
Proof.
  split; [apply encode_length|]. rewrite encode_bytes. simpl.
  repeat constructor;
    change 255%Z with (Z.ones 8); rewrite Z.land_ones by lia;
    apply Z.mod_pos_bound; lia.
Qed.

Lemma groupPalette_length groups l fi t : length (groupPalette groups l fi t) = 4.
Proof. apply palette_length. Qed.

Section Banks.

Context (pc : PiskelController) (groups : list (list (list (list string)))).
Context (maxPals imgW frameCount tilesX tilesY n : nat).
Hypothesis Hgroups : ∀ l fi ty tx,
  l < n → fi < frameCount → ty < tilesY → tx < tilesX →
  is_Some (getGroup groups l fi (ty * tilesX + tx)).

Local Abbreviation bankAt := (interned groups maxPals tilesX tilesY).
Local Abbreviation overflows := (bankOverflows groups maxPals frameCount tilesX tilesY).

Lemma interned_equiv l fi ty tx fi2 ty2 tx2 bank :
  (∀ fi' ty' tx', tileBefore tilesX tilesY fi ty tx fi' ty' tx'
                  ↔ tileBefore tilesX tilesY fi2 ty2 tx2 fi' ty' tx') →
  bankAt l fi ty tx bank → bankAt l fi2 ty2 tx2 bank.
Proof.
  intros Heq (Hnd & Hcap & Hmem). split_and!; [done|done|].
  intros p. rewrite Hmem. split; intros (fi' & ty' & tx' & Hb & ->);
    exists fi', ty', tx'; (split; [by apply Heq|done]).
Qed.

Lemma interned_length l fi ty tx fi2 ty2 tx2 bank bank2 :
  (∀ fi' ty' tx', tileBefore tilesX tilesY fi ty tx fi' ty' tx'
                  → tileBefore tilesX tilesY fi2 ty2 tx2 fi' ty' tx') →
  bankAt l fi ty tx bank → bankAt l fi2 ty2 tx2 bank2 → length bank ≤ length bank2.
Proof.
  intros Hsub (Hnd & _ & Hmem) (_ & _ & Hmem2).
  apply submseteq_length, NoDup_submseteq; [done|].
  intros p (fi' & ty' & tx' & Hb & ->)%Hmem. apply Hmem2.
  exists fi', ty', tx'. split; [by apply Hsub|done].
Qed.

Lemma idsOk_grow bank bank' ids : length bank ≤ length bank' → idsOk bank ids → idsOk bank' ids.
Proof.
  intros Hle Hids. unfold idsOk. eapply Forall_impl; [exact Hids|]. intros id. simpl. lia.
Qed.

(** One tile. *)
Lemma exportTile_bank l fi ty tx st :
  l < n → fi < frameCount → ty < tilesY → tx < tilesX →
  tilesDone groups maxPals tilesX tilesY l fi ty tx st →
  match exportTile groups maxPals (frameData pc fi) imgW tilesX l fi ty tx st with
  | inr st' => tilesDone groups maxPals tilesX tilesY l fi ty (S tx) st'
  | inl e => overflows l e
  end.
Proof.
  intros Hl Hfi Hty Htx. destruct st as [[bank ids] tiles].
  intros ((Hnd & Hcap & Hmem) & Hids & Hok & Htiles & Hrec). simpl in *.
  unfold exportTile.
  destruct (Hgroups l fi ty tx Hl Hfi Hty Htx) as [group Hg]. rewrite Hg.
  assert (Hpal : buildTilePaletteRgb444_ group = groupPalette groups l fi (ty * tilesX + tx)).
  { unfold groupPalette. by rewrite Hg. }
  set (pal := buildTilePaletteRgb444_ group) in *.
  assert (Hlen4 : ∀ p, p ∈ bank → length p = 4).
  { intros p (fi' & ty' & tx' & _ & ->)%Hmem. apply groupPalette_length. }
  assert (Hnext : ∀ fi' ty' tx',
    tileBefore tilesX tilesY fi ty (S tx) fi' ty' tx'
    ↔ tileBefore tilesX tilesY fi ty tx fi' ty' tx' ∨ (fi' = fi ∧ ty' = ty ∧ tx' = tx)).
  { intros fi' ty' tx'. unfold tileBefore. lia. }
  assert (Hrec' : Forall byteRecord
            (tiles ++ [encodeNgpcTile2bppLayered_ (frameData pc fi) imgW (tx * 8) (ty * 8) group])).
  { apply Forall_app. split; [done|]. apply Forall_singleton, encode_byteRecord. }
  unfold findOrAddPalette_.
  destruct (findPalette bank pal 0) as [i|] eqn:Hfind.
  - apply findPalette_Some in Hfind as (_ & (p & Hp & Hsame) & _).
    rewrite Nat.sub_0_r in Hp.
    assert (Hin : p ∈ bank) by (apply list_elem_of_lookup; by exists i).
    apply samePalette_eq in Hsame; [|by apply Hlen4|apply palette_length]. subst p.
    assert (Hpos : (Z.of_nat i <? 0)%Z = false) by (apply Z.ltb_ge; lia).
    rewrite Hpos. unfold tilesDone. simpl. split_and!.
    + split_and!; [done|done|]. intros p. rewrite Hmem. split.
      * intros (fi' & ty' & tx' & Hb & ->). exists fi', ty', tx'.
        split; [apply Hnext; by left|done].
      * intros (fi' & ty' & tx' & [Hb|(-> & -> & ->)]%Hnext & ->).
        -- by exists fi', ty', tx'.
        -- rewrite <- Hpal. by apply Hmem.
    + rewrite length_app. simpl. lia.
    + apply Forall_app. split; [done|]. apply Forall_singleton.
      apply lookup_lt_Some in Hp. lia.
    + rewrite length_app. simpl. lia.
    + done.
  - rewrite findPalette_None in Hfind.
    assert (Hnotin : pal ∉ bank).
    { intros Hin. specialize (Hfind pal Hin). by rewrite samePalette_refl in Hfind. }
    case_bool_decide as Hfull.
    + simpl. split; [done|]. exists fi, ty, tx, bank.
      split_and!; [done|done|done|by split_and!|lia|by rewrite <- Hpal].
    + assert (Hpos : (Z.of_nat (length (bank ++ [pal])) - 1 <? 0)%Z = false).
      { apply Z.ltb_ge. rewrite length_app. simpl. lia. }
      rewrite Hpos. unfold tilesDone. simpl. split_and!.
      * split_and!.
        -- apply NoDup_app. split_and!; [done| |apply NoDup_singleton].
           intros p Hp ->%list_elem_of_singleton. done.
        -- rewrite length_app. simpl. lia.
        -- intros p. rewrite elem_of_app, list_elem_of_singleton, Hmem. split.
           ++ intros [(fi' & ty' & tx' & Hb & ->)| ->].
              ** exists fi', ty', tx'. split; [apply Hnext; by left|done].
              ** exists fi, ty, tx. split; [apply Hnext; by right|done].
           ++ intros (fi' & ty' & tx' & [Hb|(-> & -> & ->)]%Hnext & ->).
              ** left. by exists fi', ty', tx'.
              ** by right.
      * rewrite length_app. simpl. lia.
      * apply Forall_app. split.
        -- apply (idsOk_grow bank); [rewrite length_app; lia|done].
        -- apply Forall_singleton. rewrite length_app. simpl. lia.
      * rewrite length_app. simpl. lia.
      * done.
Qed.

(** The tiles of a row, then the rows of a frame. *)
Lemma export_row_bank l fi ty st :
  l < n → fi < frameCount → ty < tilesY →
  tilesDone groups maxPals tilesX tilesY l fi ty 0 st →
  match
    JS.for_upto tilesX
      (λ tx st, exportTile groups maxPals (frameData pc fi) imgW tilesX l fi ty tx st) st
  with
  | inr st' => tilesDone groups maxPals tilesX tilesY l fi (S ty) 0 st'
  | inl e => overflows l e
  end.
Proof.
  intros Hl Hfi Hty Hst.
  apply (sum_match_impl (tilesDone groups maxPals tilesX tilesY l fi ty tilesX)).
  { intros s (Hbank & Hrest). split.
    - revert Hbank. apply interned_equiv. intros fi' ty' tx'. unfold tileBefore. lia.
    - by replace (S ty * tilesX + 0) with (ty * tilesX + tilesX) by lia. }
  apply (for_upto_match (λ tx st, tilesDone groups maxPals tilesX tilesY l fi ty tx st)); [done|].
  intros tx s Htx. by apply exportTile_bank.
Qed.

Lemma export_tiles_bank l fi bank0 :
  l < n → fi < frameCount →
  bankAt l fi 0 0 bank0 →
  match
    JS.for_upto tilesY (λ ty st,
      JS.for_upto tilesX
        (λ tx st, exportTile groups maxPals (frameData pc fi) imgW tilesX l fi ty tx st) st)
      (bank0, [], [])
  with
  | inr st => tilesDone groups maxPals tilesX tilesY l fi tilesY 0 st
  | inl e => overflows l e
  end.
Proof.
  intros Hl Hfi Hbank.
  apply (for_upto_match (λ ty st, tilesDone groups maxPals tilesX tilesY l fi ty 0 st)).
  { unfold tilesDone, idsOk. simpl. split_and!; done. }
  intros ty s Hty. by apply export_row_bank.
Qed.

(** One frame. *)
Lemma exportFrame_bank l fi st :
  l < n → fi < frameCount →
  framesDone groups maxPals tilesX tilesY l fi st →
  match exportFrame pc groups maxPals imgW tilesX tilesY l fi st with
  | inr st' => framesDone groups maxPals tilesX tilesY l (S fi) st'
  | inl e => overflows l e
  end.
Proof.
  intros Hl Hfi. destruct st as [[bank palIdMap] tiles].
  intros (Hbank & Hlen1 & Hids & Hlen2 & Hrec). simpl in *.
  unfold exportFrame.
  pose proof (export_tiles_bank l fi bank Hl Hfi Hbank) as Hloops.
  destruct (JS.for_upto tilesY _ _) as [e|[[bank' ids] frameTiles]]; [done|].
  destruct Hloops as (Hbank' & Hl1 & Hok & Hl2 & Hrec'). simpl in *.
  assert (Hgrow : length bank ≤ length bank').
  { apply (interned_length l fi 0 0 fi tilesY 0); [|done|done].
    intros fi' ty' tx'. unfold tileBefore. lia. }
  unfold framesDone. simpl. split_and!.
  - revert Hbank'. apply interned_equiv. intros fi' ty' tx'. unfold tileBefore. lia.
  - rewrite length_app. simpl. lia.
  - apply Forall_app. split.
    + eapply Forall_impl; [exact Hids|]. intros ids' [? ?]. split; [done|].
      by apply (idsOk_grow bank).
    + apply Forall_singleton. split; [lia|done].
  - rewrite length_app. simpl. lia.
  - apply Forall_app. split; [done|]. apply Forall_singleton. split; [lia|done].
Qed.

(** One layer. *)
Lemma exportLayer_bank l st :
  l < n →
  layersDone groups maxPals frameCount tilesX tilesY l st →
  match exportLayer pc groups maxPals imgW frameCount tilesX tilesY l st with
  | inr st' => layersDone groups maxPals frameCount tilesX tilesY (S l) st'
  | inl e => overflows l e
  end.
Proof.
  intros Hl. destruct st as [[palettes palIdMaps] tiles].
  intros (Hlen1 & Hlen2 & Hlen3 & Hdone). simpl in *.
  unfold exportLayer.
  assert (Hframes :
    match JS.for_upto frameCount (exportFrame pc groups maxPals imgW tilesX tilesY l)
            ([], [], []) with
    | inr st => framesDone groups maxPals tilesX tilesY l frameCount st
    | inl e => overflows l e
    end).
  { apply (for_upto_match (λ fi st, framesDone groups maxPals tilesX tilesY l fi st)).
    { unfold framesDone, interned. simpl. split_and!; try done.
      - constructor.
      - lia.
      - intros p. split; [by intros ?%elem_of_nil|].
        intros (fi' & ty' & tx' & (_ & _ & Hb) & _). lia. }
    intros fi s Hfi. by apply exportFrame_bank. }
  destruct (JS.for_upto frameCount _ _) as [e|[[bank palIdMap] layerTiles]]; [done|].
  unfold layersDone. simpl.
  split_and!; [rewrite length_app; simpl; lia|rewrite length_app; simpl; lia
              |rewrite length_app; simpl; lia|].
  intros l' Hl'. destruct (decide (l' = l)) as [->|Hne].
  - exists bank, palIdMap, layerTiles. split_and!; [| | |done].
    + rewrite lookup_app_r by lia. by rewrite Hlen1, Nat.sub_diag.
    + rewrite lookup_app_r by lia. by rewrite Hlen2, Nat.sub_diag.
    + rewrite lookup_app_r by lia. by rewrite Hlen3, Nat.sub_diag.
  - destruct (Hdone l') as (b & m & lt & ? & ? & ? & ?); [lia|].
    exists b, m, lt. split_and!; [by apply lookup_app_l_Some..|done].
Qed.

(** The three loops of pass 2: they complete with every layer done, or
    leave in the first layer whose bank overflows. *)
Lemma pass2_banks :
  match
    JS.for_upto n (exportLayer pc groups maxPals imgW frameCount tilesX tilesY) ([], [], [])
  with
  | inr st => layersDone groups maxPals frameCount tilesX tilesY n st
  | inl e => ∃ l st, l < n ∧ layersDone groups maxPals frameCount tilesX tilesY l st ∧
                     overflows l e
  end.
Proof.
  apply (for_upto_match
           (λ l st, layersDone groups maxPals frameCount tilesX tilesY l st)).
  { unfold layersDone. simpl. split_and!; [done|done|done|]. intros; lia. }
  intros l s Hl Hs. pose proof (exportLayer_bank l s Hl Hs) as Hstep.
  destruct (exportLayer _ _ _ _ _ _ _ _ s); [|done]. by exists l, s.
Qed.

End Banks.

(** What [onDownloadCFileClick_] makes of a valid image, bank by bank. *)
Lemma export_banks pc MAX_LAYERS MAX_PALS :
  validImage pc → 1 ≤ MAX_LAYERS →
  match onDownloadCFileClick_ pc MAX_LAYERS MAX_PALS with
  | inr T =>
      ∃ groups,
        planOf pc MAX_LAYERS = PlanOk (layerCount T) groups ∧
        layersDone groups MAX_PALS (getFrameCount pc) (getWidth pc / 8) (getHeight pc / 8)
                   (layerCount T) (perLayerPalettes T, perLayerPalIdMap T, perLayerTiles T)
  | inl e =>
      (∃ msg, planOf pc MAX_LAYERS = PlanFailed msg ∧ e = Alert msg) ∨
      (∃ n groups l st,
         planOf pc MAX_LAYERS = PlanOk n groups ∧ l < n ∧
         layersDone groups MAX_PALS (getFrameCount pc) (getWidth pc / 8) (getHeight pc / 8) l st ∧
         bankOverflows groups MAX_PALS (getFrameCount pc) (getWidth pc / 8) (getHeight pc / 8)
                       l e)
  end.
Proof.
  intros Hvalid HML. pose proof Hvalid as (Hw & Hh & _).
  unfold onDownloadCFileClick_, planOf.
  case_bool_decide as Hdim; [destruct Hdim; done|].
  destruct (buildLayeredPlan_ _ _ _ _ _ _ _) as [msg|n groups] eqn:Hplan.
  { left. by exists msg. }
  destruct (buildLayeredPlan_ok _ _ _ _ _ _ _ _ _ Hplan) as (_ & _ & _ & Hok).
  destruct (Hok HML) as [_ Hget].
  assert (Hgroups : ∀ l fi ty tx,
    l < n → fi < getFrameCount pc → ty < getHeight pc / 8 → tx < getWidth pc / 8 →
    is_Some (getGroup groups l fi (ty * (getWidth pc / 8) + tx))).
  { intros l fi ty tx Hl Hfi Hty Htx. rewrite Hget by done. by eexists. }
  pose proof (pass2_banks pc groups MAX_PALS (getWidth pc) (getFrameCount pc)
                (getWidth pc / 8) (getHeight pc / 8) n Hgroups) as Hloops.
  destruct (JS.for_upto n _ _) as [e|[[pals ids] tiles]].
  - right. destruct Hloops as (l & st & Hl & Hdone & Hover). by exists n, groups, l, st.
  - simpl. by exists groups.
Qed.

Lemma elem_of_layerPalettes groups frameCount tilesX tilesY l p :
  p ∈ layerPalettes groups frameCount tilesX tilesY l ↔
  ∃ fi ty tx, tileBefore tilesX tilesY frameCount 0 0 fi ty tx ∧
              p = groupPalette groups l fi (ty * tilesX + tx).
Proof.
  unfold layerPalettes. rewrite list_elem_of_fmap. split.
  - intros ([[fi ty] tx] & -> & Hin%elem_of_allTiles). simpl.
    exists fi, ty, tx. split; [by apply tileBefore_end|done].
  - intros (fi & ty & tx & Hb%tileBefore_end & ->).
    exists (fi, ty, tx). split; [done|by apply elem_of_allTiles].
Qed.

(** A bank that is complete holds the distinct palettes of its layer. *)
Lemma interned_all groups maxPals frameCount tilesX tilesY l bank :
  interned groups maxPals tilesX tilesY l frameCount 0 0 bank →
  bank ≡ₚ remove_dups (layerPalettes groups frameCount tilesX tilesY l) ∧
  length bank = paletteCount groups frameCount tilesX tilesY l.
Proof.
  intros (Hnd & _ & Hmem).
  assert (Hperm : bank ≡ₚ remove_dups (layerPalettes groups frameCount tilesX tilesY l)).
  { apply NoDup_Permutation; [done|apply NoDup_remove_dups|].
    intros p. by rewrite elem_of_remove_dups, elem_of_layerPalettes, Hmem. }
  split; [done|]. unfold paletteCount. by rewrite Hperm.
Qed.

(** A bank that overflows: its layer has more distinct palettes than the
    bank can hold. *)
Lemma overflow_count groups maxPals frameCount tilesX tilesY l e :
  bankOverflows groups maxPals frameCount tilesX tilesY l e →
  maxPals < paletteCount groups frameCount tilesX tilesY l.
Proof.
  intros (_ & fi & ty & tx & bank & Hfi & Hty & Htx & (Hnd & _ & Hmem) & Hlen & Hnotin).
  unfold paletteCount.
  set (pal := groupPalette groups l fi (ty * tilesX + tx)) in *.
  assert (Hsub : bank ++ [pal] ⊆+ remove_dups (layerPalettes groups frameCount tilesX tilesY l)).
  { apply NoDup_submseteq.
    - apply NoDup_app. split_and!; [done| |apply NoDup_singleton].
      intros p Hp ->%list_elem_of_singleton. done.
    - intros p. rewrite elem_of_remove_dups, elem_of_layerPalettes, elem_of_app,
        list_elem_of_singleton.
      intros [(fi' & ty' & tx' & Hb & ->)%Hmem| ->].
      + exists fi', ty', tx'. split; [|done]. unfold tileBefore in *. lia.
      + exists fi, ty, tx. split; [|done]. unfold tileBefore. lia. }
  apply submseteq_length in Hsub. rewrite length_app in Hsub. simpl in Hsub. lia.
Qed.

(** ** Palette interning *)

(** After a plan that succeeded, the export ends with an alert only where
    a bank overflows: on reaching some tile of a layer, the bank holds
    [MAX_PALS] distinct palettes, those of the tiles before it, and not the
    palette of the tile; that layer is the first with more than [MAX_PALS]
    distinct palettes. *)
Lemma export_overflows pc MAX_LAYERS MAX_PALS n groups e :
  validImage pc → 1 ≤ MAX_LAYERS →
  planOf pc MAX_LAYERS = PlanOk n groups →
  onDownloadCFileClick_ pc MAX_LAYERS MAX_PALS = inl e →
  let frameCount := getFrameCount pc in
  let tilesX := getWidth pc / 8 in
  let tilesY := getHeight pc / 8 in
  ∃ l fi ty tx bank,
    l < n ∧ fi < frameCount ∧ ty < tilesY ∧ tx < tilesX ∧
    interned groups MAX_PALS tilesX tilesY l fi ty tx bank ∧
    length bank = MAX_PALS ∧
    (groupPalette groups l fi (ty * tilesX + tx) ∉ bank) ∧
    paletteOverflowAt groups MAX_PALS tilesX l fi ty tx e ∧
    MAX_PALS < paletteCount groups frameCount tilesX tilesY l ∧
    (∀ l', l' < l → paletteCount groups frameCount tilesX tilesY l' ≤ MAX_PALS) ∧
    e = Alert (paletteOverflowText l MAX_PALS).
Proof.
  intros Hvalid HML Hplan Hexp. cbv zeta.
  pose proof (export_banks pc MAX_LAYERS MAX_PALS Hvalid HML) as Hb.
  rewrite Hexp in Hb.
  destruct Hb as [(msg & Hfail & _)|(n' & groups' & l & st & Hplan' & Hl & Hst & Hover)].
  { rewrite Hplan in Hfail. done. }
  rewrite Hplan in Hplan'. injection Hplan' as <- <-.
  pose proof (overflow_count _ _ _ _ _ _ _ Hover) as Hcount.
  destruct Hover as (-> & fi & ty & tx & bank & Hfi & Hty & Htx & Hint & Hlen & Hnotin).
  exists l, fi, ty, tx, bank. split_and!; try done.
  - unfold planOf in Hplan.
    destruct (buildLayeredPlan_ok _ _ _ _ _ _ _ _ _ Hplan) as (_ & _ & _ & Hok).
    destruct (Hok HML) as [_ Hget].
    specialize (Hget fi ty tx l Hfi Hty Htx Hl).
    assert (Hpal : groupPalette groups l fi (ty * (getWidth pc / 8) + tx)
                   = buildTilePaletteRgb444_
                       (slice3 (tileColorList (frameData pc fi) (getWidth pc) tx ty) l)).
    { unfold groupPalette. by rewrite Hget. }
    rewrite Hpal in Hnotin.
    assert (Hfind : findPalette bank
                      (buildTilePaletteRgb444_
                         (slice3 (tileColorList (frameData pc fi) (getWidth pc) tx ty) l)) 0
                    = None).
    { apply findPalette_None. intros p Hp.
      destruct (samePalette p _) eqn:Hsame; [|done].
      apply samePalette_eq in Hsame; [by subst p| |apply palette_length].
      destruct Hint as (_ & _ & Hmem).
      apply Hmem in Hp as (fi' & ty' & tx' & _ & ->). apply groupPalette_length. }
    eexists bank, _. split_and!; [exact Hget|done|exact Hfind| |done].
    unfold findOrAddPalette_. rewrite Hfind.
    by rewrite bool_decide_eq_true_2 by lia.
  - intros l' Hl'. destruct Hst as (_ & _ & _ & Hall).
    destruct (Hall l' Hl') as (bank' & m & lt & _ & _ & _ & Hint' & _). cbn [fst snd] in Hint'.
    destruct (interned_all _ _ _ _ _ _ _ Hint') as [_ <-]. by destruct Hint' as (_ & ? & _).
Qed.

(** After a plan that succeeded, the export builds its tables exactly when
    no layer has more than [MAX_PALS] distinct palettes, and stops at the
    first layer that has more. *)
Lemma export_palette_counts pc MAX_LAYERS MAX_PALS n groups :
  validImage pc → 1 ≤ MAX_LAYERS →
  planOf pc MAX_LAYERS = PlanOk n groups →
  let count l :=
    paletteCount groups (getFrameCount pc) (getWidth pc / 8) (getHeight pc / 8) l in
  ((∃ T, onDownloadCFileClick_ pc MAX_LAYERS MAX_PALS = inr T) ↔
   ∀ l, l < n → count l ≤ MAX_PALS) ∧
  (∀ l, l < n → MAX_PALS < count l → (∀ l', l' < l → count l' ≤ MAX_PALS) →
     onDownloadCFileClick_ pc MAX_LAYERS MAX_PALS
     = inl (Alert (paletteOverflowText l MAX_PALS))).
Proof.
  intros Hvalid HML Hplan. cbv zeta.
  destruct (onDownloadCFileClick_ pc MAX_LAYERS MAX_PALS) as [e|T] eqn:Hexp.
  - destruct (export_overflows _ _ _ _ _ _ Hvalid HML Hplan Hexp)
      as (l0 & _ & _ & _ & _ & Hl0 & _ & _ & _ & _ & _ & _ & _ & Hcount & Hfirst & ->).
    split.
    + split; [by intros [T ?]|]. intros Hall. specialize (Hall l0 Hl0). lia.
    + intros l Hl Hmore Hless.
      destruct (lt_eq_lt_dec l l0) as [[Hlt| ->]|Hlt]; [|done|].
      * specialize (Hfirst l Hlt). lia.
      * specialize (Hless l0 Hlt). lia.
  - pose proof (export_banks pc MAX_LAYERS MAX_PALS Hvalid HML) as Hb.
    rewrite Hexp in Hb. destruct Hb as (groups' & Hplan' & Hst).
    rewrite Hplan in Hplan'. injection Hplan' as -> <-.
    assert (Hdone : ∀ l, l < layerCount T →
      paletteCount groups (getFrameCount pc) (getWidth pc / 8) (getHeight pc / 8) l ≤ MAX_PALS).
    { intros l Hl. destruct Hst as (_ & _ & _ & Hall).
      destruct (Hall l Hl) as (bank & m & lt & _ & _ & _ & Hint & _). cbn [fst snd] in Hint.
      destruct (interned_all _ _ _ _ _ _ _ Hint) as [_ <-]. by destruct Hint as (_ & ? & _). }
    split.
    + split; [|by exists T]. intros _ l Hl. by apply Hdone.
    + intros l Hl Hmore _. pose proof (Hdone l Hl). lia.
Qed.

(** C7 — Palette interning: the lookup scans the bank in insertion order
    for an entry equal in all four slots and returns the index of the first
    one; when there is none and the bank is below [maxPalettesPerLayer], the
    palette is appended and its new index returned; when there is none and
    the bank is full, -1 is returned, the bank is left as it is, and the
    export stops with an alert and no tables.  The text of that alert holds
    two numbers, the layer and the capacity.  For a valid image whose plan
    succeeded, the export ends with that alert exactly in this case: on
    reaching some tile of layer [l] the bank holds [maxPalettesPerLayer]
    distinct palettes, those of the tiles before it, and not the palette of
    the tile; [l] is then the first layer with more distinct palettes than
    the capacity, and whenever there is such a layer the export ends with
    the alert for the first one.  Hence in an export that succeeds every
    bank has at most [maxPalettesPerLayer] palettes and every palette id is
    an index into the bank of its layer, where the palette of the tile's
    group is found. *)
Theorem palette_interning (maxCount : nat) :
  (∀ bank pal4,
     let r := findOrAddPalette_ bank pal4 maxCount in
     (∀ i p, bank !! i = Some p → samePalette p pal4 = true →
        (∀ j q, j < i → bank !! j = Some q → samePalette q pal4 = false) →
        r = (bank, Z.of_nat i)) ∧
     ((∀ q, q ∈ bank → samePalette q pal4 = false) → length bank < maxCount →
        r = (bank ++ [pal4], Z.of_nat (length bank))) ∧
     ((∀ q, q ∈ bank → samePalette q pal4 = false) → maxCount ≤ length bank →
        r = (bank, (-1)%Z)) ∧
     (length bank ≤ maxCount →
        length r.1 ≤ maxCount ∧
        (r.2 = (-1)%Z ∨
         (0 ≤ r.2 < Z.of_nat (length r.1))%Z ∧
         ∃ p, r.1 !! Z.to_nat r.2 = Some p ∧ samePalette p pal4 = true))) ∧
  (∀ p q, samePalette p q = true ↔ ∀ k, k < 4 → p !! k = q !! k) ∧
  (∀ groups pix width tilesX l fi ty tx bank ids tiles group,
     getGroup groups l fi (ty * tilesX + tx) = Some group →
     (findOrAddPalette_ bank (buildTilePaletteRgb444_ group) maxCount).2 = (-1)%Z →
     exportTile groups maxCount pix width tilesX l fi ty tx (bank, ids, tiles)
     = inl (Alert (paletteOverflowText l maxCount))) ∧
  (∀ (S : Type) n i (body : nat → S → Failure + S) s0 s e,
     i < n → JS.for_upto i body s0 = inr s → body i s = inl e →
     JS.for_upto n body s0 = inl e) ∧
  (∀ l, numbers (paletteOverflowText l maxCount) = [N.of_nat l; N.of_nat maxCount]) ∧
  (∀ pc MAX_LAYERS,
     validImage pc → 1 ≤ MAX_LAYERS →
     let frameCount := getFrameCount pc in
     let tilesX := getWidth pc / 8 in
     let tilesY := getHeight pc / 8 in
     match onDownloadCFileClick_ pc MAX_LAYERS maxCount with
     | inr T =>
         length (perLayerPalettes T) = layerCount T ∧
         ∀ l fi ty tx,
           l < layerCount T → fi < frameCount → ty < tilesY → tx < tilesX →
           let t := ty * tilesX + tx in
           let bank := perLayerPalettes T !!! l in
           length bank ≤ maxCount ∧
           (0 ≤ paletteIdAt T l fi t < Z.of_nat (length bank))%Z ∧
           bank !! Z.to_nat (paletteIdAt T l fi t)
           = Some (buildTilePaletteRgb444_
                     (slice3 (tileColorList (frameData pc fi) (getWidth pc) tx ty) l))
     | inl e =>
         (∃ msg, planOf pc MAX_LAYERS = PlanFailed msg ∧ e = Alert msg) ∨
         (∃ n groups l fi ty tx bank,
            planOf pc MAX_LAYERS = PlanOk n groups ∧
            l < n ∧ fi < frameCount ∧ ty < tilesY ∧ tx < tilesX ∧
            NoDup bank ∧
            (∀ p, p ∈ bank ↔
               ∃ fi' ty' tx', tileBefore tilesX tilesY fi ty tx fi' ty' tx' ∧
                 p = buildTilePaletteRgb444_
                       (default [] (getGroup groups l fi' (ty' * tilesX + tx')))) ∧
            length bank = maxCount ∧
            (buildTilePaletteRgb444_ (default [] (getGroup groups l fi (ty * tilesX + tx)))
               ∉ bank) ∧
            paletteOverflowAt groups maxCount tilesX l fi ty tx e ∧
            maxCount < paletteCount groups frameCount tilesX tilesY l ∧
            (∀ l', l' < l → paletteCount groups frameCount tilesX tilesY l' ≤ maxCount) ∧
            e = Alert (paletteOverflowText l maxCount) ∧
            numbers (paletteOverflowText l maxCount) = [N.of_nat l; N.of_nat maxCount])
     end) ∧
  (∀ pc MAX_LAYERS n groups l,
     validImage pc → 1 ≤ MAX_LAYERS →
     planOf pc MAX_LAYERS = PlanOk n groups →
     let count l :=
       paletteCount groups (getFrameCount pc) (getWidth pc / 8) (getHeight pc / 8) l in
     l < n → maxCount < count l → (∀ l', l' < l → count l' ≤ maxCount) →
     onDownloadCFileClick_ pc MAX_LAYERS maxCount
     = inl (Alert (paletteOverflowText l maxCount))).
Proof.
  split_and!.
  - intros bank pal4. cbv zeta. unfold findOrAddPalette_. split_and!.
    + intros i p Hp Hsame Hfirst.
      destruct (findPalette bank pal4 0) as [i'|] eqn:Hfind.
      * apply findPalette_Some in Hfind as (_ & (p' & Hp' & Hsame') & Hbefore).
        rewrite Nat.sub_0_r in Hp', Hbefore.
        destruct (lt_eq_lt_dec i i') as [[Hlt| ->]|Hlt]; [|done|].
        -- rewrite (Hbefore i p Hlt Hp) in Hsame. done.
        -- rewrite (Hfirst i' p' Hlt Hp') in Hsame'. done.
      * rewrite findPalette_None in Hfind. rewrite Hfind in Hsame; [done|].
        apply list_elem_of_lookup. by exists i.
    + intros Hnone Hroom.
      rewrite (proj2 (findPalette_None bank pal4 0) Hnone).
      rewrite bool_decide_eq_false_2 by lia. rewrite length_app. simpl.
      do 2 f_equal. lia.
    + intros Hnone Hfull.
      rewrite (proj2 (findPalette_None bank pal4 0) Hnone).
      by rewrite bool_decide_eq_true_2.
    + intros Hcap.
      destruct (findPalette bank pal4 0) as [i|] eqn:Hfind; simpl.
      * apply findPalette_Some in Hfind as (_ & (p & Hp & Hsame) & _).
        rewrite Nat.sub_0_r in Hp. split; [done|]. right.
        rewrite Nat2Z.id. split; [|by exists p].
        apply lookup_lt_Some in Hp. lia.
      * case_bool_decide; simpl; [split; [done|by left]|].
        rewrite length_app. simpl. split; [lia|]. right. split; [lia|].
        exists pal4. split; [|apply samePalette_refl].
        replace (Z.to_nat (Z.of_nat (length bank + 1) - 1)) with (length bank) by lia.
        by rewrite lookup_app_r, Nat.sub_diag by lia.
  - apply samePalette_slots.
  - intros groups pix width tilesX l fi ty tx bank ids tiles group Hg Hfull.
    unfold exportTile. rewrite Hg.
    destruct (findOrAddPalette_ bank (buildTilePaletteRgb444_ group) maxCount) as [bank' palId].
    simpl in Hfull. subst palId. done.
  - intros S n i body s0 s e. apply for_upto_leave.
  - intros l. apply numbers_paletteOverflowText.
  - intros pc MAX_LAYERS Hvalid HML. cbv zeta.
    destruct (onDownloadCFileClick_ pc MAX_LAYERS maxCount) as [e|T] eqn:Hexp.
    + destruct (planOf pc MAX_LAYERS) as [msg|n groups] eqn:Hplan.
      { left. exists msg. split; [done|].
        revert Hexp. unfold onDownloadCFileClick_.
        pose proof Hvalid as (Hw & Hh & _).
        case_bool_decide as Hdim; [destruct Hdim; done|].
        unfold planOf in Hplan. rewrite Hplan. by intros [= <-]. }
      right.
      destruct (export_overflows _ _ _ _ _ _ Hvalid HML Hplan Hexp)
        as (l & fi & ty & tx & bank & Hl & Hfi & Hty & Htx & (Hnd & _ & Hmem) & Hlen & Hnotin
            & Hat & Hcount & Hfirst & He).
      exists n, groups, l, fi, ty, tx, bank.
      split_and!; try done. apply numbers_paletteOverflowText.
    + destruct (export_cell pc MAX_LAYERS maxCount T Hvalid HML Hexp)
        as (groups & _ & Hlen & Hcell).
      split; [done|]. intros l fi ty tx Hl Hfi Hty Htx. cbv zeta.
      destruct (Hcell l fi ty tx Hl Hfi Hty Htx) as (_ & [Hcap Hlen4] & Hid & Hpal & _).
      cbv zeta in Hpal. split_and!; [done|lia|lia|].
      unfold paletteAt in Hpal. rewrite <- Hpal.
      apply list_lookup_lookup_total_lt. lia.
  - intros pc MAX_LAYERS n groups l Hvalid HML Hplan. cbv zeta. intros Hl Hmore Hless.
    by apply (proj2 (export_palette_counts pc MAX_LAYERS maxCount n groups Hvalid HML Hplan)).
Qed.

Lemma palette_interning_witness :
  validImage twoTileImage ∧ 1 ≤ 3 ∧
  planOf twoTileImage 3 = PlanOk 1 twoTileGroups ∧
  0 < 1 ∧ 1 < paletteCount twoTileGroups 1 2 1 0 ∧
  onDownloadCFileClick_ twoTileImage 3 1 = inl (Alert (paletteOverflowText 0 1)) ∧
  numbers (paletteOverflowText 0 1) = [0; 1]%N.
Proof.
  assert (Hvalid : validImage twoTileImage) by solve_validImage.
  assert (H3 : 1 ≤ 3) by lia.
  assert (Hplan : planOf twoTileImage 3 = PlanOk 1 twoTileGroups) by reflexivity.
  assert (H01 : 0 < 1) by lia.
  assert (Hcount : 1 < paletteCount twoTileGroups 1 2 1 0) by (vm_compute; lia).
  assert (Hless : ∀ l', l' < 0 → paletteCount twoTileGroups 1 2 1 l' ≤ 1) by (intros; lia).
  split_and!; [exact Hvalid|exact H3|exact Hplan|exact H01|exact Hcount| |].
  - exact (proj2 (proj2 (proj2 (proj2 (proj2 (proj2 (palette_interning 1))))))
             twoTileImage 3 1 twoTileGroups 0 Hvalid H3 Hplan H01 Hcount Hless).
  - exact (proj1 (proj2 (proj2 (proj2 (proj2 (palette_interning 1))))) 0).
Defined.

(** ** What the banks hold *)

(** X11 — The banks hold no duplicate: in an export that succeeds the bank
    of every layer lists each distinct palette used by the tiles of that
    layer, over all the frames, exactly once, and nothing else; its size is
    the number of distinct palettes of the layer, at most
    [MAX_PALS_PER_LAYER]. *)
Theorem banks_distinct (pc : PiskelController) (MAX_LAYERS MAX_PALS : nat) (T : Tables) :
  validImage pc → 1 ≤ MAX_LAYERS →
  onDownloadCFileClick_ pc MAX_LAYERS MAX_PALS = inr T →
  ∃ groups,
    planOf pc MAX_LAYERS = PlanOk (layerCount T) groups ∧
    length (perLayerPalettes T) = layerCount T ∧
    ∀ l bank, perLayerPalettes T !! l = Some bank →
      NoDup bank ∧
      (∀ p, p ∈ bank ↔
         ∃ fi ty tx, fi < getFrameCount pc ∧ ty < getHeight pc / 8 ∧ tx < getWidth pc / 8 ∧
           p = buildTilePaletteRgb444_
                 (slice3 (tileColorList (frameData pc fi) (getWidth pc) tx ty) l)) ∧
      bank ≡ₚ remove_dups (layerPalettes groups (getFrameCount pc) (getWidth pc / 8)
                             (getHeight pc / 8) l) ∧
      length bank = paletteCount groups (getFrameCount pc) (getWidth pc / 8)
                      (getHeight pc / 8) l ∧
      length bank ≤ MAX_PALS.
Proof.
  intros Hvalid HML Hexp.
  pose proof (export_banks pc MAX_LAYERS MAX_PALS Hvalid HML) as Hb.
  rewrite Hexp in Hb. destruct Hb as (groups & Hplan & Hlen & _ & _ & Hdone).
  cbn [fst snd] in *.
  exists groups. split; [done|]. split; [done|].
  intros l bank Hbank.
  assert (Hl : l < layerCount T) by (apply lookup_lt_Some in Hbank; lia).
  destruct (Hdone l Hl) as (bank' & m & lt & Hb' & _ & _ & Hint & _).
  rewrite Hbank in Hb'. injection Hb' as <-. cbn [fst snd] in Hint.
  destruct (interned_all _ _ _ _ _ _ _ Hint) as [Hperm Hcount].
  destruct Hint as (Hnd & Hcap & Hmem).
  unfold planOf in Hplan.
  destruct (buildLayeredPlan_ok _ _ _ _ _ _ _ _ _ Hplan) as (_ & _ & _ & Hok).
  destruct (Hok HML) as [_ Hget].
  split_and!; [done| |done|done|done].
  intros p. rewrite Hmem. split.
  - intros (fi & ty & tx & (Hfi & Hty & Htx)%tileBefore_end & ->).
    exists fi, ty, tx. split_and!; [done|done|done|].
    unfold groupPalette. by rewrite Hget.
  - intros (fi & ty & tx & Hfi & Hty & Htx & ->).
    exists fi, ty, tx. split; [by apply tileBefore_end|].
    unfold groupPalette. by rewrite Hget.
Qed.

Lemma banks_distinct_witness :
  validImage twinImage ∧ 1 ≤ 3 ∧
  onDownloadCFileClick_ twinImage 3 16 = inr twinTables ∧
  length (perLayerPalettes twinTables) = layerCount twinTables.
Proof.
  assert (Hvalid : validImage twinImage) by solve_validImage.
  assert (H3 : 1 ≤ 3) by lia.
  assert (Hexp : onDownloadCFileClick_ twinImage 3 16 = inr twinTables) by reflexivity.
  split_and!; [exact Hvalid|exact H3|exact Hexp|].
  destruct (banks_distinct twinImage 3 16 twinTables Hvalid H3 Hexp) as (groups & _ & Hlen & _).
  exact Hlen.
Defined.

(** X12 — Palette ids tell palettes apart: in an export that succeeds,
    two tiles of a layer (of any frames) have the same palette id exactly
    when the palettes of their groups are the same four values. *)
Theorem palette_id_iff (pc : PiskelController) (MAX_LAYERS MAX_PALS : nat) (T : Tables) :
  validImage pc → 1 ≤ MAX_LAYERS →
  onDownloadCFileClick_ pc MAX_LAYERS MAX_PALS = inr T →
  ∀ l fi ty tx fi' ty' tx',
    l < layerCount T →
    fi < getFrameCount pc → ty < getHeight pc / 8 → tx < getWidth pc / 8 →
    fi' < getFrameCount pc → ty' < getHeight pc / 8 → tx' < getWidth pc / 8 →
    let palette fi ty tx :=
      buildTilePaletteRgb444_ (slice3 (tileColorList (frameData pc fi) (getWidth pc) tx ty) l) in
    let id fi ty tx := paletteIdAt T l fi (ty * (getWidth pc / 8) + tx) in
    paletteAt T l (id fi ty tx) = palette fi ty tx ∧
    (id fi ty tx = id fi' ty' tx' ↔ palette fi ty tx = palette fi' ty' tx').
Proof.
  intros Hvalid HML Hexp l fi ty tx fi' ty' tx' Hl Hfi Hty Htx Hfi' Hty' Htx'. cbv zeta.
  destruct (export_cell pc MAX_LAYERS MAX_PALS T Hvalid HML Hexp) as (groups & _ & Hlen & Hcell).
  destruct (Hcell l fi ty tx Hl Hfi Hty Htx) as (_ & _ & Hid & Hpal & _).
  destruct (Hcell l fi' ty' tx' Hl Hfi' Hty' Htx') as (_ & _ & Hid' & Hpal' & _).
  cbv zeta in *.
  split; [exact Hpal|]. split.
  - intros Heq. rewrite <- Hpal, <- Hpal', Heq. reflexivity.
  - intros Heq.
    pose proof (export_banks pc MAX_LAYERS MAX_PALS Hvalid HML) as Hb.
    rewrite Hexp in Hb. destruct Hb as (groups' & _ & _ & _ & _ & Hdone).
    cbn [fst snd] in *.
    destruct (Hdone l Hl) as (bank & m & lt & Hbank & _ & _ & (Hnd & _ & _) & _).
    cbn [fst snd] in Hnd.
    unfold paletteAt in Hpal, Hpal'.
    rewrite (list_lookup_total_correct _ _ _ Hbank) in Hpal, Hpal', Hid, Hid'.
    assert (Hi : bank !! Z.to_nat (paletteIdAt T l fi (ty * (getWidth pc / 8) + tx))
                 = Some (bank !!! Z.to_nat (paletteIdAt T l fi (ty * (getWidth pc / 8) + tx)))).
    { apply list_lookup_lookup_total_lt. lia. }
    assert (Hi' : bank !! Z.to_nat (paletteIdAt T l fi' (ty' * (getWidth pc / 8) + tx'))
                  = Some (bank !!! Z.to_nat (paletteIdAt T l fi' (ty' * (getWidth pc / 8) + tx')))).
    { apply list_lookup_lookup_total_lt. lia. }
    rewrite Hpal in Hi. rewrite Hpal', <- Heq in Hi'.
    pose proof (NoDup_lookup _ _ _ _ Hnd Hi Hi'). lia.
Qed.

Lemma palette_id_iff_witness :
  validImage twoTileImage ∧ 1 ≤ 3 ∧
  onDownloadCFileClick_ twoTileImage 3 16 = inr twoTileTables ∧
  (paletteIdAt twoTileTables 0 0 0 = paletteIdAt twoTileTables 0 0 1 ↔
   buildTilePaletteRgb444_ (slice3 (tileColorList (frameData twoTileImage 0) 16 0 0) 0)
   = buildTilePaletteRgb444_ (slice3 (tileColorList (frameData twoTileImage 0) 16 1 0) 0)).
Proof.
  assert (Hvalid : validImage twoTileImage) by solve_validImage.
  assert (H3 : 1 ≤ 3) by lia.
  assert (Hexp : onDownloadCFileClick_ twoTileImage 3 16 = inr twoTileTables) by reflexivity.
  split_and!; [exact Hvalid|exact H3|exact Hexp|].
  assert (H01 : 0 < 1) by lia. assert (H02 : 0 < 2) by lia. assert (H12 : 1 < 2) by lia.
  exact (proj2 (palette_id_iff twoTileImage 3 16 twoTileTables Hvalid H3 Hexp 0 0 0 0 0 0 1
                  H01 H01 H01 H02 H01 H01 H12)).
Defined.

(** X13 — PaletteOverflow, exactly: once the plan has succeeded, the
    export builds its tables if and only if no layer has more than
    [MAX_PALS_PER_LAYER] distinct palettes among its tiles; otherwise it
    stops with the alert for the first layer that has more, and the numbers
    written in the text of that alert are the layer and the capacity. *)
Theorem palette_overflow_iff (pc : PiskelController) (MAX_LAYERS MAX_PALS n : nat)
    (groups : list (list (list (list string)))) :
  validImage pc → 1 ≤ MAX_LAYERS →
  planOf pc MAX_LAYERS = PlanOk n groups →
  let count l :=
    paletteCount groups (getFrameCount pc) (getWidth pc / 8) (getHeight pc / 8) l in
  ((∃ T, onDownloadCFileClick_ pc MAX_LAYERS MAX_PALS = inr T) ↔
   ∀ l, l < n → count l ≤ MAX_PALS) ∧
  (∀ l, l < n → MAX_PALS < count l → (∀ l', l' < l → count l' ≤ MAX_PALS) →
     onDownloadCFileClick_ pc MAX_LAYERS MAX_PALS
     = inl (Alert (paletteOverflowText l MAX_PALS))) ∧
  (∀ l, numbers (paletteOverflowText l MAX_PALS) = [N.of_nat l; N.of_nat MAX_PALS]).
Proof.
  intros Hvalid HML Hplan. cbv zeta.
  destruct (export_palette_counts pc MAX_LAYERS MAX_PALS n groups Hvalid HML Hplan)
    as [Hiff Hfirst].
  split_and!; [exact Hiff|exact Hfirst|].
  intros l. apply numbers_paletteOverflowText.
Qed.

Lemma palette_overflow_iff_witness :
  validImage twoTileImage ∧ 1 ≤ 3 ∧
  planOf twoTileImage 3 = PlanOk 1 twoTileGroups ∧
  1 < paletteCount twoTileGroups 1 2 1 0 ∧
  onDownloadCFileClick_ twoTileImage 3 1 = inl (Alert (paletteOverflowText 0 1)).
Proof.
  assert (Hvalid : validImage twoTileImage) by solve_validImage.
  assert (H3 : 1 ≤ 3) by lia.
  assert (Hplan : planOf twoTileImage 3 = PlanOk 1 twoTileGroups) by reflexivity.
  assert (Hcount : 1 < paletteCount twoTileGroups 1 2 1 0) by (vm_compute; lia).
  assert (H01 : 0 < 1) by lia.
  assert (Hless : ∀ l', l' < 0 → paletteCount twoTileGroups 1 2 1 l' ≤ 1) by (intros; lia).
  split_and!; [exact Hvalid|exact H3|exact Hplan|exact Hcount|].
  exact (proj1 (proj2 (palette_overflow_iff twoTileImage 3 1 1 twoTileGroups Hvalid H3 Hplan))
           0 H01 Hcount Hless).
Defined.

(** ** The shape of the tables *)

Lemma palette_range (groupKeys : list string) :
  Forall (λ v, (0 ≤ v < 4096)%Z) (buildTilePaletteRgb444_ groupKeys).
Proof.
  rewrite palette_shape.
  assert (Hslot : ∀ i, (0 ≤ default 0 (keyRgb444 <$> groupKeys !! i) < 4096)%Z).
  { intros i. destruct (groupKeys !! i); simpl; [apply keyRgb444_range|lia]. }
  repeat constructor; try apply Hslot; lia.
Qed.

Lemma layersDone_shaped groups maxPals frameCount tilesX tilesY T :
  layersDone groups maxPals frameCount tilesX tilesY (layerCount T)
             (perLayerPalettes T, perLayerPalIdMap T, perLayerTiles T) →
  shapedTables maxPals frameCount (tilesX * tilesY) T.
Proof.
  intros (Hl1 & Hl2 & Hl3 & Hdone). cbn [fst snd] in *.
  unfold shapedTables. split_and!; [done|done|done| | | |].
  - apply Forall_lookup. intros l bank Hbank.
    assert (Hl : l < layerCount T) by (apply lookup_lt_Some in Hbank; lia).
    destruct (Hdone l Hl) as (bank' & m & lt & Hb & _ & _ & (_ & Hcap & Hmem) & _).
    cbn [fst snd] in *. rewrite Hbank in Hb. injection Hb as <-.
    split; [done|]. apply Forall_forall. intros p (fi & ty & tx & _ & ->)%Hmem.
    split; [apply palette_length|apply palette_range].
  - apply Forall_lookup. intros l m Hm.
    assert (Hl : l < layerCount T) by (apply lookup_lt_Some in Hm; lia).
    destruct (Hdone l Hl) as (bank & m' & lt & _ & Hm' & _ & _ & Hlen & Hids & _).
    cbn [fst snd] in *. rewrite Hm in Hm'. injection Hm' as <-.
    split; [done|]. eapply Forall_impl; [exact Hids|]. by intros ids [? _].
  - apply Forall_lookup. intros l lt Hlt.
    assert (Hl : l < layerCount T) by (apply lookup_lt_Some in Hlt; lia).
    destruct (Hdone l Hl) as (bank & m & lt' & _ & _ & Hlt' & _ & _ & _ & Hlen & Hrec).
    cbn [fst snd] in *. rewrite Hlt in Hlt'. injection Hlt' as <-. done.
  - intros l bank m Hbank Hm.
    assert (Hl : l < layerCount T) by (apply lookup_lt_Some in Hbank; lia).
    destruct (Hdone l Hl) as (bank' & m' & lt & Hb & Hm' & _ & _ & _ & Hids & _).
    cbn [fst snd] in *. rewrite Hbank in Hb. rewrite Hm in Hm'.
    injection Hb as <-. injection Hm' as <-.
    eapply Forall_impl; [exact Hids|]. by intros ids [_ ?].
Qed.

Lemma export_shaped pc MAX_LAYERS MAX_PALS T :
  validImage pc → 1 ≤ MAX_LAYERS →
  onDownloadCFileClick_ pc MAX_LAYERS MAX_PALS = inr T →
  1 ≤ layerCount T ≤ MAX_LAYERS ∧
  shapedTables MAX_PALS (getFrameCount pc) (getWidth pc / 8 * (getHeight pc / 8)) T.
Proof.
  intros Hvalid HML Hexp.
  pose proof (export_banks pc MAX_LAYERS MAX_PALS Hvalid HML) as Hb.
  rewrite Hexp in Hb. destruct Hb as (groups & Hplan & Hdone).
  unfold planOf in Hplan.
  destruct (buildLayeredPlan_ok _ _ _ _ _ _ _ _ _ Hplan) as (H1 & _ & _ & Hok).
  destruct (Hok HML) as [Hn _].
  split; [lia|]. by apply (layersDone_shaped groups).
Qed.

(** X14 — The shape of the tables: an export that succeeds has between 1
    and [MAX_LAYERS] layers and, per layer, one bank of at most
    [MAX_PALS_PER_LAYER] palettes of four 12-bit values, and per frame one
    palette id and one record of 16 bytes (each within 0..255) for each of
    the [tilesX * tilesY] tiles; every palette id is an index into the bank
    of its layer. *)
Theorem tables_shape (pc : PiskelController) (MAX_LAYERS MAX_PALS : nat) (T : Tables) :
  validImage pc → 1 ≤ MAX_LAYERS →
  onDownloadCFileClick_ pc MAX_LAYERS MAX_PALS = inr T →
  let tilesPerFrame := getWidth pc / 8 * (getHeight pc / 8) in
  1 ≤ layerCount T ≤ MAX_LAYERS ∧
  length (perLayerPalettes T) = layerCount T ∧
  length (perLayerPalIdMap T) = layerCount T ∧
  length (perLayerTiles T) = layerCount T ∧
  (∀ l bank, perLayerPalettes T !! l = Some bank →
     length bank ≤ MAX_PALS ∧
     ∀ p, p ∈ bank → length p = 4 ∧ ∀ v, v ∈ p → (0 ≤ v < 4096)%Z) ∧
  (∀ l palIdMap, perLayerPalIdMap T !! l = Some palIdMap →
     length palIdMap = getFrameCount pc ∧
     ∀ ids, ids ∈ palIdMap →
       length ids = tilesPerFrame ∧
       ∀ id, id ∈ ids → (0 ≤ id < Z.of_nat (length (perLayerPalettes T !!! l)))%Z) ∧
  (∀ l layerTiles, perLayerTiles T !! l = Some layerTiles →
     length layerTiles = getFrameCount pc ∧
     ∀ frameTiles, frameTiles ∈ layerTiles →
       length frameTiles = tilesPerFrame ∧
       ∀ tb, tb ∈ frameTiles → length tb = 16 ∧ ∀ b, b ∈ tb → (0 ≤ b < 256)%Z).
Proof.
  intros Hvalid HML Hexp. cbv zeta.
  destruct (export_shaped pc MAX_LAYERS MAX_PALS T Hvalid HML Hexp)
    as (Hn & Hl1 & Hl2 & Hl3 & Hpals & Hids & Htiles & Hrange).
  split_and!; [lia|lia|done|done|done| | |].
  - intros l bank Hbank.
    destruct (Forall_lookup_1 _ _ _ _ Hpals Hbank) as [Hcap Hall].
    split; [done|]. intros p Hp. rewrite Forall_forall in Hall.
    destruct (Hall p Hp) as [H4 Hv]. split; [done|]. by apply Forall_forall.
  - intros l m Hm.
    destruct (Forall_lookup_1 _ _ _ _ Hids Hm) as [HF Hall].
    split; [done|]. intros ids Hin. rewrite Forall_forall in Hall.
    split; [by apply Hall|].
    assert (Hl : l < length (perLayerPalettes T)) by (apply lookup_lt_Some in Hm; lia).
    apply list_lookup_lookup_total_lt in Hl.
    pose proof (Hrange l _ m Hl Hm) as Hok. rewrite Forall_forall in Hok.
    specialize (Hok ids Hin). unfold idsOk in Hok. by apply Forall_forall.
  - intros l lt Hlt.
    destruct (Forall_lookup_1 _ _ _ _ Htiles Hlt) as [HF Hall].
    split; [done|]. intros ft Hin. rewrite Forall_forall in Hall.
    destruct (Hall ft Hin) as [Hlen Hrec]. split; [done|].
    intros tb Htb. rewrite Forall_forall in Hrec.
    destruct (Hrec tb Htb) as [H16 Hb]. split; [done|]. by apply Forall_forall.
Qed.

Lemma tables_shape_witness :
  validImage unevenImage ∧ 1 ≤ 3 ∧
  onDownloadCFileClick_ unevenImage 3 16 = inr unevenTables ∧
  1 ≤ layerCount unevenTables ≤ 3 ∧
  length (perLayerTiles unevenTables) = layerCount unevenTables.
Proof.
  assert (Hvalid : validImage unevenImage) by solve_validImage.
  assert (H3 : 1 ≤ 3) by lia.
  assert (Hexp : onDownloadCFileClick_ unevenImage 3 16 = inr unevenTables) by reflexivity.
  split_and!; [exact Hvalid|exact H3|exact Hexp| | |].
  - exact (proj1 (proj1 (tables_shape unevenImage 3 16 unevenTables Hvalid H3 Hexp))).
  - exact (proj2 (proj1 (tables_shape unevenImage 3 16 unevenTables Hvalid H3 Hexp))).
  - exact (proj1 (proj2 (proj2 (proj2 (tables_shape unevenImage 3 16 unevenTables
                                         Hvalid H3 Hexp))))).
Defined.

(** X15 — With the limits read from the page, the export of a valid
    image never throws: whatever the page holds, it ends with an alert or
    with tables of at most 8 layers and at most 64 palettes per layer. *)
Theorem export_with_page (page : Page) (pc : PiskelController) :
  validImage pc →
  match exportWith page pc with
  | inr T =>
      1 ≤ layerCount T ≤ 8 ∧
      length (perLayerPalettes T) = layerCount T ∧
      ∀ bank, bank ∈ perLayerPalettes T → length bank ≤ 64
  | inl e => ∃ msg, e = Alert msg
  end.
Proof.
  intros Hvalid. unfold exportWith.
  pose proof (readLimits_range page) as [HML HMP].
  destruct (readLimits page) as [ml mp]. simpl in *.
  assert (H1 : 1 ≤ Z.to_nat ml) by lia.
  pose proof (export_banks pc (Z.to_nat ml) (Z.to_nat mp) Hvalid H1) as Hb.
  destruct (onDownloadCFileClick_ pc (Z.to_nat ml) (Z.to_nat mp)) as [e|T] eqn:Hexp.
  - destruct Hb as [(msg & _ & ->)|(n & groups & l & st & _ & _ & _ & -> & _)]; by eexists.
  - destruct (export_shaped pc _ _ T Hvalid H1 Hexp) as (Hn & Hl1 & _ & _ & Hpals & _).
    split_and!; [lia|lia|done|].
    intros bank Hin. rewrite Forall_forall in Hpals.
    destruct (Hpals bank Hin) as [Hcap _]. lia.
Qed.

Lemma export_with_page_witness :
  validImage tenColorImage ∧
  ∃ msg,
    exportWith {| profileValue := None; maxLayersValue := Some "0"; maxPalsValue := None |}
               tenColorImage
    = inl (Alert msg).
Proof.
  assert (Hvalid : validImage tenColorImage) by solve_validImage.
  split; [exact Hvalid|].
  pose proof (export_with_page
                {| profileValue := None; maxLayersValue := Some "0"; maxPalsValue := None |}
                tenColorImage Hvalid) as H.
  destruct (exportWith _ tenColorImage) as [e|T] eqn:Hexp.
  - destruct H as [msg ->]. by exists msg.
  - exfalso. vm_compute in Hexp. discriminate Hexp.
Defined.

(** ** Tiles of the same colours *)

Lemma keyLe_antisym (k1 k2 : string) : keyLe k1 k2 → keyLe k2 k1 → k1 = k2.
Proof.
  intros (c1 & c2 & H1 & H2 & -> & -> & H12) (c2' & c1' & H2' & H1' & Heq2 & Heq1 & H21).
  apply colorKey_inj in Heq1 as <-; [|done|done].
  apply colorKey_inj in Heq2 as <-; [|done|done].
  f_equal. destruct c1, c2. unfold colorLe in *. simpl in *. f_equal; lia.
Qed.

(** The list of a tile depends on the set of its opaque colours only. *)
Lemma tileColorList_same_colors width height pix pix' tx ty tx' ty' :
  wfFrame width height pix → wfFrame width height pix' →
  tx * 8 + 8 ≤ width → ty * 8 + 8 ≤ height → tx' * 8 + 8 ≤ width → ty' * 8 + 8 ≤ height →
  (∀ c, c ∈ opaqueColors pix width tx ty ↔ c ∈ opaqueColors pix' width tx' ty') →
  tileColorList pix width tx ty = tileColorList pix' width tx' ty'.
Proof.
  intros Hwf Hwf' Htx Hty Htx' Hty' Hsame.
  apply (StronglySorted_unique_strong keyLe).
  - intros k1 k2 _ _. apply keyLe_antisym.
  - by apply (tileColorList_sorted width height).
  - by apply (tileColorList_sorted width height).
  - rewrite (tileColorList_colors _ _ _ Hwf _ _ Htx Hty),
      (tileColorList_colors _ _ _ Hwf' _ _ Htx' Hty').
    apply fmap_Permutation.
    apply NoDup_Permutation; [apply NoDup_remove_dups|apply NoDup_remove_dups|done].
Qed.

(** X16 — The plan is deterministic in the colours: two tiles (of any
    frames) with the same set of distinct opaque colours, however their
    pixels are arranged, get the same sorted list, hence the same group in
    every layer, and in an export that succeeds the same palette id in
    every layer. *)
Theorem same_colors_same_groups (pc : PiskelController) (MAX_LAYERS n : nat)
    (groups : list (list (list (list string)))) :
  validImage pc → 1 ≤ MAX_LAYERS →
  planOf pc MAX_LAYERS = PlanOk n groups →
  ∀ fi ty tx fi' ty' tx',
    fi < getFrameCount pc → ty < getHeight pc / 8 → tx < getWidth pc / 8 →
    fi' < getFrameCount pc → ty' < getHeight pc / 8 → tx' < getWidth pc / 8 →
    (∀ c, c ∈ opaqueColors (frameData pc fi) (getWidth pc) tx ty
          ↔ c ∈ opaqueColors (frameData pc fi') (getWidth pc) tx' ty') →
    let t := ty * (getWidth pc / 8) + tx in
    let t' := ty' * (getWidth pc / 8) + tx' in
    tileColorList (frameData pc fi) (getWidth pc) tx ty
    = tileColorList (frameData pc fi') (getWidth pc) tx' ty' ∧
    (∀ l, l < n → getGroup groups l fi t = getGroup groups l fi' t') ∧
    (∀ MAX_PALS T, onDownloadCFileClick_ pc MAX_LAYERS MAX_PALS = inr T →
       ∀ l, l < layerCount T → paletteIdAt T l fi t = paletteIdAt T l fi' t').
Proof.
  intros Hvalid HML Hplan fi ty tx fi' ty' tx' Hfi Hty Htx Hfi' Hty' Htx' Hsame. cbv zeta.
  destruct (validImage_planArgs pc Hvalid) as (Hw & Hh & Hwf).
  assert (Hkeys : tileColorList (frameData pc fi) (getWidth pc) tx ty
                  = tileColorList (frameData pc fi') (getWidth pc) tx' ty').
  { apply (tileColorList_same_colors _ (getHeight pc)); [by apply Hwf|by apply Hwf|lia..|done]. }
  split; [exact Hkeys|]. split.
  - intros l Hl. unfold planOf in Hplan.
    destruct (buildLayeredPlan_ok _ _ _ _ _ _ _ _ _ Hplan) as (_ & _ & _ & Hok).
    destruct (Hok HML) as [_ Hget]. rewrite !Hget by done. by rewrite Hkeys.
  - intros MAX_PALS T Hexp l Hl.
    destruct (export_cell pc MAX_LAYERS MAX_PALS T Hvalid HML Hexp) as (groups' & _ & Hlen & Hcell).
    destruct (Hcell l fi ty tx Hl Hfi Hty Htx) as (_ & _ & Hid & Hpal & _).
    destruct (Hcell l fi' ty' tx' Hl Hfi' Hty' Htx') as (_ & _ & Hid' & Hpal' & _).
    cbv zeta in *. rewrite <- Hkeys in Hpal'.
    pose proof (export_banks pc MAX_LAYERS MAX_PALS Hvalid HML) as Hb.
    rewrite Hexp in Hb. destruct Hb as (groups'' & _ & _ & _ & _ & Hdone).
    cbn [fst snd] in *.
    destruct (Hdone l Hl) as (bank & m & lt & Hbank & _ & _ & (Hnd & _ & _) & _).
    cbn [fst snd] in Hnd.
    unfold paletteAt in Hpal, Hpal'.
    rewrite (list_lookup_total_correct _ _ _ Hbank) in Hpal, Hpal', Hid, Hid'.
    assert (Hi : bank !! Z.to_nat (paletteIdAt T l fi (ty * (getWidth pc / 8) + tx))
                 = Some (bank !!! Z.to_nat (paletteIdAt T l fi (ty * (getWidth pc / 8) + tx)))).
    { apply list_lookup_lookup_total_lt. lia. }
    assert (Hi' : bank !! Z.to_nat (paletteIdAt T l fi' (ty' * (getWidth pc / 8) + tx'))
                  = Some (bank !!! Z.to_nat (paletteIdAt T l fi' (ty' * (getWidth pc / 8) + tx')))).
    { apply list_lookup_lookup_total_lt. lia. }
    rewrite Hpal in Hi. rewrite Hpal' in Hi'.
    pose proof (NoDup_lookup _ _ _ _ Hnd Hi Hi'). lia.
Qed.

Lemma same_colors_same_groups_witness :
  validImage mirrorImage ∧ 1 ≤ 3 ∧
  planOf mirrorImage 3 = PlanOk 1 mirrorGroups ∧
  opaqueColors (frameData mirrorImage 0) 16 0 0 = [RGBA 200 0 0 255; RGBA 9 0 0 255] ∧
  opaqueColors (frameData mirrorImage 0) 16 1 0 = [RGBA 9 0 0 255; RGBA 200 0 0 255] ∧
  tileColorList (frameData mirrorImage 0) 16 0 0 = tileColorList (frameData mirrorImage 0) 16 1 0.
Proof.
  assert (Hvalid : validImage mirrorImage) by solve_validImage.
  assert (H3 : 1 ≤ 3) by lia.
  assert (Hplan : planOf mirrorImage 3 = PlanOk 1 mirrorGroups) by reflexivity.
  assert (Hc0 : opaqueColors (frameData mirrorImage 0) 16 0 0
                = [RGBA 200 0 0 255; RGBA 9 0 0 255]) by reflexivity.
  assert (Hc1 : opaqueColors (frameData mirrorImage 0) 16 1 0
                = [RGBA 9 0 0 255; RGBA 200 0 0 255]) by reflexivity.
  split_and!; [exact Hvalid|exact H3|exact Hplan|exact Hc0|exact Hc1|].
  assert (H01 : 0 < 1) by lia. assert (H02 : 0 < 2) by lia. assert (H12 : 1 < 2) by lia.
  assert (Hsame : ∀ c, c ∈ opaqueColors (frameData mirrorImage 0) 16 0 0
                       ↔ c ∈ opaqueColors (frameData mirrorImage 0) 16 1 0).
  { intros c. rewrite Hc0, Hc1. rewrite !elem_of_cons. tauto. }
  exact (proj1 (same_colors_same_groups mirrorImage 3 1 mirrorGroups Hvalid H3 Hplan
                  0 0 0 0 0 1 H01 H01 H02 H01 H01 H12 Hsame)).
Defined.

(** ** One layer per pixel *)

(** A transparent pixel has index 0 in every layer. *)
Lemma export_transparent pc MAX_LAYERS MAX_PALS T fi ty tx x y :
  validImage pc → 1 ≤ MAX_LAYERS →
  onDownloadCFileClick_ pc MAX_LAYERS MAX_PALS = inr T →
  fi < getFrameCount pc → ty < getHeight pc / 8 → tx < getWidth pc / 8 → x < 8 → y < 8 →
  alpha (pixelAt (frameData pc fi) (getWidth pc) (tx * 8 + x) (ty * 8 + y)) = 0%N →
  ∀ l, l < layerCount T →
    tilePixelIndex (tileAt T l fi (ty * (getWidth pc / 8) + tx)) x y = 0%Z.
Proof.
  intros Hvalid HML Hexp Hfi Hty Htx Hx Hy Htr l Hl.
  destruct (export_cell pc MAX_LAYERS MAX_PALS T Hvalid HML Hexp) as (groups & _ & _ & Hcell).
  destruct (Hcell l fi ty tx Hl Hfi Hty Htx) as (_ & _ & _ & _ & Htile).
  cbv zeta in Htile. rewrite Htile, tilePixelIndex_encode by done.
  destruct (validImage_planArgs pc Hvalid) as (Hw & Hh & Hwf).
  set (keys := tileColorList (frameData pc fi) (getWidth pc) tx ty).
  destruct (slice3_NoDup keys l (tileColorList_NoDup _ _ _ _)) as [Hnd Hlen].
  destruct (layerIndex_rule (getWidth pc) (getHeight pc) (frameData pc fi) (tx * 8) (ty * 8)
              (slice3 keys l) x y (Hwf fi Hfi)) as (Hzero & _ & _); [lia|lia|done|done|].
  apply Hzero. by left.
Qed.

(** X17 — The layers never overlap: in an export that succeeds, a
    transparent source pixel has index 0 in every layer, and an opaque one
    has a non-zero index in exactly one layer and index 0 in all the
    others. *)
Theorem layers_disjoint (pc : PiskelController) (MAX_LAYERS MAX_PALS : nat) (T : Tables) :
  validImage pc → 1 ≤ MAX_LAYERS →
  onDownloadCFileClick_ pc MAX_LAYERS MAX_PALS = inr T →
  ∀ fi ty tx x y,
    fi < getFrameCount pc → ty < getHeight pc / 8 → tx < getWidth pc / 8 → x < 8 → y < 8 →
    let c := pixelAt (frameData pc fi) (getWidth pc) (tx * 8 + x) (ty * 8 + y) in
    let index l := tilePixelIndex (tileAt T l fi (ty * (getWidth pc / 8) + tx)) x y in
    (alpha c = 0%N → ∀ l, l < layerCount T → index l = 0%Z) ∧
    (alpha c ≠ 0%N →
       ∃ l0, l0 < layerCount T ∧ (1 ≤ index l0 ≤ 3)%Z ∧
             ∀ l, l < layerCount T → l ≠ l0 → index l = 0%Z).
Proof.
  intros Hvalid HML Hexp fi ty tx x y Hfi Hty Htx Hx Hy. cbv zeta. split.
  - intros Htr. by apply (export_transparent pc MAX_LAYERS MAX_PALS).
  - intros Hop.
    destruct (export_pixel pc MAX_LAYERS MAX_PALS T fi ty tx x y
                Hvalid HML Hexp Hfi Hty Htx Hx Hy Hop)
      as (_ & i & _ & Hl0 & Hidx & _ & Hothers).
    exists (i / 3). split; [done|]. split; [|done].
    rewrite Hidx. pose proof (Nat.mod_upper_bound i 3). lia.
Qed.

Lemma layers_disjoint_witness :
  validImage splitTwinImage ∧ 1 ≤ 3 ∧
  onDownloadCFileClick_ splitTwinImage 3 16 = inr splitTwinTables ∧
  alpha (pixelAt (frameData splitTwinImage 0) 8 (0 * 8 + 3) (0 * 8 + 0)) ≠ 0%N ∧
  ∃ l0, l0 < layerCount splitTwinTables ∧
        (1 ≤ tilePixelIndex (tileAt splitTwinTables l0 0 (0 * (8 / 8) + 0)) 3 0 ≤ 3)%Z.
Proof.
  assert (Hvalid : validImage splitTwinImage) by solve_validImage.
  assert (H3 : 1 ≤ 3) by lia.
  assert (Hexp : onDownloadCFileClick_ splitTwinImage 3 16 = inr splitTwinTables)
    by reflexivity.
  assert (Hop : alpha (pixelAt (frameData splitTwinImage 0) 8 (0 * 8 + 3) (0 * 8 + 0)) ≠ 0%N)
    by (vm_compute; lia).
  split_and!; [exact Hvalid|exact H3|exact Hexp|exact Hop|].
  assert (H01 : 0 < 1) by lia. assert (H38 : 3 < 8) by lia. assert (H08 : 0 < 8) by lia.
  destruct (proj2 (layers_disjoint splitTwinImage 3 16 splitTwinTables Hvalid H3 Hexp
                     0 0 0 3 0 H01 H01 H01 H38 H08) Hop) as (l0 & Hl0 & Hrange & _).
  by exists l0.
Defined.

(** ** Drawing the layers in any order *)

(** What the layers draw at a pixel of an export that succeeds. *)
Lemma draw_layers pc MAX_LAYERS MAX_PALS T fi px py :
  validImage pc → 1 ≤ MAX_LAYERS →
  onDownloadCFileClick_ pc MAX_LAYERS MAX_PALS = inr T →
  fi < getFrameCount pc → px < getWidth pc → py < getHeight pc →
  let c := pixelAt (frameData pc fi) (getWidth pc) px py in
  let draw := drawLayer T (getWidth pc / 8) fi px py in
  (alpha c = 0%N → ∀ l b, l < layerCount T → draw b l = b) ∧
  (alpha c ≠ 0%N →
     ∃ l0, l0 < layerCount T ∧ (∀ b, draw b l0 = Some (quantize c)) ∧
           ∀ l b, l < layerCount T → l ≠ l0 → draw b l = b).
Proof.
  intros Hvalid HML Hexp Hfi Hpx Hpy. cbv zeta.
  pose proof Hvalid as (Hw & Hh & Hwf).
  destruct (pixel_in_tile _ _ Hw Hpx) as (Htx & Hxeq & Hx).
  destruct (pixel_in_tile _ _ Hh Hpy) as (Hty & Hyeq & Hy).
  unfold drawLayer. split.
  - intros Htr l b Hl.
    rewrite (export_transparent pc MAX_LAYERS MAX_PALS T fi (py / 8) (px / 8)
               (px mod 8) (py mod 8)); try done.
    by rewrite Hxeq, Hyeq.
  - intros Hop.
    destruct (export_pixel pc MAX_LAYERS MAX_PALS T fi (py / 8) (px / 8) (px mod 8) (py mod 8)
                Hvalid HML Hexp Hfi Hty Htx Hx Hy)
      as (_ & i & _ & Hl0 & Hidx & Hpal & Hothers); [by rewrite Hxeq, Hyeq|].
    rewrite Hxeq, Hyeq in Hpal.
    exists (i / 3). split; [done|]. split.
    + intros b. rewrite Hidx.
      destruct (Z.eqb_spec (1 + Z.of_nat (i mod 3)) 0) as [?|_]; [lia|].
      f_equal. replace (Z.to_nat (1 + Z.of_nat (i mod 3))) with (i mod 3 + 1) by lia.
      by apply list_lookup_total_correct.
    + intros l b Hl Hne. by rewrite Hothers.
Qed.

(** X18 — The order of the layers does not matter: in an export that
    succeeds, drawing the layers in any order, each one once, gives at every
    pixel what drawing them from layer 0 up gives, the quantized colour of
    an opaque source pixel and nothing for a transparent one. *)
Theorem layer_order_free (pc : PiskelController) (MAX_LAYERS MAX_PALS : nat) (T : Tables) :
  validImage pc → 1 ≤ MAX_LAYERS →
  onDownloadCFileClick_ pc MAX_LAYERS MAX_PALS = inr T →
  ∀ (order : list nat) fi px py,
    order ≡ₚ seq 0 (layerCount T) →
    fi < getFrameCount pc → px < getWidth pc → py < getHeight pc →
    let c := pixelAt (frameData pc fi) (getWidth pc) px py in
    foldl (drawLayer T (getWidth pc / 8) fi px py) None order
    = composite T (getWidth pc / 8) fi px py ∧
    composite T (getWidth pc / 8) fi px py
    = if bool_decide (alpha c = 0%N) then None else Some (quantize c).
Proof.
  intros Hvalid HML Hexp order fi px py Hperm Hfi Hpx Hpy. cbv zeta.
  destruct (draw_layers pc MAX_LAYERS MAX_PALS T fi px py Hvalid HML Hexp Hfi Hpx Hpy)
    as [Htr Hop].
  assert (Hany : ∀ ls, ls ≡ₚ seq 0 (layerCount T) →
    foldl (drawLayer T (getWidth pc / 8) fi px py) None ls
    = if bool_decide (alpha (pixelAt (frameData pc fi) (getWidth pc) px py) = 0%N)
      then None else Some (quantize (pixelAt (frameData pc fi) (getWidth pc) px py))).
  { intros ls Hls.
    assert (Hin : ∀ l, l ∈ ls ↔ l < layerCount T).
    { intros l. rewrite Hls, elem_of_seq. lia. }
    case_bool_decide as Ha.
    - apply draw_transparent. intros l b Hl. apply (Htr Ha). by apply Hin.
    - destruct (Hop Ha) as (l0 & Hl0 & Hdraw & Hothers).
      apply (draw_one _ _ _ l0); [by apply Hin|done|].
      intros l b Hl Hne. apply Hothers; [by apply Hin|done]. }
  unfold composite. rewrite (Hany order Hperm), (Hany (seq 0 (layerCount T))); done.
Qed.

Lemma layer_order_free_witness :
  validImage splitTwinImage ∧ 1 ≤ 3 ∧
  onDownloadCFileClick_ splitTwinImage 3 16 = inr splitTwinTables ∧
  foldl (drawLayer splitTwinTables (8 / 8) 0 3 0) None [1; 0]
  = composite splitTwinTables (8 / 8) 0 3 0.
Proof.
  assert (Hvalid : validImage splitTwinImage) by solve_validImage.
  assert (H3 : 1 ≤ 3) by lia.
  assert (Hexp : onDownloadCFileClick_ splitTwinImage 3 16 = inr splitTwinTables)
    by reflexivity.
  split_and!; [exact Hvalid|exact H3|exact Hexp|].
  assert (H01 : 0 < 1) by lia. assert (H38 : 3 < 8) by lia. assert (H08 : 0 < 8) by lia.
  assert (Hperm : [1; 0] ≡ₚ seq 0 (layerCount splitTwinTables)) by apply perm_swap.
  exact (proj1 (layer_order_free splitTwinImage 3 16 splitTwinTables Hvalid H3 Hexp
                  [1; 0] 0 3 0 Hperm H01 H38 H08)).
Defined.

(** ** The numbers of the C text *)

Lemma lex_hex8 (v : JS.num) (ns : list N) :
  lex (hex8_ v) (ns, Idle) = (ns, Hex (Z.to_N (default 0%Z v mod 256))).
Proof.
  unfold hex8_. change 255%Z with (Z.ones 8). rewrite and_mask_mod by lia.
  change (2 ^ 8)%Z with 256%Z.
  set (m := Z.to_N (default 0%Z v mod 256)).
  assert (Hm : (m < 256)%N).
  { pose proof (Z.mod_pos_bound (default 0%Z v) 256). lia. }
  destruct (hex8_text m Hm) as [_ Hlex].
  rewrite lex_prefix. cbv zeta. rewrite Hlex. simpl. by rewrite app_nil_r.
Qed.

Lemma lex_hex16 (v : JS.num) (ns : list N) :
  lex (hex16_ v) (ns, Idle) = (ns, Hex (Z.to_N (default 0%Z v mod 65536))).
Proof.
  unfold hex16_. change 65535%Z with (Z.ones 16). rewrite and_mask_mod by lia.
  change (2 ^ 16)%Z with 65536%Z.
  set (m := Z.to_N (default 0%Z v mod 65536)).
  assert (Hm : (m < 65536)%N).
  { pose proof (Z.mod_pos_bound (default 0%Z v) 65536). lia. }
  destruct (hex16_text m Hm) as [_ Hlex].
  rewrite lex_prefix. cbv zeta. rewrite Hlex. simpl. by rewrite app_nil_r.
Qed.

(** Printers. *)
Lemma prints_loop (n : nat) (body : nat → string → Failure + string)
    (data : nat → list N) :
  (∀ i, i < n → prints (body i) (data i)) →
  prints (JS.for_upto n body) (concat (data <$> seq 0 n)).
Proof.
  intros Hbody. induction n as [|n IH].
  - exists "". split; [|intros ns; by rewrite app_nil_r]. intros out. by rewrite append_empty.
  - assert (Hbody' : ∀ i, i < n → prints (body i) (data i)) by (intros i Hi; apply Hbody; lia).
    destruct (IH Hbody') as (piece & Hrun & Hlex).
    destruct (Hbody n (Nat.lt_succ_diag_r n)) as (piece' & Hrun' & Hlex').
    exists (piece +:+ piece'). split.
    + intros out. by rewrite for_upto_S, Hrun, Hrun', append_assoc.
    + intros ns. rewrite lex_app, Hlex, Hlex'.
      rewrite seq_S, fmap_app, concat_app. simpl. by rewrite app_nil_r, app_assoc.
Qed.

Lemma seq_lookup_fmap {A B} (xs : list A) (f : option A → B) :
  (λ i, f (xs !! i)) <$> seq 0 (length xs) = (λ x, f (Some x)) <$> xs.
Proof.
  apply list_eq. intros i. rewrite !list_lookup_fmap.
  destruct (decide (i < length xs)) as [Hi|Hi].
  - rewrite lookup_seq_lt by done. simpl.
    destruct (lookup_lt_is_Some_2 xs i Hi) as [x Hx]. by rewrite Hx.
  - rewrite lookup_seq_ge by lia. by rewrite lookup_ge_None_2 by lia.
Qed.

Lemma prints_list {A} (xs : list A) (n : nat) (body : nat → string → Failure + string)
    (g : A → list N) :
  length xs = n →
  (∀ i x, xs !! i = Some x → prints (body i) (g x)) →
  prints (JS.for_upto n body) (concat (g <$> xs)).
Proof.
  intros <- Hbody.
  pose proof (prints_loop (length xs) body (λ i, from_option g [] (xs !! i))) as Hloop.
  rewrite (seq_lookup_fmap xs (from_option g [])) in Hloop. simpl in Hloop.
  apply Hloop. intros i Hi.
  destruct (lookup_lt_is_Some_2 xs i Hi) as [x Hx]. rewrite Hx. simpl. by apply Hbody.
Qed.

Lemma fmap_concat {A B} (f : A → B) (xss : list (list A)) :
  fmap (M := list) f (concat xss) = concat (fmap (M := list) (fmap (M := list) f) xss).
Proof. induction xss as [|xs xss IH]; simpl; [done|]. by rewrite fmap_app, IH. Qed.

Lemma fmap_concat2 {A B} (f : A → B) (xss : list (list (list A))) :
  fmap (M := list) f (concat (concat xss))
  = concat (fmap (M := list) (λ xs, fmap (M := list) f (concat xs)) xss).
Proof.
  induction xss as [|xs xss IH]; simpl; [done|]. by rewrite concat_app, fmap_app, IH.
Qed.

Lemma fmap_concat3 {A B} (f : A → B) (xss : list (list (list (list A)))) :
  fmap (M := list) f (concat (concat (concat xss)))
  = concat (fmap (M := list) (λ xs, fmap (M := list) f (concat (concat xs))) xss).
Proof.
  induction xss as [|xs xss IH]; simpl; [done|]. by rewrite !concat_app, fmap_app, IH.
Qed.

(** Wrapping a printer in text that holds no number. *)
Lemma prints_wrap (f : string → Failure + string) (data : list N) (pre post : string) :
  (∀ ns, lex pre (ns, Idle) = (ns, Idle)) →
  (∀ ns, lex post (ns, Idle) = (ns, Idle)) →
  prints f data →
  prints (λ out, match f (out +:+ pre) with
                 | inl e => inl e
                 | inr out => inr (out +:+ post)
                 end) data.
Proof.
  intros Hpre Hpost (piece & Hrun & Hlex).
  exists (pre +:+ piece +:+ post). split.
  - intros out. by rewrite Hrun, !append_assoc.
  - intros ns. by rewrite !lex_app, Hpre, Hlex, Hpost.
Qed.

Lemma prints_ext (f f' : string → Failure + string) (data data' : list N) :
  (∀ out, f out = f' out) → data = data' → prints f data → prints f' data'.
Proof.
  intros Hf -> (piece & Hrun & Hlex).
  exists piece. split; [|done]. intros out. by rewrite <- Hf.
Qed.

(** *** The tile records *)

Lemma prints_bytes (tb : list Z) (frameTiles : list (list Z)) (t2 : nat) :
  frameTiles !! t2 = Some tb → byteRecord tb →
  prints
    (JS.for_upto bytesPerTile (λ b out,
       match frameTiles !! t2 with
       | None => inl TypeError
       | Some tb =>
           let out := out +:+ hex8_ (tb !! b) in
           inr (out +:+ (if bool_decide (b ≠ bytesPerTile - 1) then ", " else " "))
       end))
    (Z.to_N <$> tb).
Proof.
  intros Htb [Hlen Hbytes]. rewrite Htb.
  assert (Hdata : Z.to_N <$> tb = concat ((λ b, [Z.to_N b]) <$> tb)).
  { clear. induction tb as [|b tb IH]; [done|]. rewrite !fmap_cons. simpl. by f_equal. }
  rewrite Hdata. apply prints_list; [done|]. intros b v Hv.
  exists (hex8_ (Some v) +:+ (if bool_decide (b ≠ bytesPerTile - 1) then ", " else " ")).
  split.
  - intros out. cbv zeta. by rewrite Hv, append_assoc.
  - intros ns. rewrite lex_app, lex_hex8. simpl.
    assert (Hrange : (0 ≤ v < 256)%Z).
    { rewrite Forall_forall in Hbytes. apply Hbytes. apply list_elem_of_lookup. by exists b. }
    rewrite Z.mod_small by done.
    destruct (bool_decide _); reflexivity.
Qed.

Lemma prints_tilesRows (tiles : list (list (list (list Z)))) (sz : Sizes) (L : nat) :
  length tiles = L →
  Forall (λ layerTiles : list (list (list Z)),
            length layerTiles = frameCount sz ∧
            Forall (λ frameTiles, length frameTiles = tilesPerFrame sz ∧
                                  Forall byteRecord frameTiles) layerTiles) tiles →
  prints (tilesRows tiles sz L) (Z.to_N <$> concat (concat (concat tiles))).
Proof.
  intros HL Hshape. unfold tilesRows. subst L.
  rewrite fmap_concat3.
  apply prints_list; [done|]. intros l5 layerTiles Hl5.
  destruct (Forall_lookup_1 _ _ _ _ Hshape Hl5) as [HF Hframes].
  rewrite fmap_concat2.
  apply (prints_wrap _ _ ("  {" +:+ JS.nl)
           (if bool_decide (l5 ≠ length tiles - 1) then "  }," +:+ JS.nl else "  }" +:+ JS.nl));
    [done|intros ns; destruct (bool_decide _); reflexivity|].
  apply prints_list; [done|]. intros fi3 frameTiles Hfi3.
  destruct (Forall_lookup_1 _ _ _ _ Hframes Hfi3) as [HT Hrecs].
  rewrite fmap_concat.
  apply (prints_wrap _ _ ("    {" +:+ JS.nl)
           (if bool_decide (fi3 ≠ frameCount sz - 1) then "    }," +:+ JS.nl
            else "    }" +:+ JS.nl));
    [done|intros ns; destruct (bool_decide _); reflexivity|].
  apply prints_list; [done|]. intros t2 tb Ht2.
  rewrite Hl5, Hfi3.
  pose proof (Forall_lookup_1 _ _ _ _ Hrecs Ht2) as Hrec.
  destruct (prints_bytes tb frameTiles t2 Ht2 Hrec) as (piece & Hrun & Hlex).
  exists ("      { " +:+ piece +:+ "}" +:+
          (if bool_decide (t2 ≠ tilesPerFrame sz - 1) then "," +:+ JS.nl else JS.nl)).
  split.
  - intros out. cbv zeta in Hrun |- *. rewrite Hrun. by rewrite !append_assoc.
  - intros ns. rewrite !lex_app.
    assert (Hpre : lex "      { " (ns, Idle) = (ns, Idle)) by reflexivity.
    rewrite Hpre, Hlex. destruct (bool_decide _); reflexivity.
Qed.

(** *** The palette ids *)

Lemma and_mask_255 (v : Z) : JS.and_mask (Some v) 255 = Z.to_N (v mod 256).
Proof. change 255%Z with (Z.ones 8). by rewrite and_mask_mod by lia. Qed.

Lemma prints_tilePalRows (idMaps : list (list (list Z))) (sz : Sizes) (L : nat) :
  length idMaps = L →
  Forall (λ palIdMap : list (list Z),
            length palIdMap = frameCount sz ∧
            Forall (λ ids, length ids = tilesPerFrame sz) palIdMap) idMaps →
  prints (tilePalRows idMaps sz L)
         ((λ id, Z.to_N (id mod 256)) <$> concat (concat idMaps)).
Proof.
  intros HL Hshape. unfold tilePalRows. subst L.
  rewrite fmap_concat2.
  apply prints_list; [done|]. intros l4 palIdMap Hl4.
  destruct (Forall_lookup_1 _ _ _ _ Hshape Hl4) as [HF Hframes].
  rewrite fmap_concat.
  apply (prints_wrap _ _ ("  {" +:+ JS.nl)
           (if bool_decide (l4 ≠ length idMaps - 1) then "  }," +:+ JS.nl else "  }" +:+ JS.nl));
    [done|intros ns; destruct (bool_decide _); reflexivity|].
  apply prints_list; [done|]. intros fi2 ids Hfi2.
  pose proof (Forall_lookup_1 _ _ _ _ Hframes Hfi2) as HT.
  assert (Hdata : (λ id, Z.to_N (id mod 256)) <$> ids
                  = concat ((λ id, [Z.to_N (id mod 256)]) <$> ids)).
  { clear. induction ids as [|b ids IH]; [done|]. rewrite !fmap_cons. simpl. by f_equal. }
  rewrite Hdata.
  assert (Hinner : prints
    (JS.for_upto (tilesPerFrame sz) (λ t out,
       match idMaps !! l4 with
       | None => inl TypeError
       | Some palIdMap =>
           match palIdMap !! fi2 with
           | None => inl TypeError
           | Some ids =>
               let out := out +:+ JS.dec (JS.and_mask (ids !! t) 255) in
               inr (out +:+ (if bool_decide (t ≠ tilesPerFrame sz - 1) then ", " else " "))
           end
       end))
    (concat ((λ id, [Z.to_N (id mod 256)]) <$> ids))).
  { apply prints_list; [done|]. intros t id Hid.
    rewrite Hl4, Hfi2, Hid.
    exists (JS.dec (JS.and_mask (Some id) 255)
            +:+ (if bool_decide (t ≠ tilesPerFrame sz - 1) then ", " else " ")).
    split; [intros out; cbv zeta; by rewrite append_assoc|].
    intros ns. rewrite lex_app, lex_dec, and_mask_255.
    destruct (bool_decide _); reflexivity. }
  destruct Hinner as (piece & Hrun & Hlex).
  exists ("    { " +:+ piece +:+ "}" +:+
          (if bool_decide (fi2 ≠ frameCount sz - 1) then "," +:+ JS.nl else JS.nl)).
  split.
  - intros out. cbv zeta in Hrun |- *. rewrite Hrun. by rewrite !append_assoc.
  - intros ns. rewrite !lex_app.
    assert (Hpre : lex "    { " (ns, Idle) = (ns, Idle)) by reflexivity.
    rewrite Hpre, Hlex. destruct (bool_decide _); reflexivity.
Qed.

(** *** The palette counts *)

Lemma prints_palCountRows (pals : list (list (list Z))) (L : nat) :
  length pals = L →
  prints (palCountRows pals L)
         ((λ bank, Z.to_N (Z.of_nat (length bank) mod 256)) <$> pals).
Proof.
  intros HL. unfold palCountRows.
  assert (Hdata : (λ bank : list (list Z), Z.to_N (Z.of_nat (length bank) mod 256)) <$> pals
                  = concat ((λ bank, [Z.to_N (Z.of_nat (length bank) mod 256)]) <$> pals)).
  { clear. induction pals as [|b pals IH]; [done|]. rewrite !fmap_cons. simpl. by f_equal. }
  rewrite Hdata.
  apply prints_list; [done|]. intros l2 bank Hl2. rewrite Hl2.
  exists (JS.dec (JS.and_mask (Some (Z.of_nat (length bank))) 255)
          +:+ (if bool_decide (l2 ≠ L - 1) then ", " else JS.nl)).
  split; [intros out; cbv zeta; by rewrite append_assoc|].
  intros ns. rewrite lex_app, lex_dec, and_mask_255.
  destruct (bool_decide _); reflexivity.
Qed.

(** *** The palettes *)

Lemma length_padBank (maxPals : nat) (bank : list (list Z)) :
  length (padBank maxPals bank) = maxPals.
Proof. unfold padBank. rewrite length_app, length_take, length_replicate. lia. Qed.

Lemma lookup_padBank (maxPals : nat) (bank : list (list Z)) (p : nat) (pal : list Z) :
  padBank maxPals bank !! p = Some pal →
  match bank !! p with
  | Some q => q
  | None => [0; 0; 0; 0]%Z
  end = pal.
Proof.
  unfold padBank. intros Hp.
  assert (Hlt : p < maxPals).
  { apply lookup_lt_Some in Hp.
    rewrite length_app, length_take, length_replicate in Hp. lia. }
  destruct (decide (p < length bank)) as [Hin|Hout].
  - rewrite lookup_app_l in Hp by (rewrite length_take; lia).
    rewrite lookup_take_lt in Hp by done. by rewrite Hp.
  - rewrite lookup_app_r in Hp by (rewrite length_take; lia).
    apply lookup_replicate in Hp as [-> _].
    by rewrite lookup_ge_None_2 by lia.
Qed.

Lemma lex_paletteRow (bank : list (list Z)) (maxPals p : nat) (pal : list Z) (ns : list N) :
  padBank maxPals bank !! p = Some pal → length pal = 4 →
  lex (paletteRow bank maxPals p) (ns, Idle)
  = (ns ++ ((λ v, Z.to_N (v mod 65536)) <$> pal), Idle).
Proof.
  intros Hp Hlen. unfold paletteRow. rewrite (lookup_padBank _ _ _ _ Hp).
  destruct pal as [|v0 [|v1 [|v2 [|v3 [|]]]]]; try done. cbv zeta. simpl lookup.
  rewrite !lex_app.
  assert (Hpre : lex "    { " (ns, Idle) = (ns, Idle)) by reflexivity.
  rewrite Hpre, lex_hex16.
  assert (Hsep : ∀ ms m, lex ", " (ms, Hex m) = (ms ++ [m], Idle)) by reflexivity.
  rewrite Hsep, lex_hex16, Hsep, lex_hex16, Hsep, lex_hex16.
  assert (Hend : ∀ ms m, lex " }" (ms, Hex m) = (ms ++ [m], Idle)) by reflexivity.
  rewrite Hend. simpl default.
  rewrite <- !app_assoc. simpl.
  destruct (bool_decide _); reflexivity.
Qed.

Lemma prints_palettesRows (pals : list (list (list Z))) (maxPals L : nat) :
  length pals = L →
  Forall (λ bank : list (list Z), Forall (λ p, length p = 4) bank) pals →
  prints (palettesRows pals maxPals L)
         ((λ v, Z.to_N (v mod 65536)) <$> concat (concat (padBank maxPals <$> pals))).
Proof.
  intros HL Hshape. unfold palettesRows. subst L.
  rewrite fmap_concat2, <- list_fmap_compose.
  apply prints_list; [done|]. intros l3 bank Hl3.
  pose proof (Forall_lookup_1 _ _ _ _ Hshape Hl3) as H4.
  simpl. rewrite fmap_concat.
  apply (prints_wrap _ _ ("  {" +:+ JS.nl)
           (if bool_decide (l3 ≠ length pals - 1) then "  }," +:+ JS.nl else "  }" +:+ JS.nl));
    [done|intros ns; destruct (bool_decide _); reflexivity|].
  apply prints_list; [apply length_padBank|]. intros p pal Hp.
  rewrite Hl3. exists (paletteRow bank maxPals p). split; [done|].
  intros ns. apply lex_paletteRow; [done|].
  unfold padBank in Hp. apply lookup_app_Some in Hp as [Hp|[_ Hp]].
  - apply lookup_take_Some in Hp as [Hp _]. by apply (Forall_lookup_1 _ _ _ _ H4 Hp).
  - by apply lookup_replicate in Hp as [-> _].
Qed.

(** *** The tile positions *)

Lemma for_upto_pure (n : nat) (f : string → nat → string) (s : string) :
  JS.for_upto (E := Failure) n (λ i s, inr (f s i)) s = inr (foldl f s (seq 0 n)).
Proof.
  induction n as [|n IH]; [done|]. by rewrite for_upto_S, IH, seq_S, foldl_app.
Qed.

Lemma prints_pure_loop (n : nat) (f : string → nat → string) (data : nat → list N) :
  (∀ i, i < n → prints (λ out, inr (f out i)) (data i)) →
  prints (λ out, inr (foldl f out (seq 0 n))) (concat (data <$> seq 0 n)).
Proof.
  intros Hbody.
  apply (prints_ext (JS.for_upto n (λ i s, inr (f s i))) _ (concat (data <$> seq 0 n)));
    [intros out; apply for_upto_pure|done|].
  by apply prints_loop.
Qed.

Lemma prints_tilePosRows (sz : Sizes) :
  prints (λ out, inr (tilePosRows sz out))
         (concat ((λ t : nat * nat * nat, [N.of_nat (t.2 * 8); N.of_nat (t.1.2 * 8)])
                   <$> allTiles 1 (tilesY sz) (tilesX sz))).
Proof.
  unfold tilePosRows, allTiles. simpl seq. simpl mbind. rewrite app_nil_r.
  assert (Hflat : ∀ ys : list nat,
    concat ((λ t : nat * nat * nat, [N.of_nat (t.2 * 8); N.of_nat (t.1.2 * 8)])
              <$> (ys ≫= λ ty, seq 0 (tilesX sz) ≫= λ tx, [(0, ty, tx)]))
    = concat ((λ ty, concat ((λ tx, [N.of_nat (tx * 8); N.of_nat (ty * 8)])
                               <$> seq 0 (tilesX sz))) <$> ys)).
  { intros ys. induction ys as [|ty ys IH]; [done|].
    rewrite bind_cons, fmap_app, concat_app, IH, fmap_cons. simpl concat. f_equal.
    generalize (seq 0 (tilesX sz)). intros xs.
    induction xs as [|tx xs IHx]; [done|].
    rewrite bind_cons, fmap_app, concat_app, IHx. reflexivity. }
  rewrite Hflat.
  apply prints_pure_loop. intros ty2 Hty2.
  apply prints_pure_loop. intros tx2 Htx2.
  exists ("  { " +:+ num (tx2 * 8) +:+ ", " +:+ num (ty2 * 8) +:+ " }"
          +:+ (if bool_decide (ty2 * tilesX sz + tx2 ≠ tilesPerFrame sz - 1)
               then "," +:+ JS.nl else JS.nl)).
  split; [intros out; cbv zeta; by rewrite !append_assoc|].
  intros ns. rewrite !lex_app.
  assert (Hpre : lex "  { " (ns, Idle) = (ns, Idle)) by reflexivity.
  rewrite Hpre, lex_num.
  assert (Hsep : ∀ ms m, lex ", " (ms, Dec m) = (ms ++ [m], Idle)) by reflexivity.
  assert (Hend : ∀ ms m, lex " }" (ms, Dec m) = (ms ++ [m], Idle)) by reflexivity.
  rewrite Hsep, lex_num, Hend, <- app_assoc. simpl.
  destruct (bool_decide _); reflexivity.
Qed.

Lemma prints_numbers (f : string → Failure + string) (data : list N) :
  prints f data → ∃ rows, (∀ out, f out = inr (out +:+ rows)) ∧ numbers rows = data.
Proof.
  intros (rows & Hrun & Hlex). exists rows. split; [done|].
  unfold numbers. cbv zeta. by rewrite (Hlex []).
Qed.

Lemma of_to_N_list (xs : list Z) :
  Forall (λ v, (0 ≤ v)%Z) xs → Z.of_N <$> (Z.to_N <$> xs) = xs.
Proof.
  induction 1 as [|v xs Hv _ IH]; [done|]. rewrite !fmap_cons, IH. f_equal. lia.
Qed.

Lemma Forall_concat {A} (P : A → Prop) (xss : list (list A)) :
  Forall (Forall P) xss → Forall P (concat xss).
Proof. induction 1; simpl; [done|]. by apply Forall_app. Qed.

Lemma length_concat_uniform {A} (k : nat) (xss : list (list A)) :
  Forall (λ xs, length xs = k) xss → length (concat xss) = length xss * k.
Proof.
  induction 1 as [|xs xss Hxs _ IH]; simpl; [done|]. rewrite length_app, IH, Hxs. lia.
Qed.

(** X19 — The table of tile records in the C text: printing never
    throws for the tables of an export, and the numbers written in the rows
    are exactly the bytes of the records, in the order layer, frame, tile,
    byte, each as a [0x] literal of two digits; there are as many as the
    declared dimensions [layerCount][frameCount][tilesPerFrame][16] say. *)
Theorem tiles_text (pc : PiskelController) (MAX_LAYERS MAX_PALS : nat) (T : Tables) :
  validImage pc → 1 ≤ MAX_LAYERS →
  onDownloadCFileClick_ pc MAX_LAYERS MAX_PALS = inr T →
  let sz := sizesOf pc MAX_LAYERS MAX_PALS in
  ∃ rows,
    (∀ out, tilesRows (perLayerTiles T) sz (layerCount T) out = inr (out +:+ rows)) ∧
    Z.of_N <$> numbers rows = concat (concat (concat (perLayerTiles T))) ∧
    length (numbers rows) = layerCount T * (frameCount sz * (tilesPerFrame sz * bytesPerTile)).
Proof.
  intros Hvalid HML Hexp. cbv zeta.
  destruct (export_shaped pc MAX_LAYERS MAX_PALS T Hvalid HML Hexp)
    as (_ & _ & _ & Hl3 & _ & _ & Htiles & _).
  destruct (prints_numbers _ _
              (prints_tilesRows (perLayerTiles T) (sizesOf pc MAX_LAYERS MAX_PALS)
                 (layerCount T) Hl3 Htiles)) as (rows & Hrun & Hnum).
  exists rows. split; [done|]. rewrite Hnum. split.
  - apply of_to_N_list. apply Forall_concat, Forall_concat, Forall_concat.
    eapply Forall_impl; [exact Htiles|]. intros lt [_ Hlt].
    eapply Forall_impl; [exact Hlt|]. intros ft [_ Hft].
    eapply Forall_impl; [exact Hft|]. intros tb [_ Htb].
    eapply Forall_impl; [exact Htb|]. intros b. simpl. lia.
  - rewrite length_fmap.
    rewrite (length_concat_uniform bytesPerTile).
    2: { apply Forall_concat, Forall_concat.
         eapply Forall_impl; [exact Htiles|]. intros lt [_ Hlt].
         eapply Forall_impl; [exact Hlt|]. intros ft [_ Hft].
         eapply Forall_impl; [exact Hft|]. by intros tb [? _]. }
    rewrite (length_concat_uniform (tilesPerFrame (sizesOf pc MAX_LAYERS MAX_PALS))).
    2: { apply Forall_concat.
         eapply Forall_impl; [exact Htiles|]. intros lt [_ Hlt].
         eapply Forall_impl; [exact Hlt|]. by intros ft [? _]. }
    rewrite (length_concat_uniform (frameCount (sizesOf pc MAX_LAYERS MAX_PALS))).
    2: { eapply Forall_impl; [exact Htiles|]. by intros lt [? _]. }
    rewrite Hl3. lia.
Qed.

Lemma tiles_text_witness :
  validImage twinImage ∧ 1 ≤ 3 ∧
  onDownloadCFileClick_ twinImage 3 16 = inr twinTables ∧
  ∃ rows,
    tilesRows (perLayerTiles twinTables) (sizesOf twinImage 3 16) (layerCount twinTables) ""
    = inr rows ∧
    Z.of_N <$> numbers rows = concat (concat (concat (perLayerTiles twinTables))).
Proof.
  assert (Hvalid : validImage twinImage) by solve_validImage.
  assert (H3 : 1 ≤ 3) by lia.
  assert (Hexp : onDownloadCFileClick_ twinImage 3 16 = inr twinTables) by reflexivity.
  split_and!; [exact Hvalid|exact H3|exact Hexp|].
  destruct (tiles_text twinImage 3 16 twinTables Hvalid H3 Hexp) as (rows & Hrun & Hnum & _).
  exists rows. split; [apply (Hrun "")|done].
Defined.

(** X20 — The table of palettes in the C text: every layer lists exactly
    [MAX_PALS_PER_LAYER] palettes of four [0x] literals of four digits, the
    palettes of its bank in order, then palettes of zeros; the numbers
    written are those values, layer by layer. *)
Theorem palettes_text (pc : PiskelController) (MAX_LAYERS MAX_PALS : nat) (T : Tables) :
  validImage pc → 1 ≤ MAX_LAYERS →
  onDownloadCFileClick_ pc MAX_LAYERS MAX_PALS = inr T →
  ∃ rows,
    (∀ out, palettesRows (perLayerPalettes T) MAX_PALS (layerCount T) out
            = inr (out +:+ rows)) ∧
    Z.of_N <$> numbers rows = concat (concat (padBank MAX_PALS <$> perLayerPalettes T)) ∧
    (∀ bank, bank ∈ perLayerPalettes T →
       padBank MAX_PALS bank = bank ++ replicate (MAX_PALS - length bank) [0; 0; 0; 0]%Z) ∧
    length (numbers rows) = layerCount T * (MAX_PALS * 4).
Proof.
  intros Hvalid HML Hexp.
  destruct (export_shaped pc MAX_LAYERS MAX_PALS T Hvalid HML Hexp)
    as (_ & Hl1 & _ & _ & Hpals & _).
  assert (H4 : Forall (λ bank : list (list Z), Forall (λ p, length p = 4) bank)
                 (perLayerPalettes T)).
  { eapply Forall_impl; [exact Hpals|]. intros bank [_ Hb].
    eapply Forall_impl; [exact Hb|]. by intros p [? _]. }
  destruct (prints_numbers _ _
              (prints_palettesRows (perLayerPalettes T) MAX_PALS (layerCount T) Hl1 H4))
    as (rows & Hrun & Hnum).
  assert (Hpad : ∀ bank, bank ∈ perLayerPalettes T →
    padBank MAX_PALS bank = bank ++ replicate (MAX_PALS - length bank) [0; 0; 0; 0]%Z).
  { intros bank Hin. rewrite Forall_forall in Hpals. destruct (Hpals bank Hin) as [Hcap _].
    unfold padBank. by rewrite take_ge by lia. }
  assert (Hpadded : Forall (Forall (λ p : list Z, length p = 4 ∧ Forall (λ v, (0 ≤ v < 4096)%Z) p))
                      (padBank MAX_PALS <$> perLayerPalettes T)).
  { apply Forall_fmap. apply Forall_forall. intros bank Hin. simpl.
    rewrite (Hpad bank Hin). rewrite Forall_forall in Hpals.
    destruct (Hpals bank Hin) as [_ Hb]. apply Forall_app. split; [done|].
    apply Forall_replicate. split; [done|].
    repeat (apply Forall_cons; split; [lia|]). by apply Forall_nil. }
  exists rows. split; [done|]. rewrite Hnum. split_and!; [|done|].
  - assert (Hmod : (λ v, Z.to_N (v mod 65536))
                     <$> concat (concat (padBank MAX_PALS <$> perLayerPalettes T))
                   = Z.to_N <$> concat (concat (padBank MAX_PALS <$> perLayerPalettes T))).
    { apply Forall_fmap_ext_1. apply Forall_concat, Forall_concat.
      eapply Forall_impl; [exact Hpadded|]. intros bank Hb.
      eapply Forall_impl; [exact Hb|]. intros p [_ Hp].
      eapply Forall_impl; [exact Hp|]. intros v Hv. simpl in *.
      by rewrite Z.mod_small by lia. }
    rewrite Hmod. apply of_to_N_list. apply Forall_concat, Forall_concat.
    eapply Forall_impl; [exact Hpadded|]. intros bank Hb.
    eapply Forall_impl; [exact Hb|]. intros p [_ Hp].
    eapply Forall_impl; [exact Hp|]. intros v. simpl. lia.
  - rewrite length_fmap.
    rewrite (length_concat_uniform 4).
    2: { apply Forall_concat. eapply Forall_impl; [exact Hpadded|]. intros bank Hb.
         eapply Forall_impl; [exact Hb|]. by intros p [? _]. }
    rewrite (length_concat_uniform MAX_PALS).
    2: { apply Forall_fmap. apply Forall_forall. intros bank _. apply length_padBank. }
    rewrite length_fmap, Hl1. lia.
Qed.

Lemma palettes_text_witness :
  validImage twinImage ∧ 1 ≤ 3 ∧
  onDownloadCFileClick_ twinImage 3 2 = inr twinTables ∧
  ∃ rows,
    palettesRows (perLayerPalettes twinTables) 2 (layerCount twinTables) "" = inr rows ∧
    Z.of_N <$> numbers rows = [0; 1; 1; 1; 0; 0; 0; 0]%Z.
Proof.
  assert (Hvalid : validImage twinImage) by solve_validImage.
  assert (H3 : 1 ≤ 3) by lia.
  assert (Hexp : onDownloadCFileClick_ twinImage 3 2 = inr twinTables) by reflexivity.
  split_and!; [exact Hvalid|exact H3|exact Hexp|].
  destruct (palettes_text twinImage 3 2 twinTables Hvalid H3 Hexp) as (rows & Hrun & Hnum & _).
  exists rows. split; [apply (Hrun "")|exact Hnum].
Defined.

(** X21 — The table of palette ids in the C text: the numbers written
    in the rows are the palette ids modulo 256, in the order layer, frame,
    tile; with at most 256 palettes per layer (the page allows 64) they are
    the palette ids themselves. *)
Theorem tile_pal_text (pc : PiskelController) (MAX_LAYERS MAX_PALS : nat) (T : Tables) :
  validImage pc → 1 ≤ MAX_LAYERS →
  onDownloadCFileClick_ pc MAX_LAYERS MAX_PALS = inr T →
  let sz := sizesOf pc MAX_LAYERS MAX_PALS in
  ∃ rows,
    (∀ out, tilePalRows (perLayerPalIdMap T) sz (layerCount T) out = inr (out +:+ rows)) ∧
    numbers rows = (λ id, Z.to_N (id mod 256)) <$> concat (concat (perLayerPalIdMap T)) ∧
    (MAX_PALS ≤ 256 → Z.of_N <$> numbers rows = concat (concat (perLayerPalIdMap T))) ∧
    length (numbers rows) = layerCount T * (frameCount sz * tilesPerFrame sz).
Proof.
  intros Hvalid HML Hexp. cbv zeta.
  destruct (export_shaped pc MAX_LAYERS MAX_PALS T Hvalid HML Hexp)
    as (_ & Hl1 & Hl2 & _ & Hpals & Hids & _ & Hrange).
  destruct (prints_numbers _ _
              (prints_tilePalRows (perLayerPalIdMap T) (sizesOf pc MAX_LAYERS MAX_PALS)
                 (layerCount T) Hl2 Hids)) as (rows & Hrun & Hnum).
  exists rows. split; [done|]. split; [done|]. rewrite Hnum. split.
  - intros HMP.
    assert (Hall : Forall (Forall (Forall (λ id, (0 ≤ id < 256)%Z))) (perLayerPalIdMap T)).
    { apply Forall_lookup. intros l m Hm.
      assert (Hl : l < length (perLayerPalettes T)) by (apply lookup_lt_Some in Hm; lia).
      destruct (lookup_lt_is_Some_2 _ _ Hl) as [bank Hbank].
      destruct (Forall_lookup_1 _ _ _ _ Hpals Hbank) as [Hcap _].
      eapply Forall_impl; [exact (Hrange l bank m Hbank Hm)|]. intros ids Hok.
      eapply Forall_impl; [exact Hok|]. intros id. simpl. lia. }
    assert (Hmod : (λ id, Z.to_N (id mod 256)) <$> concat (concat (perLayerPalIdMap T))
                   = Z.to_N <$> concat (concat (perLayerPalIdMap T))).
    { apply Forall_fmap_ext_1. apply Forall_concat, Forall_concat.
      eapply Forall_impl; [exact Hall|]. intros m Hm.
      eapply Forall_impl; [exact Hm|]. intros ids Hi.
      eapply Forall_impl; [exact Hi|]. intros id Hid. simpl in *.
      by rewrite Z.mod_small by lia. }
    rewrite Hmod. apply of_to_N_list. apply Forall_concat, Forall_concat.
    eapply Forall_impl; [exact Hall|]. intros m Hm.
    eapply Forall_impl; [exact Hm|]. intros ids Hi.
    eapply Forall_impl; [exact Hi|]. intros id. simpl. lia.
  - rewrite length_fmap.
    rewrite (length_concat_uniform (tilesPerFrame (sizesOf pc MAX_LAYERS MAX_PALS))).
    2: { apply Forall_concat. eapply Forall_impl; [exact Hids|]. by intros m [_ ?]. }
    rewrite (length_concat_uniform (frameCount (sizesOf pc MAX_LAYERS MAX_PALS))).
    2: { eapply Forall_impl; [exact Hids|]. by intros m [? _]. }
    rewrite Hl2. lia.
Qed.

Lemma tile_pal_text_witness :
  validImage twoTileImage ∧ 1 ≤ 3 ∧
  onDownloadCFileClick_ twoTileImage 3 16 = inr twoTileTables ∧
  ∃ rows,
    tilePalRows (perLayerPalIdMap twoTileTables) (sizesOf twoTileImage 3 16)
                (layerCount twoTileTables) "" = inr rows ∧
    Z.of_N <$> numbers rows = [0; 1]%Z.
Proof.
  assert (Hvalid : validImage twoTileImage) by solve_validImage.
  assert (H3 : 1 ≤ 3) by lia.
  assert (Hexp : onDownloadCFileClick_ twoTileImage 3 16 = inr twoTileTables) by reflexivity.
  split_and!; [exact Hvalid|exact H3|exact Hexp|].
  destruct (tile_pal_text twoTileImage 3 16 twoTileTables Hvalid H3 Hexp)
    as (rows & Hrun & _ & Hnum & _).
  exists rows. split; [apply (Hrun "")|]. apply Hnum. lia.
Defined.

(** X22 — The palette counts in the C text: one number per layer, the
    size of its bank modulo 256; with at most 255 palettes per layer (the
    page allows 64) it is the size of the bank. *)
Theorem pal_count_text (pc : PiskelController) (MAX_LAYERS MAX_PALS : nat) (T : Tables) :
  validImage pc → 1 ≤ MAX_LAYERS →
  onDownloadCFileClick_ pc MAX_LAYERS MAX_PALS = inr T →
  ∃ rows,
    (∀ out, palCountRows (perLayerPalettes T) (layerCount T) out = inr (out +:+ rows)) ∧
    numbers rows
    = (λ bank : list (list Z), (N.of_nat (length bank) mod 256)%N) <$> perLayerPalettes T ∧
    (MAX_PALS ≤ 255 →
       numbers rows = (λ bank : list (list Z), N.of_nat (length bank)) <$> perLayerPalettes T) ∧
    length (numbers rows) = layerCount T.
Proof.
  intros Hvalid HML Hexp.
  destruct (export_shaped pc MAX_LAYERS MAX_PALS T Hvalid HML Hexp)
    as (_ & Hl1 & _ & _ & Hpals & _).
  destruct (prints_numbers _ _
              (prints_palCountRows (perLayerPalettes T) (layerCount T) Hl1))
    as (rows & Hrun & Hnum).
  assert (Hmod : (λ bank : list (list Z), Z.to_N (Z.of_nat (length bank) mod 256))
                   <$> perLayerPalettes T
                 = (λ bank : list (list Z), (N.of_nat (length bank) mod 256)%N)
                     <$> perLayerPalettes T).
  { apply list_fmap_ext. intros _ bank _. simpl.
    rewrite <- (Z2N.id 256) at 1 by lia. rewrite <- nat_N_Z, <- N2Z.inj_mod. by rewrite N2Z.id. }
  exists rows. rewrite Hnum, Hmod. split_and!; [done|done| |].
  - intros HMP. apply Forall_fmap_ext_1.
    eapply Forall_impl; [exact Hpals|]. intros bank [Hcap _]. simpl.
    apply N.mod_small. lia.
  - by rewrite length_fmap.
Qed.

Lemma pal_count_text_witness :
  validImage twoTileImage ∧ 1 ≤ 3 ∧
  onDownloadCFileClick_ twoTileImage 3 16 = inr twoTileTables ∧
  ∃ rows,
    palCountRows (perLayerPalettes twoTileTables) (layerCount twoTileTables) "" = inr rows ∧
    numbers rows = [2%N].
Proof.
  assert (Hvalid : validImage twoTileImage) by solve_validImage.
  assert (H3 : 1 ≤ 3) by lia.
  assert (Hexp : onDownloadCFileClick_ twoTileImage 3 16 = inr twoTileTables) by reflexivity.
  split_and!; [exact Hvalid|exact H3|exact Hexp|].
  destruct (pal_count_text twoTileImage 3 16 twoTileTables Hvalid H3 Hexp)
    as (rows & Hrun & _ & Hnum & _).
  exists rows. split; [apply (Hrun "")|]. apply Hnum. lia.
Defined.

(** X23 — The table of tile positions in the C text: for the tiles in
    the order of their ids, row by row, the rows hold the pixel position of
    the tile, [tx * 8] then [ty * 8], written in full whatever its size. *)
Theorem tile_pos_text (sz : Sizes) :
  ∃ rows,
    (∀ out, tilePosRows sz out = out +:+ rows) ∧
    numbers rows
    = concat ((λ t : nat * nat * nat, [N.of_nat (t.2 * 8); N.of_nat (t.1.2 * 8)])
               <$> allTiles 1 (tilesY sz) (tilesX sz)) ∧
    length (numbers rows) = tilesPerFrame sz * 2.
Proof.
  destruct (prints_numbers _ _ (prints_tilePosRows sz)) as (rows & Hrun & Hnum).
  exists rows. split_and!.
  - intros out. specialize (Hrun out). by injection Hrun.
  - done.
  - rewrite Hnum. rewrite (length_concat_uniform 2).
    2: { apply Forall_fmap, Forall_forall. by intros t _. }
    rewrite length_fmap. unfold allTiles, tilesPerFrame. simpl. rewrite app_nil_r.
    assert (Hlen : ∀ ys : list nat,
      length (ys ≫= λ ty, seq 0 (tilesX sz) ≫= λ tx, [(0, ty, tx)])
      = tilesX sz * length ys).
    { intros ys. induction ys as [|ty ys IH]; [simpl; lia|].
      rewrite bind_cons, length_app, IH. simpl.
      assert (Hrow : ∀ xs : list nat, length (xs ≫= λ tx, [(0, ty, tx)]) = length xs).
      { intros xs. induction xs as [|tx xs IHx]; [done|].
        rewrite bind_cons, length_app, IHx. done. }
      rewrite Hrow, length_seq. lia. }
    rewrite Hlen, length_seq. lia.
Qed.

(** X24 — The file handed to the download: for a valid image, printing
    the C text never throws, so the export ends without a file exactly when
    building the tables fails, with that failure; otherwise the file is
    named [nameRaw + "_ngpc_layers.c"] and its text is the head followed by
    the five tables in the order palette counts, palettes, palette ids, tile
    records, tile positions, each made of its declaration, the rows its
    loops print and the closing line. *)
Theorem download_file (names : Names) (pc : PiskelController) (MAX_LAYERS MAX_PALS : nat) :
  validImage pc → 1 ≤ MAX_LAYERS →
  let sz := sizesOf pc MAX_LAYERS MAX_PALS in
  match onDownloadCFileClick_ pc MAX_LAYERS MAX_PALS with
  | inl e => downloadAsFile names pc MAX_LAYERS MAX_PALS = inl e
  | inr T =>
      ∃ palCount palettes tilePal tiles tilePos,
        (∀ out, palCountRows (perLayerPalettes T) (layerCount T) out
                = inr (out +:+ palCount)) ∧
        (∀ out, palettesRows (perLayerPalettes T) MAX_PALS (layerCount T) out
                = inr (out +:+ palettes)) ∧
        (∀ out, tilePalRows (perLayerPalIdMap T) sz (layerCount T) out
                = inr (out +:+ tilePal)) ∧
        (∀ out, tilesRows (perLayerTiles T) sz (layerCount T) out = inr (out +:+ tiles)) ∧
        (∀ out, tilePosRows sz out = out +:+ tilePos) ∧
        downloadAsFile names pc MAX_LAYERS MAX_PALS
        = inr (nameRaw names +:+ "_ngpc_layers.c",
               outHead names sz (layerCount T) +:+
               palCountDecl names (layerCount T) +:+ palCount +:+ "};" +:+ JS.nl +:+ JS.nl +:+
               palettesDecl names sz (layerCount T) +:+ palettes +:+ "};" +:+ JS.nl +:+ JS.nl +:+
               tilePalDecl names sz (layerCount T) +:+ tilePal +:+ "};" +:+ JS.nl +:+ JS.nl +:+
               tilesDecl names sz (layerCount T) +:+ tiles +:+ "};" +:+ JS.nl +:+ JS.nl +:+
               tilePosDecl names sz +:+ tilePos +:+ "};" +:+ JS.nl)
  end.
Proof.
  intros Hvalid HML. cbv zeta. unfold downloadAsFile.
  destruct (onDownloadCFileClick_ pc MAX_LAYERS MAX_PALS) as [e|T] eqn:Hexp; [done|].
  destruct (export_shaped pc MAX_LAYERS MAX_PALS T Hvalid HML Hexp)
    as (_ & Hl1 & Hl2 & Hl3 & Hpals & Hids & Htiles & _).
  assert (H4 : Forall (λ bank : list (list Z), Forall (λ p, length p = 4) bank)
                 (perLayerPalettes T)).
  { eapply Forall_impl; [exact Hpals|]. intros bank [_ Hb].
    eapply Forall_impl; [exact Hb|]. by intros p [? _]. }
  destruct (prints_palCountRows (perLayerPalettes T) (layerCount T) Hl1) as (r1 & Hr1 & _).
  destruct (prints_palettesRows (perLayerPalettes T) MAX_PALS (layerCount T) Hl1 H4)
    as (r2 & Hr2 & _).
  destruct (prints_tilePalRows (perLayerPalIdMap T) (sizesOf pc MAX_LAYERS MAX_PALS)
              (layerCount T) Hl2 Hids) as (r3 & Hr3 & _).
  destruct (prints_tilesRows (perLayerTiles T) (sizesOf pc MAX_LAYERS MAX_PALS)
              (layerCount T) Hl3 Htiles) as (r4 & Hr4 & _).
  destruct (prints_tilePosRows (sizesOf pc MAX_LAYERS MAX_PALS)) as (r5 & Hr5 & _).
  assert (Hr5' : ∀ out, tilePosRows (sizesOf pc MAX_LAYERS MAX_PALS) out = out +:+ r5).
  { intros out. specialize (Hr5 out). by injection Hr5. }
  exists r1, r2, r3, r4, r5. split_and!; [done|done|done|done|done|].
  unfold out, fileName. cbv zeta.
  change (MAX_PALS_PER_LAYER (sizesOf pc MAX_LAYERS MAX_PALS)) with MAX_PALS.
  rewrite Hr1, Hr2, Hr3, Hr4, Hr5'. by rewrite !append_assoc.
Qed.

Lemma download_file_witness :
  validImage blankImage ∧ 1 ≤ 3 ∧
  ∃ text,
    downloadAsFile {| nameRaw := "New Piskel"; upperName := "NEW_PISKEL";
                      lowerName := "new_piskel" |} blankImage 3 16
    = inr ("New Piskel_ngpc_layers.c", text).
Proof.
  assert (Hvalid : validImage blankImage) by solve_validImage.
  assert (H3 : 1 ≤ 3) by lia.
  split_and!; [exact Hvalid|exact H3|].
  pose proof (download_file {| nameRaw := "New Piskel"; upperName := "NEW_PISKEL";
                               lowerName := "new_piskel" |} blankImage 3 16 Hvalid H3) as H.
  cbv zeta in H.
  change (onDownloadCFileClick_ blankImage 3 16) with (@inr Failure _ blankTables) in H.
  destruct H as (r1 & r2 & r3 & r4 & r5 & _ & _ & _ & _ & _ & Hfile).
  eexists. exact Hfile.
Defined.

(** ** The limits only limit *)

(** A loop whose every successful step another body repeats gives the
    same result with that body. *)
Lemma for_upto_agree {E S} (n : nat) (body body' : nat → S → E + S) (s r : S) :
  (∀ i s1 s2, i < n → body i s1 = inr s2 → body' i s1 = inr s2) →
  JS.for_upto n body s = inr r → JS.for_upto n body' s = inr r.
Proof.
  revert r. induction n as [|n IH]; intros r Hstep; [done|].
  rewrite !for_upto_S.
  destruct (JS.for_upto n body s) as [e|s1] eqn:Hrun; [done|].
  intros Hlast. rewrite (IH s1); [|intros i s2 s3 Hi; apply Hstep; lia|done].
  apply Hstep; [lia|done].
Qed.

Lemma exportTile_mono groups maxPals maxPals' pix width tilesX l fi ty tx st st' :
  maxPals ≤ maxPals' →
  exportTile groups maxPals pix width tilesX l fi ty tx st = inr st' →
  exportTile groups maxPals' pix width tilesX l fi ty tx st = inr st'.
Proof.
  intros Hle. unfold exportTile. destruct st as [[bank palIds] tiles].
  destruct (getGroup groups l fi (ty * tilesX + tx)) as [group|]; [|done].
  unfold findOrAddPalette_.
  destruct (findPalette bank (buildTilePaletteRgb444_ group) 0) as [i|].
  { cbv beta iota. by destruct (_ <? 0)%Z. }
  case_bool_decide as Hfull; [done|].
  rewrite bool_decide_eq_false_2 by lia.
  cbv beta iota. by destruct (_ <? 0)%Z.
Qed.

Lemma exportFrame_mono pc groups maxPals maxPals' width tilesX tilesY l fi st st' :
  maxPals ≤ maxPals' →
  exportFrame pc groups maxPals width tilesX tilesY l fi st = inr st' →
  exportFrame pc groups maxPals' width tilesX tilesY l fi st = inr st'.
Proof.
  intros Hle. unfold exportFrame. destruct st as [[bank palIdMap] tiles].
  destruct (JS.for_upto tilesY _ (bank, [], [])) as [e|r] eqn:Hrun; [done|].
  intros Hres.
  erewrite (for_upto_agree tilesY); [exact Hres| |exact Hrun].
  intros ty s1 s2 _ Hrow. cbv beta in *.
  eapply for_upto_agree; [|exact Hrow].
  intros tx s3 s4 _. by apply exportTile_mono.
Qed.

Lemma exportLayer_mono pc groups maxPals maxPals' width frameCount tilesX tilesY l st st' :
  maxPals ≤ maxPals' →
  exportLayer pc groups maxPals width frameCount tilesX tilesY l st = inr st' →
  exportLayer pc groups maxPals' width frameCount tilesX tilesY l st = inr st'.
Proof.
  intros Hle. unfold exportLayer. destruct st as [[palettes palIdMaps] tiles].
  destruct (JS.for_upto frameCount _ ([], [], [])) as [e|r] eqn:Hrun; [done|].
  intros Hres.
  erewrite (for_upto_agree frameCount); [exact Hres| |exact Hrun].
  intros fi s1 s2 _. by apply exportFrame_mono.
Qed.

(** The array a successful plan returns has one entry per needed layer,
    frame and tile. *)
Lemma plan_shaped pc width height frameCount tilesX tilesY maxLayers n groups :
  1 ≤ maxLayers →
  buildLayeredPlan_ pc width height frameCount tilesX tilesY maxLayers = PlanOk n groups →
  shaped n frameCount (tilesX * tilesY) groups.
Proof.
  intros HML Hplan.
  destruct (buildLayeredPlan_ok _ _ _ _ _ _ _ _ _ Hplan) as (_ & _ & _ & Hok).
  destruct (Hok HML) as [Hn _]. clear Hok.
  revert Hplan. unfold buildLayeredPlan_.
  pose proof (plan_loops pc width tilesX tilesY maxLayers frameCount) as Hloops.
  destruct (JS.for_upto frameCount _ _) as [e|[g n']]; [done|].
  intros [= -> <-]. destruct Hloops as ([Hlen Hall] & _). simpl in *.
  split; [rewrite length_resize; done|].
  rewrite resize_le by lia. by apply Forall_take.
Qed.

(** Two arrays of the same shape with the same entries are the same. *)
Lemma shaped_ext L F T g1 g2 :
  shaped L F T g1 → shaped L F T g2 →
  (∀ l fi t, l < L → fi < F → t < T → getGroup g1 l fi t = getGroup g2 l fi t) →
  g1 = g2.
Proof.
  intros [Hl1 Ha1] [Hl2 Ha2] Hget.
  apply list_eq_same_length with L; [done|done|].
  intros l fr1 fr2 Hl Hfr1 Hfr2.
  destruct (Forall_lookup_1 _ _ _ _ Ha1 Hfr1) as [Hf1 Ht1].
  destruct (Forall_lookup_1 _ _ _ _ Ha2 Hfr2) as [Hf2 Ht2].
  apply list_eq_same_length with F; [done|done|].
  intros fi ts1 ts2 Hfi Hts1 Hts2.
  pose proof (Forall_lookup_1 _ _ _ _ Ht1 Hts1) as Hn1.
  pose proof (Forall_lookup_1 _ _ _ _ Ht2 Hts2) as Hn2. simpl in *.
  apply list_eq_same_length with T; [done|done|].
  intros t k1 k2 Ht Hk1 Hk2.
  specialize (Hget l fi t Hl Hfi Ht). unfold getGroup in Hget.
  rewrite Hfr1, Hfr2, Hts1, Hts2, Hk1, Hk2 in Hget. congruence.
Qed.

(** A plan that succeeds within [maxLayers] layers is the plan for every
    larger limit. *)
Lemma plan_mono pc width height frameCount tilesX tilesY maxLayers maxLayers' n groups :
  1 ≤ maxLayers → maxLayers ≤ maxLayers' →
  buildLayeredPlan_ pc width height frameCount tilesX tilesY maxLayers = PlanOk n groups →
  buildLayeredPlan_ pc width height frameCount tilesX tilesY maxLayers' = PlanOk n groups.
Proof.
  intros HML Hle Hplan.
  pose proof (plan_shaped _ _ _ _ _ _ _ _ _ HML Hplan) as Hsh.
  destruct (buildLayeredPlan_ok _ _ _ _ _ _ _ _ _ Hplan) as (H1 & Hmax & Hall & Hok).
  destruct (Hok HML) as [Hn Hget]. clear Hok.
  destruct (buildLayeredPlan_ pc width height frameCount tilesX tilesY maxLayers')
    as [e|n' groups'] eqn:Hplan'.
  { destruct (buildLayeredPlan_failed _ _ _ _ _ _ _ _ Hplan')
      as (fi & ty & tx & Hfi & Hty & Htx & Hover & _).
    destruct (Hall fi ty tx Hfi Hty Htx) as [Hc _]. lia. }
  - assert (HML' : 1 ≤ maxLayers') by lia.
    pose proof (plan_shaped _ _ _ _ _ _ _ _ _ HML' Hplan') as Hsh'.
    destruct (buildLayeredPlan_ok _ _ _ _ _ _ _ _ _ Hplan') as (H1' & Hmax' & Hall' & Hok').
    destruct (Hok' HML') as [Hn' Hget']. clear Hok'.
    assert (n' = n) as ->.
    { assert (n ≤ n').
      { destruct Hmax as [->|(fi & ty & tx & Hfi & Hty & Htx & ->)]; [done|].
        by apply Hall'. }
      assert (n' ≤ n); [|lia].
      destruct Hmax' as [->|(fi & ty & tx & Hfi & Hty & Htx & ->)]; [done|].
      by apply Hall. }
    f_equal. apply (shaped_ext n frameCount (tilesX * tilesY)); [done|done|].
    intros l fi t Hl Hfi Ht.
    assert (HtX : 0 < tilesX) by (destruct tilesX; [simpl in Ht|]; lia).
    assert (Hty : t / tilesX < tilesY).
    { apply Nat.Div0.div_lt_upper_bound. lia. }
    assert (Htx : t mod tilesX < tilesX) by (apply Nat.mod_upper_bound; lia).
    assert (Heq : t = t / tilesX * tilesX + t mod tilesX).
    { rewrite (Nat.div_mod_eq t tilesX) at 1. lia. }
    rewrite Heq, Hget', Hget by done. done.
Qed.

(** X25 — The two limits only limit.  When the export succeeds with at
    least one layer allowed, it gives the very same tables (layer count,
    palette banks, palette ids and tile bytes) under any larger
    [MAX_LAYERS] and any larger [MAX_PALS_PER_LAYER]. *)
Theorem larger_limits_same_tables pc MAX_LAYERS MAX_PALS MAX_LAYERS' MAX_PALS' T :
  1 ≤ MAX_LAYERS → MAX_LAYERS ≤ MAX_LAYERS' → MAX_PALS ≤ MAX_PALS' →
  onDownloadCFileClick_ pc MAX_LAYERS MAX_PALS = inr T →
  onDownloadCFileClick_ pc MAX_LAYERS' MAX_PALS' = inr T.
Proof.
  intros HML HleL HleP. unfold onDownloadCFileClick_. cbv zeta.
  case_bool_decide as Hdim; [done|].
  destruct (buildLayeredPlan_ pc _ _ _ _ _ MAX_LAYERS) as [e|n groups] eqn:Hplan; [done|].
  rewrite (plan_mono _ _ _ _ _ _ _ _ _ _ HML HleL Hplan).
  destruct (JS.for_upto n _ ([], [], [])) as [e|r] eqn:Hrun; [done|].
  intros Hres.
  erewrite (for_upto_agree n); [exact Hres| |exact Hrun].
  intros l s1 s2 _. by apply exportLayer_mono.
Qed.

Lemma larger_limits_same_tables_witness :
  1 ≤ 3 ∧ 3 ≤ 6 ∧ 16 ≤ 32 ∧
  onDownloadCFileClick_ twinImage 3 16 = inr twinTables ∧
  onDownloadCFileClick_ twinImage 6 32 = inr twinTables.
Proof.
  assert (H1 : 1 ≤ 3) by lia.
  assert (H2 : 3 ≤ 6) by lia.
  assert (H3 : 16 ≤ 32) by lia.
  assert (Hexp : onDownloadCFileClick_ twinImage 3 16 = inr twinTables) by reflexivity.
  split_and!; [exact H1|exact H2|exact H3|exact Hexp|].
  exact (larger_limits_same_tables twinImage 3 16 6 32 twinTables H1 H2 H3 Hexp).
Defined.

(** X26 — A colour key reads back as the colour.  For a pixel of four
    bytes, splitting the key [rgbaKey_] builds at the commas and parsing
    the parts gives the four channels back, and two such pixels have the
    same key exactly when they have the same four channels. *)
Theorem key_round_trip (c : Color) :
  byteColor c →
  JS.parseInt <$> JS.split_comma
                    (rgbaKey_ (Some (red c)) (Some (green c)) (Some (blue c)) (Some (alpha c)))
  = [Some (Z.of_N (red c)); Some (Z.of_N (green c));
     Some (Z.of_N (blue c)); Some (Z.of_N (alpha c))] ∧
  ∀ c', byteColor c' →
    (rgbaKey_ (Some (red c)) (Some (green c)) (Some (blue c)) (Some (alpha c))
     = rgbaKey_ (Some (red c')) (Some (green c')) (Some (blue c')) (Some (alpha c'))
     ↔ c = c').
Proof.
  intros Hc. split.
  - fold (colorKey c). rewrite colorKey_parts by done.
    destruct Hc as (Hr & Hg & Hb & Ha). simpl.
    rewrite !parseInt_dec by done. done.
  - intros c' Hc'. split; [|by intros ->].
    intros Hkey. by apply colorKey_inj.
Qed.

Lemma key_round_trip_witness :
  byteColor (RGBA 255 0 16 255) ∧
  JS.parseInt <$> JS.split_comma "255,0,16,255"
  = [Some 255%Z; Some 0%Z; Some 16%Z; Some 255%Z].
Proof.
  assert (Hc : byteColor (RGBA 255 0 16 255)) by (unfold byteColor; simpl; lia).
  split; [exact Hc|].
  exact (proj1 (key_round_trip (RGBA 255 0 16 255) Hc)).
Defined.
